(** * Themis timetable optimiser: genome model, checkers, evolution loop,
      round-robin fallback and the Gemini adapter.

    Shallow embedding of [src/lib/genetic_algo.py] and
    [src/lib/gemini_ai.py].  Python dictionaries with a fixed set of keys
    are records whose optional keys are [option] fields; [room_capacities]
    is a finite map; exceptions are an explicit error type; the pseudo random
    generator is a tape of draws read through a cursor. *)

From Stdlib Require Import ZArith QArith Qround Qabs String Ascii List Lia Bool Arith.
From stdpp Require Import base option list gmap strings.

Import ListNotations.
Local Open Scope string_scope.
Local Open Scope nat_scope.

(* ===================================================================== *)
(** ** Data model *)
(* ===================================================================== *)

(** An entity dictionary.  ["id"] is read with [entity["id"]], every other
    key with [entity.get(key, default)], so those are optional. *)
Record Entity := mkEntity {
  e_id : string;
  e_name : option string;
  e_duration : option Z;
  e_capacity_needed : option Z
}.

(** A gene dictionary.  The genes built by the fallback scheduler carry no
    ["entity_name"] key. *)
Record Gene := mkGene {
  entity_id : string;
  entity_name : option string;
  day : string;
  time_ : string;
  room : string;
  duration : Z
}.

(** The constraint dictionaries: ["type"] plus the keys the checkers read
    with [.get]. *)
Record Constraint := mkConstraint {
  c_type : string;
  c_entity_id : option string;
  c_unavailable_slots : list string;
  c_preferred_slots : list string
}.

(** The caller's configuration dictionary: every key is optional. *)
Record Config := mkConfig {
  population_size : option Z;
  generations : option Z;
  crossover_prob : option Q;
  mutation_prob : option Q;
  tournament_size : option Z;
  elitism_rate : option Q;
  weight_no_overlap : option Q;
  weight_room_capacity : option Q;
  weight_availability : option Q;
  weight_preferred_time : option Q;
  weight_balanced_distribution : option Q;
  weight_consecutive_slots : option Q;
  weight_gap_penalty : option Q;
  fitness_method : option string;
  mutation_strategy : option string;
  days : option (list string);
  time_slots : option (list string);
  rooms : option (list string);
  room_capacities : option (gmap string Z)
}.

(** [{}] *)
Definition empty_config : Config :=
  mkConfig None None None None None None None None None None None None None
           None None None None None None.

(** Python exceptions that the modelled code can raise. *)
Inductive exn :=
| IndexError | ValueError | ZeroDivisionError | KeyError | TypeError
| JSONDecodeError | AdvisorError.

(** A computation that either raises or returns. *)
Inductive result (A : Type) :=
| Raise (e : exn)
| Return (a : A).
Arguments Raise {A} e.
Arguments Return {A} a.

(** [dict.get(key, default)] on an optional field. *)
Definition get {A} (field : option A) (dflt : A) : A :=
  match field with Some v => v | None => dflt end.

(** The [(day, time, room)] triple of a gene. *)
Definition triple (g : Gene) : string * string * string :=
  (day g, time_ g, room g).

(* ===================================================================== *)
(** ** Checkers of [ScheduleGA] that read no randomness *)
(* ===================================================================== *)

(** The test of the inner loop of [check_overlaps]. *)
Definition same_slot (slot1 slot2 : Gene) : bool :=
  String.eqb (day slot1) (day slot2)
  && String.eqb (time_ slot1) (time_ slot2)
  && String.eqb (room slot1) (room slot2).

(** [for slot2 in individual[i+1:]: if ...: conflicts += 1] *)
Fixpoint count_conflicts (slot1 : Gene) (rest : list Gene) (conflicts : nat) : nat :=
  match rest with
  | [] => conflicts
  | slot2 :: rest' =>
      count_conflicts slot1 rest'
        (if same_slot slot1 slot2 then conflicts + 1 else conflicts)
  end.

(** [check_overlaps]: the outer loop, threading the counter. *)
Fixpoint check_overlaps_from (individual : list Gene) (conflicts : nat) : nat :=
  match individual with
  | [] => conflicts
  | slot1 :: rest => check_overlaps_from rest (count_conflicts slot1 rest conflicts)
  end.

Definition check_overlaps (individual : list Gene) : nat :=
  check_overlaps_from individual 0.

(** The literal default of [self.config.get("room_capacities", {...})]. *)
Definition default_room_capacities : gmap string Z :=
  <["R101" := 30%Z]> (<["R102" := 50%Z]> (<["R103" := 100%Z]>
  (<["R104" := 40%Z]> (<["R105" := 60%Z]> ∅)))).

(** [get_room_capacity] *)
Definition get_room_capacity (config : Config) (room_name : string) : Z :=
  let capacities := get (room_capacities config) default_room_capacities in
  get (capacities !! room_name) 30%Z.

(** [next((e for e in self.entities if e["id"] == slot["entity_id"]), None)] *)
Fixpoint find_entity (entities : list Entity) (eid : string) : option Entity :=
  match entities with
  | [] => None
  | e :: rest => if String.eqb (e_id e) eid then Some e else find_entity rest eid
  end.

(** [check_room_capacity] *)
Fixpoint check_room_capacity (entities : list Entity) (config : Config)
    (individual : list Gene) : nat :=
  match individual with
  | [] => 0
  | slot :: rest =>
      let hit :=
        match find_entity entities (entity_id slot) with
        | Some entity =>
            let required := get (e_capacity_needed entity) 0%Z in
            let room_capacity := get_room_capacity config (room slot) in
            if (room_capacity <? required)%Z then 1 else 0
        | None => 0
        end in
      hit + check_room_capacity entities config rest
  end.

(** The position pairs [(i, j)] with [i < j < n], in the order in which the
    two loops of [check_overlaps] visit them. *)
Definition pairs_lt (n : nat) : list (nat * nat) :=
  flat_map (fun i => map (pair i) (seq (S i) (n - S i))) (seq 0 n).

(** The position pair [p] holds two assignments with one and the same
    [(day, time, room)]. *)
Definition shares_slot (individual : list Gene) (p : nat * nat) : Prop :=
  exists a b, nth_error individual (fst p) = Some a
              /\ nth_error individual (snd p) = Some b
              /\ triple a = triple b.

(** The unordered pairs of assignments sharing [(day, time, room)], as the
    specification words them: the position pairs [i < j] whose triples are
    equal.  Equality of triples is decided as equality of values; the test
    that the code makes is not used here. *)
Definition sharing_pairs (individual : list Gene) : list (nat * nat) :=
  List.filter (fun p =>
            match nth_error individual (fst p), nth_error individual (snd p) with
            | Some a, Some b => bool_decide (triple a = triple b)
            | _, _ => false
            end)
         (pairs_lt (length individual)).

(** [C(k, 2)] *)
Definition choose2 (k : nat) : nat := k * (k - 1) / 2.

(* ===================================================================== *)
(** ** Randomness and exceptions *)
(* ===================================================================== *)

(** The state of Python's [random] module: a tape of raw draws and the
    position of the next one.  Every primitive below reads one draw. *)
Record Rng := mkRng { tape : nat -> Z; cursor : nat }.

(** Code that may draw random numbers and may raise. *)
Definition M (A : Type) : Type := Rng -> result A * Rng.

Definition ret {A} (a : A) : M A := fun r => (Return a, r).
Definition raise {A} (e : exn) : M A := fun r => (Raise e, r).
Definition bind {A B} (m : M A) (k : A -> M B) : M B :=
  fun r => match m r with
           | (Return a, r') => k a r'
           | (Raise e, r') => (Raise e, r')
           end.
Definition lift {A} (x : result A) : M A := fun r => (x, r).

Notation "'let*' x ':=' m 'in' k" := (bind m (fun x => k))
  (at level 10, x pattern, m at level 100, k at level 200).

(** [for x in xs: ...] collecting the results. *)
Fixpoint mapM {A B} (f : A -> M B) (xs : list A) : M (list B) :=
  match xs with
  | [] => ret []
  | x :: xs' => let* y := f x in let* ys := mapM f xs' in ret (y :: ys)
  end.

(** [[f() for _ in range(n)]] *)
Fixpoint repeatM {A} (n : nat) (f : M A) : M (list A) :=
  match n with
  | O => ret []
  | S n' => let* y := f in let* ys := repeatM n' f in ret (y :: ys)
  end.

Definition next_draw : M Z :=
  fun r => (Return (tape r (cursor r)), mkRng (tape r) (S (cursor r))).

(** [random._randbelow(n)] for [n > 0]: a value in [[0, n)]. *)
Definition randbelow (n : Z) : M Z :=
  let* d := next_draw in ret (d mod n)%Z.

(** [random.random()]: a multiple of [2^-53] in [[0, 1)]. *)
Definition random_random : M Q :=
  let* d := next_draw in ret ((d mod 9007199254740992)%Z # 9007199254740992).

(** [random.choice(seq)]; [IndexError] on an empty sequence. *)
Definition random_choice {A} (seq : list A) : M A :=
  match seq with
  | [] => raise IndexError
  | x :: _ =>
      let* j := randbelow (Z.of_nat (length seq)) in ret (nth (Z.to_nat j) seq x)
  end.

(** [random.randint(a, b)]; [ValueError] on an empty range. *)
Definition random_randint (a b : Z) : M Z :=
  if (b - a + 1 <=? 0)%Z then raise ValueError
  else (let* j := randbelow (b - a + 1) in ret (a + j)%Z).

(** [random.sample(range(n), 2)]: two distinct positions, by the pool
    method ([pool[j] = pool[n-1]] after the first pick); [ValueError] when
    the sample is larger than the population.  On long sequences CPython
    redraws on a collision instead; either way the result is an ordered
    pair of distinct positions below [n]. *)
Definition random_sample2 (n : nat) : M (nat * nat) :=
  if n <? 2 then raise ValueError
  else
    (let* i := randbelow (Z.of_nat n) in
     let* j := randbelow (Z.of_nat (n - 1)) in
     ret (Z.to_nat i, if (j =? i)%Z then n - 1 else Z.to_nat j)).

Definition Qlt_bool (a b : Q) : bool := negb (Qle_bool b a).

(** [2 ** e] *)
Definition pow2 (e : Z) : Q := Qpower 2 e.

(** The double nearest to [x], ties to the even mantissa: 53 bits of
    mantissa, and no exponent below that of the subnormals.  The overflow to
    infinity of values beyond the largest double is not modelled. *)
Definition round_double (x : Q) : Q :=
  match Qnum x with
  | Z0 => 0%Q
  | _ =>
      let a := Qabs x in
      let e0 := (Z.log2 (Qnum a) - Z.log2 (Zpos (Qden a)) - 52)%Z in
      let e1 := if Qlt_bool (a / pow2 e0) (pow2 52) then (e0 - 1)%Z else e0 in
      let e := Z.max e1 (-1074) in
      let y := (a / pow2 e)%Q in
      let f := Qfloor y in
      let rest := (y - inject_Z f)%Q in
      let m := if Qlt_bool rest (1 # 2) then f
               else if Qlt_bool (1 # 2) rest then (f + 1)%Z
               else if Z.even f then f else (f + 1)%Z in
      let v := (inject_Z m * pow2 e)%Q in
      if Qlt_bool x 0 then (- v)%Q else v
  end.

(* ===================================================================== *)
(** ** [ScheduleGA]: construction and the genome initialiser *)
(* ===================================================================== *)

(** An instance of [creator.Individual]: a list of genes with an attached
    fitness, [None] while the fitness is invalid. *)
Record Individual := mkIndividual {
  genes : list Gene;
  fitness : option Q
}.

(** The attributes of a [ScheduleGA] object. *)
Record ScheduleGA := mkScheduleGA {
  entities : list Entity;
  constraints : list Constraint;
  config : Config;
  self_days : list string;
  self_time_slots : list string;
  self_rooms : list string
}.

(** [d.setdefault(key, v)] on an optional field. *)
Definition setdefault {A} (field : option A) (v : A) : option A :=
  Some (get field v).

(** The [setdefault] block of [__init__].  The rationals 7/10 and 1/10
    stand for the float literals [0.7] and [0.1]: see [cfg_crossover_prob]
    and its neighbours, which read them as doubles. *)
Definition with_defaults (c : Config) : Config :=
  mkConfig
    (setdefault (population_size c) 100%Z)
    (setdefault (generations c) 500%Z)
    (setdefault (crossover_prob c) (7 # 10))
    (setdefault (mutation_prob c) (1 # 10))
    (setdefault (tournament_size c) 3%Z)
    (setdefault (elitism_rate c) (1 # 10))
    (setdefault (weight_no_overlap c) (100 # 1))
    (setdefault (weight_room_capacity c) (80 # 1))
    (setdefault (weight_availability c) (90 # 1))
    (setdefault (weight_preferred_time c) (20 # 1))
    (setdefault (weight_balanced_distribution c) (30 # 1))
    (setdefault (weight_consecutive_slots c) (15 # 1))
    (setdefault (weight_gap_penalty c) (10 # 1))
    (setdefault (fitness_method c) "weighted")
    (setdefault (mutation_strategy c) "swap")
    (days c) (time_slots c) (rooms c) (room_capacities c).

(** [self.config[key]] for a key that [__init__] has given a default: the
    value is always present, and this projection reads it. *)
Definition item {A} (field : option A) (dflt : A) : A := get field dflt.

Definition cfg_population_size (self : ScheduleGA) : Z :=
  item (population_size (config self)) 100%Z.
Definition cfg_generations (self : ScheduleGA) : Z :=
  item (generations (config self)) 500%Z.
(** The two probabilities and the elitism rate are floats: a rational of
    the configuration stands for the double that Python reads from such a
    literal ([0.7] is not 7/10), and these projections give that double. *)
Definition cfg_crossover_prob (self : ScheduleGA) : Q :=
  round_double (item (crossover_prob (config self)) (7 # 10)).
Definition cfg_mutation_prob (self : ScheduleGA) : Q :=
  round_double (item (mutation_prob (config self)) (1 # 10)).
Definition cfg_tournament_size (self : ScheduleGA) : Z :=
  item (tournament_size (config self)) 3%Z.
Definition cfg_elitism_rate (self : ScheduleGA) : Q :=
  round_double (item (elitism_rate (config self)) (1 # 10)).
Definition cfg_fitness_method (self : ScheduleGA) : string :=
  item (fitness_method (config self)) "weighted".
Definition cfg_mutation_strategy (self : ScheduleGA) : string :=
  item (mutation_strategy (config self)) "swap".

(** [ScheduleGA.__init__]: [config or {}], the defaults, the resource
    lists.  It raises nothing and draws nothing. *)
Definition ScheduleGA_init (ents : list Entity) (cons : list Constraint)
    (cfg : option Config) : ScheduleGA :=
  let c := with_defaults (get cfg empty_config) in
  mkScheduleGA ents cons c
    (get (days c) ["Monday"; "Tuesday"; "Wednesday"; "Thursday"; "Friday"])
    (get (time_slots c) ["08:00"; "09:00"; "10:00"; "11:00"; "12:00";
                         "13:00"; "14:00"; "15:00"; "16:00"; "17:00"])
    (get (rooms c) ["R101"; "R102"; "R103"; "R104"; "R105"]).

(** The body of the loop of [create_individual]: one gene, its three draws
    in the order day, time, room. *)
Definition create_gene (self : ScheduleGA) (entity : Entity) : M Gene :=
  let* d := random_choice (self_days self) in
  let* t := random_choice (self_time_slots self) in
  let* r := random_choice (self_rooms self) in
  ret (mkGene (e_id entity) (Some (get (e_name entity) (e_id entity)))
              d t r (get (e_duration entity) 2%Z)).

(** [create_individual] *)
Definition create_individual (self : ScheduleGA) : M Individual :=
  let* schedule := mapM (create_gene self) (entities self) in
  ret (mkIndividual schedule None).

(** [toolbox.population(n)], that is [tools.initRepeat(list, individual, n)]. *)
Definition toolbox_population (self : ScheduleGA) (n : Z) : M (list Individual) :=
  repeatM (Z.to_nat n) (create_individual self).

(* ===================================================================== *)
(** ** The fitness evaluator *)
(* ===================================================================== *)

(** Sequencing of code that may raise but draws nothing. *)
Definition rbind {A B} (m : result A) (k : A -> result B) : result B :=
  match m with Return a => k a | Raise e => Raise e end.

Notation "'let+' x ':=' m 'in' k" := (rbind m (fun x => k))
  (at level 10, x pattern, m at level 100, k at level 200).

Fixpoint rmap {A B} (f : A -> result B) (xs : list A) : result (list B) :=
  match xs with
  | [] => Return []
  | x :: xs' => let+ y := f x in let+ ys := rmap f xs' in Return (y :: ys)
  end.

(** [x in seq] for a list of strings. *)
Definition str_in (x : string) (seq : list string) : bool :=
  existsb (String.eqb x) seq.

(** [f"{slot['day']}_{slot['time']}"] *)
Definition slot_key (slot : Gene) : string := day slot ++ "_" ++ time_ slot.

(** [slot["entity_id"] == entity_id] where [entity_id] comes from
    [constraint.get("entity_id")] and is [None] when the key is absent. *)
Definition is_target (target : option string) (slot : Gene) : bool :=
  match target with
  | Some eid => String.eqb (entity_id slot) eid
  | None => false
  end.

(** [check_availability] *)
Definition check_availability (individual : list Gene) (constraint : Constraint) : nat :=
  length (List.filter
            (fun slot => is_target (c_entity_id constraint) slot
                         && str_in (slot_key slot) (c_unavailable_slots constraint))
            individual).

(** [check_preferred_times] *)
Definition check_preferred_times (individual : list Gene) (constraint : Constraint) : nat :=
  length (List.filter
            (fun slot => is_target (c_entity_id constraint) slot
                         && str_in (slot_key slot) (c_preferred_slots constraint))
            individual).

(** [{day: 0 for day in self.days}]: the keys in order of first occurrence. *)
Fixpoint dict_keys (ds : list string) (seen : list string) : list string :=
  match ds with
  | [] => []
  | d :: ds' => if str_in d seen then dict_keys ds' seen
                else d :: dict_keys ds' (d :: seen)
  end.

(** [day_counts[slot["day"]] += 1]; [KeyError] for a day that is no key. *)
Fixpoint count_days (keys : list string) (individual : list Gene) : result (list nat) :=
  match individual with
  | [] => Return (map (fun _ => 0) keys)
  | slot :: rest =>
      if str_in (day slot) keys
      then let+ counts := count_days keys rest in
           Return (map (fun kc => if String.eqb (fst kc) (day slot)
                                  then S (snd kc) else snd kc)
                       (combine keys counts))
      else Raise KeyError
  end.

Definition Qsum (xs : list Q) : Q := fold_right Qplus 0%Q xs.

(** [np.var(values)] of a non-empty list: the mean squared deviation. *)
Definition np_var (values : list nat) : Q :=
  let n := inject_Z (Z.of_nat (length values)) in
  let xs := map (fun v => inject_Z (Z.of_nat v)) values in
  let mean := (Qsum xs / n)%Q in
  (Qsum (map (fun x => (x - mean) * (x - mean))%Q xs) / n)%Q.

(** [check_balance].  With an empty [self.days] and no gene, [np.var] of
    the empty list is [nan] and the code goes on with a [nan] score (with a
    gene it raises [KeyError] before).  The rationals hold no [nan]: the
    embedding stops there with [ValueError], which the code does not raise.
    What is stated about scores below is stated for a [self.days] that is
    not empty, where the two agree. *)
Definition check_balance (self : ScheduleGA) (individual : list Gene) : result Q :=
  let keys := dict_keys (self_days self) [] in
  let+ counts := count_days keys individual in
  match counts with
  | [] => Raise ValueError
  | _ => Return (100 / (1 + np_var counts))%Q
  end.

(** [self.time_slots.index(t)]; [ValueError] when [t] is not in the list. *)
Fixpoint index_of (seq : list string) (t : string) : result nat :=
  match seq with
  | [] => Raise ValueError
  | x :: rest => if String.eqb x t then Return 0
                 else let+ i := index_of rest t in Return (S i)
  end.

Fixpoint insert_key (k : nat) (sorted : list nat) : list nat :=
  match sorted with
  | [] => [k]
  | x :: rest => if k <=? x then k :: sorted else x :: insert_key k rest
  end.

(** [sorted(slots, key=lambda x: self.time_slots.index(x["time"]))], kept as
    the list of keys: all later reads of [day_slots[i]["time"]] go through
    [index] again and so see exactly these numbers. *)
Definition sorted_time_indices (self : ScheduleGA) (slots : list Gene) : result (list nat) :=
  let+ ks := rmap (fun s => index_of (self_time_slots self) (time_ s)) slots in
  Return (fold_right insert_key [] ks).

(** [for i in range(len(day_slots) - 1): if time2_idx == time1_idx + 1: bonus += 1] *)
Fixpoint count_adjacent (idxs : list nat) : nat :=
  match idxs with
  | a :: ((b :: _) as rest) => (if b =? a + 1 then 1 else 0) + count_adjacent rest
  | _ => 0
  end.

(** [gap = time2_idx - time1_idx - 1; if gap > 0: total_gaps += gap] *)
Fixpoint sum_gaps (idxs : list nat) : nat :=
  match idxs with
  | a :: ((b :: _) as rest) => (b - a - 1) + sum_gaps rest
  | _ => 0
  end.

Definition on_day (d : string) (slots : list Gene) : list Gene :=
  List.filter (fun s => String.eqb (day s) d) slots.

(** [check_consecutive_preference] *)
Definition check_consecutive_preference (self : ScheduleGA) (individual : list Gene)
    (constraint : Constraint) : result nat :=
  let entity_slots := List.filter (is_target (c_entity_id constraint)) individual in
  let+ per_day := rmap (fun d =>
                     let+ idxs := sorted_time_indices self (on_day d entity_slots) in
                     Return (count_adjacent idxs))
                   (self_days self) in
  Return (list_sum per_day).

(** [check_gaps] *)
Definition check_gaps (self : ScheduleGA) (individual : list Gene) : result nat :=
  let+ per_day := rmap (fun d =>
                     let+ idxs := sorted_time_indices self (on_day d individual) in
                     Return (sum_gaps idxs))
                   (self_days self) in
  Return (list_sum per_day).

Definition Qnat (n : nat) : Q := inject_Z (Z.of_nat n).

(** One turn of the first loop of [evaluate_fitness] (hard constraints). *)
Definition apply_hard (self : ScheduleGA) (individual : list Gene)
    (score : Q) (constraint : Constraint) : Q :=
  let c := config self in
  if String.eqb (c_type constraint) "no_overlap" then
    (score - Qnat (check_overlaps individual) * item (weight_no_overlap c) (100 # 1))%Q
  else if String.eqb (c_type constraint) "room_capacity" then
    (score - Qnat (check_room_capacity (entities self) c individual)
             * item (weight_room_capacity c) (80 # 1))%Q
  else if String.eqb (c_type constraint) "availability" then
    (score - Qnat (check_availability individual constraint)
             * item (weight_availability c) (90 # 1))%Q
  else score.

(** One turn of the second loop of [evaluate_fitness] (preferences). *)
Definition apply_soft (self : ScheduleGA) (individual : list Gene)
    (score : Q) (constraint : Constraint) : result Q :=
  let c := config self in
  if String.eqb (c_type constraint) "preferred_time" then
    Return (score + Qnat (check_preferred_times individual constraint)
                    * item (weight_preferred_time c) (20 # 1))%Q
  else if String.eqb (c_type constraint) "balanced_distribution" then
    let+ balance_score := check_balance self individual in
    Return (score + balance_score * item (weight_balanced_distribution c) (30 # 1))%Q
  else if String.eqb (c_type constraint) "consecutive_slots" then
    let+ bonus := check_consecutive_preference self individual constraint in
    Return (score + Qnat bonus * item (weight_consecutive_slots c) (15 # 1))%Q
  else if String.eqb (c_type constraint) "minimize_gaps" then
    let+ gaps := check_gaps self individual in
    Return (score - Qnat gaps * item (weight_gap_penalty c) (10 # 1))%Q
  else Return score.

Fixpoint rfold {A B} (f : A -> B -> result A) (acc : A) (xs : list B) : result A :=
  match xs with
  | [] => Return acc
  | x :: xs' => let+ acc' := f acc x in rfold f acc' xs'
  end.

Definition Qmax (a b : Q) : Q := if Qlt_bool a b then b else a.

(** [evaluate_fitness]; scores are exact rationals where the source has
    floats: the rounding of the score arithmetic is not modelled. *)
Definition evaluate_fitness (self : ScheduleGA) (individual : list Gene) : result Q :=
  let score := fold_left (apply_hard self individual) (constraints self) (1000 # 1) in
  let+ score := rfold (apply_soft self individual) score (constraints self) in
  let score :=
    if String.eqb (cfg_fitness_method self) "penalty_based"
    then (if Qlt_bool score 0 then (1000 # 1) / (1 + Qabs score) else score)%Q
    else score in
  Return (Qmax score 0).

(* ===================================================================== *)
(** ** The DEAP operators the toolbox registers *)
(* ===================================================================== *)

(** [fit1 > fit2] on DEAP fitnesses: the comparison of the weighted value
    tuples, where the empty tuple of an invalid fitness is below all. *)
Definition fitness_gt (a b : option Q) : bool :=
  match a, b with
  | Some x, Some y => Qlt_bool y x
  | Some _, None => true
  | None, _ => false
  end.

(** Equality of gene dictionaries, [==] on [dict]. *)
Definition option_string_eqb (a b : option string) : bool :=
  match a, b with
  | Some x, Some y => String.eqb x y
  | None, None => true
  | _, _ => false
  end.

Definition gene_eqb (a b : Gene) : bool :=
  String.eqb (entity_id a) (entity_id b)
  && option_string_eqb (entity_name a) (entity_name b)
  && String.eqb (day a) (day b)
  && String.eqb (time_ a) (time_ b)
  && String.eqb (room a) (room b)
  && (duration a =? duration b)%Z.

Fixpoint genes_eqb (a b : list Gene) : bool :=
  match a, b with
  | [], [] => true
  | x :: a', y :: b' => gene_eqb x y && genes_eqb a' b'
  | _, _ => false
  end.

(** [tools.cxTwoPoint(ind1, ind2)] on the gene lists. *)
Definition cxTwoPoint (ind1 ind2 : list Gene) : M (list Gene * list Gene) :=
  let size := Z.of_nat (Nat.min (length ind1) (length ind2)) in
  let* cxpoint1 := random_randint 1 size in
  let* cxpoint2 := random_randint 1 (size - 1) in
  let '(p1, p2) := if (cxpoint1 <=? cxpoint2)%Z
                   then (Z.to_nat cxpoint1, Z.to_nat (cxpoint2 + 1))
                   else (Z.to_nat cxpoint2, Z.to_nat cxpoint1) in
  let seg1 := firstn (p2 - p1) (skipn p1 ind1) in
  let seg2 := firstn (p2 - p1) (skipn p1 ind2) in
  ret ((firstn p1 ind1 ++ seg2 ++ skipn p2 ind1)%list,
       (firstn p1 ind2 ++ seg1 ++ skipn p2 ind2)%list).

(** [max(aspirants, key=attrgetter("fitness"))]: the first maximal one. *)
Definition max_by_fitness (aspirants : list Individual) : result Individual :=
  match aspirants with
  | [] => Raise ValueError
  | a :: rest =>
      Return (fold_left
                (fun best x => if fitness_gt (fitness x) (fitness best) then x else best)
                rest a)
  end.

(** [tools.selTournament(individuals, k, tournsize)] *)
Definition selTournament (individuals : list Individual) (k : nat) (tournsize : Z)
    : M (list Individual) :=
  repeatM k
    (let* aspirants := repeatM (Z.to_nat tournsize) (random_choice individuals) in
     lift (max_by_fitness aspirants)).

(** Stable insertion into a list sorted by decreasing fitness: [x], met
    earlier, goes before every element that is not strictly better. *)
Fixpoint insert_best (x : Individual) (sorted : list Individual) : list Individual :=
  match sorted with
  | [] => [x]
  | y :: rest => if fitness_gt (fitness y) (fitness x)
                 then y :: insert_best x rest
                 else x :: sorted
  end.

(** [tools.selBest(individuals, k)]:
    [sorted(individuals, key=attrgetter("fitness"), reverse=True)[:k]]. *)
Definition selBest (individuals : list Individual) (k : nat) : list Individual :=
  firstn k (fold_right insert_best [] individuals).

(** [HallOfFame(1).update(population)]: the body of its loop for one
    individual.  An empty hall takes [population[0]]; otherwise a strictly
    better individual that is not [similar] (equal as a list) replaces the
    single entry. *)
Definition hof_update_one (first : Individual) (hof : option Individual)
    (ind : Individual) : option Individual :=
  match hof with
  | None => Some first
  | Some hofer =>
      if fitness_gt (fitness ind) (fitness hofer)
      then (if genes_eqb (genes ind) (genes hofer) then hof else Some ind)
      else hof
  end.

Definition hof_update (hof : option Individual) (population : list Individual)
    : option Individual :=
  match population with
  | [] => hof
  | first :: _ => fold_left (hof_update_one first) population hof
  end.

(* ===================================================================== *)
(** ** Mutation *)
(* ===================================================================== *)

Definition set_day (g : Gene) (v : string) : Gene :=
  mkGene (entity_id g) (entity_name g) v (time_ g) (room g) (duration g).
Definition set_time (g : Gene) (v : string) : Gene :=
  mkGene (entity_id g) (entity_name g) (day g) v (room g) (duration g).
Definition set_room (g : Gene) (v : string) : Gene :=
  mkGene (entity_id g) (entity_name g) (day g) (time_ g) v (duration g).

(** [individual[idx][key] = v] through an updater of the gene. *)
Definition update_gene (individual : list Gene) (idx : nat) (f : Gene -> Gene) : list Gene :=
  match individual !! idx with
  | Some g => <[idx := f g]> individual
  | None => individual
  end.

(** [individual[i], individual[j] = individual[j], individual[i]] *)
Definition swap_genes (individual : list Gene) (i j : nat) : list Gene :=
  match individual !! i, individual !! j with
  | Some gi, Some gj => <[j := gi]> (<[i := gj]> individual)
  | _, _ => individual
  end.

(** The branch [strategy == "swap"]. *)
Definition mutate_swap (individual : list Gene) : M (list Gene) :=
  if 2 <=? length individual then
    let* ij := random_sample2 (length individual) in
    ret (swap_genes individual (fst ij) (snd ij))
  else ret individual.

(** The branch [strategy == "shift"]. *)
Definition mutate_shift (self : ScheduleGA) (individual : list Gene) : M (list Gene) :=
  let* idx := random_randint 0 (Z.of_nat (length individual) - 1) in
  let* mutation_type := random_choice ["day"; "time"; "room"] in
  if String.eqb mutation_type "day" then
    let* v := random_choice (self_days self) in
    ret (update_gene individual (Z.to_nat idx) (fun g => set_day g v))
  else if String.eqb mutation_type "time" then
    let* v := random_choice (self_time_slots self) in
    ret (update_gene individual (Z.to_nat idx) (fun g => set_time g v))
  else
    let* v := random_choice (self_rooms self) in
    ret (update_gene individual (Z.to_nat idx) (fun g => set_room g v)).

(** The branch [strategy == "random"]. *)
Definition mutate_random (self : ScheduleGA) (individual : list Gene) : M (list Gene) :=
  let* idx := random_randint 0 (Z.of_nat (length individual) - 1) in
  let* d := random_choice (self_days self) in
  let individual := update_gene individual (Z.to_nat idx) (fun g => set_day g d) in
  let* t := random_choice (self_time_slots self) in
  let individual := update_gene individual (Z.to_nat idx) (fun g => set_time g t) in
  let* r := random_choice (self_rooms self) in
  ret (update_gene individual (Z.to_nat idx) (fun g => set_room g r)).

(** What [mutate_schedule] does once the probability test has passed. *)
Definition apply_strategy (self : ScheduleGA) (individual : list Gene) : M (list Gene) :=
  let strategy := cfg_mutation_strategy self in
  if String.eqb strategy "swap" then mutate_swap individual
  else if String.eqb strategy "shift" then mutate_shift self individual
  else if String.eqb strategy "random" then mutate_random self individual
  else ret individual.

(** [mutate_schedule] *)
Definition mutate_schedule (self : ScheduleGA) (individual : list Gene) : M (list Gene) :=
  let* u := random_random in
  if Qlt_bool u (cfg_mutation_prob self) then apply_strategy self individual
  else ret individual.

(* ===================================================================== *)
(** ** The evolution loop *)
(* ===================================================================== *)

(** One entry of [history].  The standard deviation that the source also
    stores is a square root and is left out of the rational model. *)
Record HistoryEntry := mkHistoryEntry {
  h_generation : nat;
  avg_fitness : Q;
  max_fitness : Q;
  min_fitness : Q
}.

(** The local variables of [evolve] that live across generations. *)
Record LoopState := mkLoopState {
  population : list Individual;
  hof : option Individual;
  history : list HistoryEntry
}.

(** The dictionary that [evolve] returns. *)
Record GAResult := mkGAResult {
  schedule : list Gene;
  best_fitness : Q;
  result_history : list HistoryEntry;
  config_used : Config
}.

(** [for ind, fit in zip(population, map(evaluate, population)):
       ind.fitness.values = fit] *)
Definition evaluate_population (self : ScheduleGA) (pop : list Individual)
    : result (list Individual) :=
  rmap (fun ind =>
          let+ fit := evaluate_fitness self (genes ind) in
          Return (mkIndividual (genes ind) (Some fit)))
       pop.

(** The fitness values that [stats.compile] reads; all are valid there. *)
Definition fitness_values (pop : list Individual) : list Q :=
  omap fitness pop.

(** [stats.compile(population)]: [np.max] of an empty array raises
    [ValueError]. *)
Definition stats_compile (gen : nat) (pop : list Individual) : result HistoryEntry :=
  match fitness_values pop with
  | [] => Raise ValueError
  | v :: vs =>
      Return (mkHistoryEntry gen
                (Qsum (v :: vs) / Qnat (length (v :: vs)))%Q
                (fold_left Qmax vs v)
                (fold_left (fun a b => if Qlt_bool b a then b else a) vs v))
  end.

(** [int(x)]: truncation towards zero. *)
Definition Qtrunc (x : Q) : Z :=
  if Qlt_bool x 0 then Qceiling x else Qfloor x.

(** [max(1, int(len(population) * self.config["elitism_rate"]))]: the
    product is a float product, rounded before [int] truncates it. *)
Definition elite_count (self : ScheduleGA) (pop : list Individual) : nat :=
  Z.to_nat (Z.max 1 (Qtrunc (round_double (Qnat (length pop) * cfg_elitism_rate self)))).

(** The crossover loop over [zip(offspring[::2], offspring[1::2])]. *)
Fixpoint crossover_pairs (self : ScheduleGA) (offspring : list Individual)
    : M (list Individual) :=
  match offspring with
  | child1 :: child2 :: rest =>
      let* u := random_random in
      let* children :=
        (if Qlt_bool u (cfg_crossover_prob self) then
           let* gs := cxTwoPoint (genes child1) (genes child2) in
           ret (mkIndividual (fst gs) None, mkIndividual (snd gs) None)
         else ret (child1, child2)) in
      let* rest' := crossover_pairs self rest in
      ret (fst children :: snd children :: rest')
  | _ => ret offspring
  end.

(** The mutation loop: [toolbox.mutate(mutant); del mutant.fitness.values]. *)
Definition mutate_all (self : ScheduleGA) (offspring : list Individual)
    : M (list Individual) :=
  mapM (fun mutant =>
          let* gs := mutate_schedule self (genes mutant) in
          ret (mkIndividual gs None))
       offspring.

(** One turn of the loop of [evolve].  The boolean tells whether the turn
    ended in [break].  The progress callback only reports and is left out;
    [toolbox.clone] is a deep copy, the identity on values.  [elites] are
    taken from the evaluated population before crossover and mutation
    touch the offspring. *)
Definition generation (self : ScheduleGA) (gen : nat) (st : LoopState)
    : M (LoopState * bool) :=
  let* pop := lift (evaluate_population self (population st)) in
  let* record := lift (stats_compile gen pop) in
  let hof' := hof_update (hof st) pop in
  let history' := (history st ++ [record])%list in
  if Qle_bool (1000 # 1) (max_fitness record) then
    ret (mkLoopState pop hof' history', true)
  else
    let* offspring := selTournament pop (length pop) (cfg_tournament_size self) in
    let elites := selBest pop (elite_count self pop) in
    let* offspring := crossover_pairs self offspring in
    let* offspring := mutate_all self offspring in
    ret (mkLoopState
           (firstn (length offspring - elite_count self pop) offspring ++ elites)%list
           hof' history',
         false).

(** [for gen in range(...)]: [n] turns are left, the next is number [gen]. *)
Fixpoint evolve_loop (self : ScheduleGA) (n : nat) (gen : nat) (st : LoopState)
    : M LoopState :=
  match n with
  | O => ret st
  | S n' =>
      let* step := generation self gen st in
      if snd step then ret (fst step)
      else evolve_loop self n' (S gen) (fst step)
  end.

(** The state in which [evolve] enters its loop. *)
Definition initial_state (pop : list Individual) : LoopState :=
  mkLoopState pop None [].

(** What follows the loop: [best = hof[0]] and the returned dictionary. *)
Definition finish (self : ScheduleGA) (st : LoopState) : result GAResult :=
  match hof st with
  | None => Raise IndexError
  | Some best =>
      match fitness best with
      | None => Raise IndexError
      | Some f => Return (mkGAResult (genes best) f (history st) (config self))
      end
  end.

(** [evolve] *)
Definition evolve (self : ScheduleGA) : M GAResult :=
  let* pop := toolbox_population self (cfg_population_size self) in
  let* st := evolve_loop self (Z.to_nat (cfg_generations self)) 0 (initial_state pop) in
  lift (finish self st).

(* ===================================================================== *)
(** ** [GeminiScheduler]: the round-robin fallback *)
(* ===================================================================== *)

(** [config.get(key, default) if config else default], where [config] may
    be [None]. *)
Definition config_get {A} (cfg : option Config) (field : Config -> option A)
    (dflt : A) : A :=
  match cfg with
  | Some c => get (field c) dflt
  | None => dflt
  end.

Definition fallback_days (cfg : option Config) : list string :=
  config_get cfg days ["Monday"; "Tuesday"; "Wednesday"; "Thursday"; "Friday"].
Definition fallback_time_slots (cfg : option Config) : list string :=
  config_get cfg time_slots
    ["09:00"; "10:00"; "11:00"; "12:00"; "14:00"; "15:00"; "16:00"].
Definition fallback_rooms (cfg : option Config) : list string :=
  config_get cfg rooms ["R101"; "R102"; "R103"; "R104"].

(** [seq[idx % len(seq)]]; the modulo raises [ZeroDivisionError] on an
    empty list. *)
Definition cyclic_get (seq : list string) (idx : nat) : result string :=
  match seq with
  | [] => Raise ZeroDivisionError
  | x :: _ => Return (nth (idx mod length seq) seq x)
  end.

(** The loop of [_generate_fallback_schedule] with its three counters. *)
Fixpoint fallback_loop (ds ts rs : list string) (ents : list Entity)
    (day_idx time_idx room_idx : nat) : result (list Gene) :=
  match ents with
  | [] => Return []
  | entity :: rest =>
      let+ d := cyclic_get ds day_idx in
      let+ t := cyclic_get ts time_idx in
      let+ r := cyclic_get rs room_idx in
      let gene := mkGene (e_id entity) None d t r (get (e_duration entity) 1%Z) in
      let room_idx := room_idx + 1 in
      let '(room_idx, time_idx) :=
        if length rs <=? room_idx then (0, time_idx + 1) else (room_idx, time_idx) in
      let '(time_idx, day_idx) :=
        if length ts <=? time_idx then (0, day_idx + 1) else (time_idx, day_idx) in
      let+ tail := fallback_loop ds ts rs rest day_idx time_idx room_idx in
      Return (gene :: tail)
  end.

(** [_generate_fallback_schedule] *)
Definition generate_fallback_schedule (ents : list Entity) (cfg : option Config)
    : result (list Gene) :=
  fallback_loop (fallback_days cfg) (fallback_time_slots cfg) (fallback_rooms cfg)
                ents 0 0 0.

(* ===================================================================== *)
(** ** [GeminiScheduler]: reading the advisor's answer *)
(* ===================================================================== *)

(** A decoded JSON value. *)
#[local] Unset Elimination Schemes.
Inductive Json :=
| JNull
| JBool (b : bool)
| JNumber (n : Z)
| JString (s : string)
| JArray (items : list Json)
| JObject (members : list (string * Json)).
#[local] Set Elimination Schemes.

(** A row of a returned schedule: a gene of the fallback scheduler or a
    row of the advisor's answer, kept as decoded. *)
Inductive Slot :=
| GeneSlot (g : Gene)
| AdvisorSlot (j : Json).

(** The [response.text] accessor: absent, raising, or a string. *)
Inductive ResponseText :=
| NoTextAttribute
| TextRaises
| Text (s : string).

(** What [self.model.generate_content(...)] does: raise, or answer with
    the finish reasons of its candidates and a text accessor. *)
Inductive AdvisorOutcome :=
| GenerateRaises
| Response (finish_reasons : list Z) (text : ResponseText).

(** [try: body except Exception: handler] *)
Definition try_except {A} (body : result A) (handler : exn -> result A) : result A :=
  match body with
  | Return a => Return a
  | Raise e => handler e
  end.

(** A Python string is held as the bytes of its UTF-8 encoding.  The
    characters with [str.isspace()], each as its encoding: U+0009 to U+000D,
    U+001C to U+0020, U+0085, U+00A0, U+1680, U+2000 to U+200A, U+2028,
    U+2029, U+202F, U+205F and U+3000. *)
Definition utf8 (codes : list nat) : string :=
  fold_right (fun n s => String (ascii_of_nat n) s) EmptyString codes.

Definition whitespace : list string :=
  map utf8
    [[9]; [10]; [11]; [12]; [13]; [28]; [29]; [30]; [31]; [32];
     [194; 133]; [194; 160]; [225; 154; 128];
     [226; 128; 128]; [226; 128; 129]; [226; 128; 130]; [226; 128; 131];
     [226; 128; 132]; [226; 128; 133]; [226; 128; 134]; [226; 128; 135];
     [226; 128; 136]; [226; 128; 137]; [226; 128; 138];
     [226; 128; 168]; [226; 128; 169]; [226; 128; 175];
     [226; 129; 159]; [227; 128; 128]].

(** Removes leading occurrences of the strings of [ws], at most [fuel]
    of them. *)
Fixpoint strip_prefixes (ws : list string) (fuel : nat) (s : string) : string :=
  match fuel with
  | O => s
  | S fuel' =>
      match List.find (fun w => String.prefix w s) ws with
      | Some w =>
          strip_prefixes ws fuel'
            (String.substring (String.length w) (String.length s - String.length w) s)
      | None => s
      end
  end.

Fixpoint string_rev (s : string) : string :=
  match s with
  | EmptyString => EmptyString
  | String c rest => string_rev rest ++ String c EmptyString
  end.

(** [s.lstrip()] and [s.rstrip()]: a string has no more white space in
    front than it has bytes. *)
Definition lstrip (s : string) : string :=
  strip_prefixes whitespace (String.length s) s.

Definition rstrip (s : string) : string :=
  string_rev (strip_prefixes (map string_rev whitespace) (String.length s)
                             (string_rev s)).

(** [s.strip()] *)
Definition strip (s : string) : string := rstrip (lstrip s).

(** [s.startswith(p)] *)
Definition startswith (s p : string) : bool := String.prefix p s.

(** [s.endswith(p)] *)
Definition endswith (s p : string) : bool :=
  (String.length p <=? String.length s)
  && String.eqb (String.substring (String.length s - String.length p)
                                  (String.length p) s) p.

(** [s.split('\n')] *)
Fixpoint split_lines (s : string) : list string :=
  match s with
  | EmptyString => [EmptyString]
  | String c rest =>
      if Ascii.eqb c "010"%char then EmptyString :: split_lines rest
      else match split_lines rest with
           | line :: lines => String c line :: lines
           | [] => [String c EmptyString]
           end
  end.

(** ['\n'.join(lines)] *)
Fixpoint join_lines (lines : list string) : string :=
  match lines with
  | [] => EmptyString
  | [l] => l
  | l :: ls => l ++ String "010"%char (join_lines ls)
  end.

(** [s.replace(old, new)] for a non-empty [old]; [skip] characters of a
    match just replaced are still to be passed over. *)
Fixpoint replace_from (old new : string) (skip : nat) (s : string) : string :=
  match s with
  | EmptyString => EmptyString
  | String c rest =>
      match skip with
      | S k => replace_from old new k rest
      | O => if String.prefix old s
             then new ++ replace_from old new (String.length old - 1) rest
             else String c (replace_from old new 0 rest)
      end
  end.

Definition replace (old new s : string) : string := replace_from old new 0 s.

(** [s.find(c)]: the first position of the character, if any. *)
Fixpoint find_char (c : ascii) (s : string) : option nat :=
  match s with
  | EmptyString => None
  | String x rest => if Ascii.eqb x c then Some 0
                     else option_map S (find_char c rest)
  end.

(** [s.rfind(c)]: the last position of the character, if any. *)
Fixpoint rfind_char (c : ascii) (s : string) : option nat :=
  match s with
  | EmptyString => None
  | String x rest =>
      match rfind_char c rest with
      | Some i => Some (S i)
      | None => if Ascii.eqb x c then Some 0 else None
      end
  end.

(** [sub in s] on strings. *)
Fixpoint contains (sub s : string) : bool :=
  String.prefix sub s
  || match s with
     | EmptyString => false
     | String _ rest => contains sub rest
     end.

(** The text handed to [json.loads]: fences removed, then the span from the
    first ['['] to the last [']']; [None] when [start >= 0 and end > start]
    fails.  Positions count bytes where Python counts characters; the order
    of two positions and the text between them are the same either way,
    since no byte of a longer UTF-8 sequence is an ASCII character. *)
Definition json_span (response_text : string) : option string :=
  let text := strip response_text in
  let text :=
    if startswith text "```" && endswith text "```" then
      let lines := split_lines text in
      join_lines (firstn (length lines - 2) (skipn 1 lines))
    else text in
  let text := replace "```" "" (replace "```json" "" text) in
  match find_char "["%char text with
  | None => None
  | Some start =>
      let stop := match rfind_char "]"%char text with Some i => i + 1 | None => 0 end in
      if start <? stop then Some (String.substring start (stop - start) text)
      else None
  end.

(** ['entity_id' in slot] on a decoded row; [TypeError] on a row that is
    no container. *)
Definition has_entity_id (slot : Json) : result bool :=
  match slot with
  | JObject members => Return (existsb (fun kv => String.eqb (fst kv) "entity_id") members)
  | JString s => Return (contains "entity_id" s)
  | JArray items =>
      Return (existsb (fun j => match j with
                                | JString s => String.eqb s "entity_id"
                                | _ => false
                                end) items)
  | JNull | JBool _ | JNumber _ => Raise TypeError
  end.

(** The validation loop of [parse_response]. *)
Fixpoint validate_rows (rows : list Json) : result (list Json) :=
  match rows with
  | [] => Return []
  | slot :: rest =>
      let+ keep := has_entity_id slot in
      let+ valid := validate_rows rest in
      Return (if keep then slot :: valid else valid)
  end.

Section Advisor.

(** [json.loads] on a text that starts with ['[']: the decoded array or
    an exception.  The decoder is the standard library's, not this
    repository's. *)
Variable json_loads : string -> result (list Json).

(** [parse_response] *)
Definition parse_response (response_text : string) (ents : list Entity)
    (cfg : option Config) : result (list Slot) :=
  let fallback := rbind (generate_fallback_schedule ents cfg)
                        (fun gs => Return (map GeneSlot gs)) in
  try_except
    (match json_span response_text with
     | Some json_str =>
         let+ rows := json_loads json_str in
         let+ valid_schedule := validate_rows rows in
         match valid_schedule with
         | [] => fallback
         | _ => Return (map AdvisorSlot valid_schedule)
         end
     | None => fallback
     end)
    (fun _ => fallback).

(** [generate_schedule_suggestions], from the answer of
    [self.model.generate_content] on.  The prompt built before the call
    only decides what the external service answers, which [outcome]
    stands for. *)
Definition generate_schedule_suggestions (outcome : AdvisorOutcome)
    (ents : list Entity) (cfg : option Config) : result (list Slot) :=
  let fallback := rbind (generate_fallback_schedule ents cfg)
                        (fun gs => Return (map GeneSlot gs)) in
  try_except
    (match outcome with
     | GenerateRaises => Raise AdvisorError
     | Response [] _ => fallback
     | Response (finish_reason :: _) text =>
         if (finish_reason =? 2)%Z then fallback
         else if (finish_reason =? 3)%Z then fallback
         else if negb ((finish_reason =? 0)%Z || (finish_reason =? 1)%Z) then fallback
         else match text with
              | Text (String c s) => parse_response (String c s) ents cfg
              | Text EmptyString => fallback
              | NoTextAttribute => fallback
              | TextRaises => Raise ValueError
              end
     end)
    (fun _ => fallback).

(** The dictionary that [HybridOptimizer.optimize] returns; the keys
    that a method does not set are [None]. *)
Record OptimizationResult := mkOptimizationResult {
  o_schedule : list Slot;
  o_method : string;
  o_fitness : option Q;
  o_history : list HistoryEntry;
  o_config_used : option Config;
  o_gemini_seed : option bool
}.

(** The attributes of a [HybridOptimizer]: [self.config = config or {}]. *)
Record HybridOptimizer := mkHybridOptimizer {
  ho_entities : list Entity;
  ho_constraints : list Constraint;
  ho_config : Config
}.

(** [optimize_with_gemini]; [outcome] is what the advisor does when it
    is called.  [schedule or []] is the schedule itself; the progress
    callbacks and the sleeps are left out. *)
Definition optimize_with_gemini (self : HybridOptimizer) (outcome : AdvisorOutcome)
    : result OptimizationResult :=
  let+ sched :=
    try_except
      (generate_schedule_suggestions outcome (ho_entities self) (Some (ho_config self)))
      (fun _ => rbind (generate_fallback_schedule (ho_entities self)
                                                  (Some (ho_config self)))
                      (fun gs => Return (map GeneSlot gs))) in
  Return (mkOptimizationResult sched "gemini" None [] None None).

(** [optimize_with_ga] *)
Definition optimize_with_ga (self : HybridOptimizer) : M OptimizationResult :=
  let ga := ScheduleGA_init (ho_entities self) (ho_constraints self)
                            (Some (ho_config self)) in
  let* res := evolve ga in
  ret (mkOptimizationResult (map GeneSlot (schedule res)) "genetic"
         (Some (best_fitness res)) (result_history res)
         (Some (config_used res)) None).

(** [optimize_hybrid]: the advisor is asked about the first 30 entities
    only to learn [has_seed] (kept as its truth value); the bare [except]
    swallows its failure. *)
Definition optimize_hybrid (self : HybridOptimizer) (outcome : AdvisorOutcome)
    : M OptimizationResult :=
  let has_seed :=
    match generate_schedule_suggestions outcome (firstn 30 (ho_entities self))
                                        (Some (ho_config self)) with
    | Return gemini_solution => negb (Nat.eqb (length gemini_solution) 0)
    | Raise _ => false
    end in
  let ga := ScheduleGA_init (ho_entities self) (ho_constraints self)
                            (Some (ho_config self)) in
  let* res := evolve ga in
  ret (mkOptimizationResult (map GeneSlot (schedule res)) "hybrid"
         (Some (best_fitness res)) (result_history res)
         (Some (config_used res)) (Some has_seed)).

(** [HybridOptimizer.optimize] *)
Definition optimize (self : HybridOptimizer) (method : string)
    (outcome : AdvisorOutcome) : M OptimizationResult :=
  if String.eqb method "gemini" then lift (optimize_with_gemini self outcome)
  else if String.eqb method "genetic" then optimize_with_ga self
  else if String.eqb method "hybrid" then optimize_hybrid self outcome
  else raise ValueError.

End Advisor.

(* ===================================================================== *)
(** ** Predicates used in the statements *)
(* ===================================================================== *)

(** Every individual of a population has genes satisfying [P]. *)
Definition pop_ok (P : list Gene -> Prop) (pop : list Individual) : Prop :=
  Forall (fun ind => P (genes ind)) pop.

(** The population and the hall of fame of a loop state satisfy [P]. *)
Definition state_ok (P : list Gene -> Prop) (st : LoopState) : Prop :=
  pop_ok P (population st) /\ forall h, hof st = Some h -> P (genes h).

(** Genome length equals the number of entities. *)
Definition full_length (ents : list Entity) (gs : list Gene) : Prop :=
  length gs = length ents.

(** Position [i] of the genome holds the id of entity [i]. *)
Definition positional (ents : list Entity) (gs : list Gene) : Prop :=
  map entity_id gs = map e_id ents.

(** The hall of fame [h'] is [h] itself or strictly better than [h]; an
    empty hall may become anything. *)
Definition hof_better (h h' : option Individual) : Prop :=
  match h with
  | None => True
  | Some a =>
      exists b, h' = Some b /\ (b = a \/ fitness_gt (fitness b) (fitness a) = true)
  end.

(** The entry of a hall of fame carries a valid fitness. *)
Definition hof_valid (h : option Individual) : Prop :=
  forall a, h = Some a -> exists f, fitness a = Some f.

(** A tape given by its first draws; all later draws are 0. *)
Definition tape_of (draws : list Z) : nat -> Z := fun n => nth n draws 0%Z.

(** The largest raw draw: [random.random()] is then just below 1. *)
Definition HI : Z := 9007199254740991.

(** A run on two entities in which swap mutation followed by crossover
    leaves the schedule with entity [e2] twice and [e1] nowhere. *)
Definition two_entities : list Entity :=
  [mkEntity "e1" None None None; mkEntity "e2" None None None].

Definition one_room_config : Config :=
  mkConfig (Some 2%Z) None None None None None None None None None None None None
           None None (Some ["Mon"]) (Some ["9"; "10"]) (Some ["R1"]) None.

Definition one_room_ga : ScheduleGA :=
  ScheduleGA_init two_entities [mkConstraint "no_overlap" None [] []]
                  (Some one_room_config).

(** Draws: two individuals (both entities at 9, both at 10); generation 0:
    tournaments pick the second then the first, no crossover, the first
    offspring is swap-mutated; generation 1: tournaments pick the first then
    the second, crossover fires with cut points 1 and 2, no mutation. *)
Definition one_room_tape : nat -> Z :=
  tape_of [0;0;0; 0;0;0;  0;1;0; 0;1;0;
           1;1;1; 0;0;0;  HI;  0;0;0;  HI;
           0;0;0; 1;1;1;  0;0;0;  HI; HI]%Z.

(** The population with which the run on [one_room_tape] enters the loop. *)
Definition one_room_population : list Individual :=
  [mkIndividual [mkGene "e1" (Some "e1") "Mon" "9" "R1" 2;
                 mkGene "e2" (Some "e2") "Mon" "9" "R1" 2] None;
   mkIndividual [mkGene "e1" (Some "e1") "Mon" "10" "R1" 2;
                 mkGene "e2" (Some "e2") "Mon" "10" "R1" 2] None].

(** Two entities, a population of two, and [generations = 0]. *)
Definition no_generation_ga : ScheduleGA :=
  ScheduleGA_init two_entities []
    (Some (mkConfig (Some 2%Z) (Some 0%Z) None None None None None None None None
                    None None None None None None None None None)).

(** A genome of two genes in different time slots. *)
Definition two_slot_genome : list Gene :=
  [mkGene "e1" (Some "Algebra") "Mon" "9" "R1" 1;
   mkGene "e2" (Some "Physics") "Mon" "10" "R1" 3].

(** The gene that [create_individual] builds for [entity] when the next
    three draws are those at positions [c], [c + 1], [c + 2] of the tape. *)
Definition drawn_gene (self : ScheduleGA) (tp : nat -> Z) (c : nat) (entity : Entity)
    : Gene :=
  let pick (seq : list string) (d : Z) :=
    nth (Z.to_nat (d mod Z.of_nat (length seq))) seq "" in
  mkGene (e_id entity) (Some (get (e_name entity) (e_id entity)))
         (pick (self_days self) (tp c))
         (pick (self_time_slots self) (tp (c + 1)))
         (pick (self_rooms self) (tp (c + 2)))
         (get (e_duration entity) 2%Z).

Fixpoint drawn_genes (self : ScheduleGA) (tp : nat -> Z) (c : nat) (ents : list Entity)
    : list Gene :=
  match ents with
  | [] => []
  | entity :: rest => drawn_gene self tp c entity :: drawn_genes self tp (c + 3) rest
  end.

(** The slot that a room-fastest odometer over [ds], [ts], [rs] reaches at
    step [p]. *)
Definition slot_triple_at (ds ts rs : list string) (p : nat)
    : string * string * string :=
  (nth ((p / (length rs * length ts)) mod length ds) ds "",
   nth ((p / length rs) mod length ts) ts "",
   nth (p mod length rs) rs "").

(** The genes of the fallback scheduler, entity [k] at odometer step
    [p + k]. *)
Fixpoint fallback_genes (ds ts rs : list string) (ents : list Entity) (p : nat)
    : list Gene :=
  match ents with
  | [] => []
  | entity :: rest =>
      let slot := slot_triple_at ds ts rs p in
      mkGene (e_id entity) None (fst (fst slot)) (snd (fst slot)) (snd slot)
             (get (e_duration entity) 1%Z)
      :: fallback_genes ds ts rs rest (S p)
  end.

(** Five entities on a grid of one day, two times and two rooms. *)
Definition five_entities : list Entity :=
  map (fun s => mkEntity s None None None) ["a"; "b"; "c"; "d"; "e"].

Definition small_grid : Config :=
  mkConfig None None None None None None None None None None None None None
           None None (Some ["Mon"]) (Some ["9"; "10"]) (Some ["R1"; "R2"]) None.

(** An answer text from which [parse_response] gets no row: it holds no
    [[...]] span, the decoder raises, the validation raises, or no row
    passes the validation. *)
Inductive text_unusable (json_loads : string -> result (list Json))
    : string -> Prop :=
| unusable_no_array s :
    json_span s = None -> text_unusable json_loads s
| unusable_decode s json_str e :
    json_span s = Some json_str -> json_loads json_str = Raise e ->
    text_unusable json_loads s
| unusable_validation s json_str rows e :
    json_span s = Some json_str -> json_loads json_str = Return rows ->
    validate_rows rows = Raise e ->
    text_unusable json_loads s
| unusable_no_valid_row s json_str rows :
    json_span s = Some json_str -> json_loads json_str = Return rows ->
    validate_rows rows = Return [] ->
    text_unusable json_loads s.

(** The ways in which the advisor fails: the call raises; the answer has no
    candidates (blocked); the first candidate's finish reason is neither 0
    nor 1 (safety, recitation, other); the text is absent, raises, is empty
    or is unusable. *)
Inductive advisor_fails (json_loads : string -> result (list Json))
    : AdvisorOutcome -> Prop :=
| fails_call : advisor_fails json_loads GenerateRaises
| fails_blocked text : advisor_fails json_loads (Response [] text)
| fails_finish_reason fr rest text :
    fr <> 0%Z -> fr <> 1%Z ->
    advisor_fails json_loads (Response (fr :: rest) text)
| fails_no_text frs : advisor_fails json_loads (Response frs NoTextAttribute)
| fails_text_raises frs : advisor_fails json_loads (Response frs TextRaises)
| fails_empty_text frs : advisor_fails json_loads (Response frs (Text ""))
| fails_text frs s :
    text_unusable json_loads s ->
    advisor_fails json_loads (Response frs (Text s)).

(** A decoder that rejects every text, and one that accepts every text as
    a single row for entity [a]. *)
Definition rejecting_decoder (s : string) : result (list Json) :=
  Raise JSONDecodeError.

Definition one_row_decoder (s : string) : result (list Json) :=
  Return [JObject [("entity_id", JString "a"); ("day", JString "Mon")]].

Definition small_grid_optimizer : HybridOptimizer :=
  mkHybridOptimizer five_entities [] small_grid.

(** A configuration whose [days] list is empty. *)
Definition no_days : Config :=
  mkConfig (Some 2%Z) None None None None None None None None None None None None
           None None (Some []) (Some ["9"; "10"]) (Some ["R1"]) None.

(** Three genes in one and the same slot. *)
Definition three_in_one_slot : list Gene :=
  [ mkGene "e1" (Some "Algebra") "Monday" "09:00" "R101" 1;
    mkGene "e2" (Some "Physics") "Monday" "09:00" "R101" 2;
    mkGene "e3" None "Monday" "09:00" "R101" 1 ].

(** A configured capacity map and a configuration that carries it. *)
Definition lecture_halls : gmap string Z :=
  <["H1" := 120%Z]> (<["H2" := 45%Z]> ∅).

Definition cfg_with_halls : Config :=
  mkConfig None None None None None None None None None None None None None
           None None None None None (Some lecture_halls).


(* ===================================================================== *)
(** ** Notions used in the further properties *)
(* ===================================================================== *)

(** The number of genes of an individual on day [d]. *)
Definition day_count (individual : list Gene) (d : string) : nat :=
  length (List.filter (fun s => String.eqb d (day s)) individual).

(** The constraint types that the second loop of [evaluate_fitness] acts on. *)
Definition is_soft_type (c : Constraint) : bool :=
  String.eqb (c_type c) "preferred_time"
  || String.eqb (c_type c) "balanced_distribution"
  || String.eqb (c_type c) "consecutive_slots"
  || String.eqb (c_type c) "minimize_gaps".

(** A gene whose day, time and room are taken from the lists of [self]. *)
Definition gene_in_grid (self : ScheduleGA) (g : Gene) : Prop :=
  In (day g) (self_days self) /\ In (time_ g) (self_time_slots self)
  /\ In (room g) (self_rooms self).

(** A genome all of whose genes lie in the grid of [self]. *)
Definition in_grid (self : ScheduleGA) (gs : list Gene) : Prop :=
  Forall (gene_in_grid self) gs.

(** A configuration with hard constraints only. *)
Definition hard_only_ga : ScheduleGA :=
  ScheduleGA_init two_entities
    [mkConstraint "no_overlap" None [] [];
     mkConstraint "room_capacity" None [] [];
     mkConstraint "availability" (Some "e1") ["Mon_9"] []]
    (Some one_room_config).

(** A configuration with every kind of constraint. *)
Definition all_constraints_ga : ScheduleGA :=
  ScheduleGA_init two_entities
    [mkConstraint "no_overlap" None [] [];
     mkConstraint "room_capacity" None [] [];
     mkConstraint "availability" (Some "e1") ["Mon_9"] [];
     mkConstraint "preferred_time" (Some "e2") [] ["Mon_10"];
     mkConstraint "balanced_distribution" None [] [];
     mkConstraint "consecutive_slots" (Some "e1") [] [];
     mkConstraint "minimize_gaps" None [] []]
    (Some one_room_config).

(** All numbers of a list are the same. *)
Definition all_equal (l : list nat) : Prop :=
  forall x y, In x l -> In y l -> x = y.

(** The genes [old] and [new] differ at most in the day, which comes from
    the list [ds]; likewise below for the time and for the room. *)
Definition only_day_changed (ds : list string) (old new : Gene) : Prop :=
  new = set_day old (day new) /\ In (day new) ds.
Definition only_time_changed (ts : list string) (old new : Gene) : Prop :=
  new = set_time old (time_ new) /\ In (time_ new) ts.
Definition only_room_changed (rs : list string) (old new : Gene) : Prop :=
  new = set_room old (room new) /\ In (room new) rs.

(** A [ScheduleGA] with the [shift] strategy, and one with [random]. *)
Definition shift_ga : ScheduleGA :=
  ScheduleGA_init two_entities []
    (Some (mkConfig (Some 2%Z) None None None None None None None None None None
                    None None None (Some "shift")
                    (Some ["Mon"; "Tue"]) (Some ["9"; "10"]) (Some ["R1"; "R2"]) None)).

Definition random_ga : ScheduleGA :=
  ScheduleGA_init two_entities []
    (Some (mkConfig (Some 2%Z) None None None None None None None None None None
                    None None None (Some "random")
                    (Some ["Mon"; "Tue"]) (Some ["9"; "10"]) (Some ["R1"; "R2"]) None)).

(** The fitness attached to [ind] is the evaluator's score of its genes. *)
Definition evaluated (self : ScheduleGA) (ind : Individual) : Prop :=
  exists f, fitness ind = Some f /\ evaluate_fitness self (genes ind) = Return f.

(** The population holds an evaluated individual of fitness at least [m]. *)
Definition carries (self : ScheduleGA) (pop : list Individual) (m : Q) : Prop :=
  exists e f, In e pop /\ fitness e = Some f
              /\ evaluate_fitness self (genes e) = Return f /\ (m <= f)%Q.

(** The hall of fame agrees with the history: its entry is evaluated, no
    recorded maximum exceeds its fitness, and one recorded maximum equals
    it; before the first generation both are empty. *)
Definition hof_tracks_history (self : ScheduleGA) (st : LoopState) : Prop :=
  (history st = [] /\ hof st = None)
  \/ exists best f,
       hof st = Some best /\ fitness best = Some f
       /\ evaluate_fitness self (genes best) = Return f
       /\ (forall h, In h (history st) -> (max_fitness h <= f)%Q)
       /\ (exists h, In h (history st) /\ (max_fitness h == f)%Q).

(** A gene that lies in the grid of [self] and belongs to one of its
    entities. *)
Definition gene_ok (self : ScheduleGA) (g : Gene) : Prop :=
  gene_in_grid self g /\ In (entity_id g) (map e_id (entities self)).

Definition genes_ok (self : ScheduleGA) (gs : list Gene) : Prop :=
  Forall (gene_ok self) gs.

(** A decoded row on which ['entity_id' in slot] can be asked: an object,
    an array or a string. *)
Definition is_container (slot : Json) : bool :=
  match slot with
  | JObject _ | JArray _ | JString _ => true
  | JNull | JBool _ | JNumber _ => false
  end.

(** A row that passes the validation of [parse_response]. *)
Definition names_entity_id (slot : Json) : bool :=
  match has_entity_id slot with
  | Return keep => keep
  | Raise _ => false
  end.

(** A decoder whose answer holds a row for an entity that does not exist,
    a row without an entity and a bare string; and one whose answer holds
    a number among its rows. *)
Definition mixed_rows_decoder (s : string) : result (list Json) :=
  Return [JObject [("entity_id", JString "nobody"); ("day", JString "Mon")];
          JObject [("day", JString "Tue")];
          JString "entity_id: a"].

Definition number_row_decoder (s : string) : result (list Json) :=
  Return [JObject [("entity_id", JString "a"); ("day", JString "Mon")];
          JNumber 7].

(** The optimizer whose genetic run is that of [one_room_ga]. *)
Definition one_room_optimizer : HybridOptimizer :=
  mkHybridOptimizer two_entities [mkConstraint "no_overlap" None [] []] one_room_config.







(** A configuration as the optimiser page builds it when no room has been
    entered: days and time slots, and an empty list of rooms. *)
Definition no_rooms : Config :=
  mkConfig None None None None None None None None None None None None None
           None None (Some ["Mon"; "Tue"]) (Some ["9"; "10"]) (Some []) (Some ∅).

Definition no_rooms_optimizer : HybridOptimizer :=
  mkHybridOptimizer two_entities [mkConstraint "no_overlap" None [] []] no_rooms.

(** Two genes at one day and time in different rooms. *)
Definition two_rooms_one_time : list Gene :=
  [ mkGene "e1" (Some "Algebra") "Monday" "09:00" "R101" 1;
    mkGene "e2" (Some "Physics") "Monday" "09:00" "R102" 2 ].

(* ===================================================================== *)
(** * Properties *)
(* ===================================================================== *)

(** ** The overlap checker *)

Lemma count_conflicts_spec (slot1 : Gene) (rest : list Gene) (conflicts : nat) :
  count_conflicts slot1 rest conflicts
  = conflicts + length (List.filter (same_slot slot1) rest).
Proof.
  revert conflicts. induction rest as [|slot2 rest IH]; intros conflicts; simpl.
  - lia.
  - rewrite IH. destruct (same_slot slot1 slot2); simpl; lia.
Qed.

Lemma check_overlaps_from_spec (individual : list Gene) (conflicts : nat) :
  check_overlaps_from individual conflicts = conflicts + check_overlaps individual.
Proof.
  unfold check_overlaps. revert conflicts.
  induction individual as [|slot1 rest IH]; intros conflicts; simpl.
  - lia.
  - rewrite IH, (IH (count_conflicts _ _ 0)), !count_conflicts_spec. lia.
Qed.

Lemma check_overlaps_cons (slot1 : Gene) (rest : list Gene) :
  check_overlaps (slot1 :: rest)
  = length (List.filter (same_slot slot1) rest) + check_overlaps rest.
Proof.
  unfold check_overlaps at 1. simpl.
  rewrite check_overlaps_from_spec, count_conflicts_spec. lia.
Qed.

Lemma pairs_lt_succ (n : nat) :
  pairs_lt (S n)
  = (map (pair 0) (seq 1 n)
     ++ map (fun p => (S (fst p), S (snd p))) (pairs_lt n))%list.
Proof.
  unfold pairs_lt. rewrite <- cons_seq. simpl flat_map.
  rewrite Nat.sub_0_r. f_equal.
  rewrite <- seq_shift, flat_map_concat_map, map_map.
  rewrite flat_map_concat_map, concat_map, map_map.
  f_equal. apply map_ext. intros i.
  rewrite map_map. simpl.
  rewrite <- seq_shift, map_map. reflexivity.
Qed.

Lemma pairs_lt_In (n i j : nat) :
  In (i, j) (pairs_lt n) <-> i < j < n.
Proof.
  unfold pairs_lt. rewrite in_flat_map. split.
  - intros (k & Hk & Hin). apply in_map_iff in Hin.
    destruct Hin as (x & Heq & Hx). inversion Heq; subst.
    apply in_seq in Hk. apply in_seq in Hx. lia.
  - intros H. exists i. split.
    + apply in_seq. lia.
    + apply in_map_iff. exists j. split; [reflexivity|]. apply in_seq. lia.
Qed.

Lemma pairs_lt_NoDup (n : nat) : List.NoDup (pairs_lt n).
Proof.
  induction n as [|n IH]; [constructor|].
  rewrite pairs_lt_succ. apply List.NoDup_app.
  - apply Finite.Injective_map_NoDup; [|apply List.seq_NoDup].
    intros x y H. congruence.
  - apply Finite.Injective_map_NoDup; [|exact IH].
    intros [a b] [c d] H. simpl in H. congruence.
  - intros [a b] Ha Hb. apply in_map_iff in Ha as (x & Hx & _).
    apply in_map_iff in Hb as ([c d] & Hy & _). simpl in Hy. congruence.
Qed.

Lemma filter_map_length {A B} (f : B -> bool) (g : A -> B) (l : list A) :
  length (List.filter f (map g l)) = length (List.filter (fun x => f (g x)) l).
Proof.
  induction l as [|x l IH]; simpl; [reflexivity|].
  destruct (f (g x)); simpl; rewrite IH; reflexivity.
Qed.

Lemma filter_ext_length {A} (f g : A -> bool) (l : list A) :
  (forall x, In x l -> f x = g x) ->
  length (List.filter f l) = length (List.filter g l).
Proof.
  induction l as [|x l IH]; simpl; intros H; [reflexivity|].
  rewrite (H x) by auto. destruct (g x); simpl; rewrite IH; auto.
Qed.

Lemma filter_nth_seq (f : Gene -> bool) (l : list Gene) (k : nat) (pre : list Gene) :
  length pre = k ->
  length (List.filter (fun j => match nth_error (pre ++ l) j with
                                | Some b => f b
                                | None => false
                                end) (seq k (length l)))
  = length (List.filter f l).
Proof.
  revert k pre. induction l as [|x l IH]; intros k pre Hk; simpl; [reflexivity|].
  assert (Hx : nth_error (pre ++ x :: l) k = Some x).
  { rewrite nth_error_app2 by lia. subst k. rewrite Nat.sub_diag. reflexivity. }
  rewrite Hx.
  specialize (IH (S k) (pre ++ [x])%list).
  rewrite <- app_assoc in IH. simpl in IH.
  destruct (f x); simpl; rewrite IH; try reflexivity;
    rewrite length_app; simpl; lia.
Qed.

Lemma same_slot_triple (a b : Gene) : same_slot a b = true <-> triple a = triple b.
Proof.
  unfold same_slot, triple. rewrite !andb_true_iff, !String.eqb_eq.
  split; [intros [[-> ->] ->]; reflexivity | intros H; inversion H; auto].
Qed.

Lemma same_slot_decide (a b : Gene) :
  same_slot a b = bool_decide (triple a = triple b).
Proof.
  destruct (same_slot a b) eqn:E.
  - symmetry. apply bool_decide_eq_true. apply same_slot_triple. exact E.
  - symmetry. apply bool_decide_eq_false. intros H.
    apply same_slot_triple in H. congruence.
Qed.

Lemma sharing_pairs_cons (slot1 : Gene) (rest : list Gene) :
  length (sharing_pairs (slot1 :: rest))
  = length (List.filter (same_slot slot1) rest) + length (sharing_pairs rest).
Proof.
  unfold sharing_pairs. simpl length. rewrite pairs_lt_succ.
  rewrite List.filter_app, length_app, !filter_map_length. simpl.
  f_equal.
  rewrite (filter_ext_length (same_slot slot1)
             (fun b => bool_decide (triple slot1 = triple b)))
    by (intros b _; apply same_slot_decide).
  apply (filter_nth_seq (fun b => bool_decide (triple slot1 = triple b)) rest 1 [slot1]).
  reflexivity.
Qed.

Lemma sharing_pairs_In (individual : list Gene) (i j : nat) :
  In (i, j) (sharing_pairs individual)
  <-> i < j < length individual /\ shares_slot individual (i, j).
Proof.
  unfold sharing_pairs, shares_slot. rewrite List.filter_In, pairs_lt_In. simpl.
  split.
  - intros [Hlt H].
    destruct (nth_error individual i) as [a|]; [|discriminate].
    destruct (nth_error individual j) as [b|]; [|discriminate].
    apply bool_decide_eq_true in H. split; [exact Hlt|]. exists a, b. auto.
  - intros [Hlt (a & b & -> & -> & H)]. split; [exact Hlt|].
    apply bool_decide_eq_true. exact H.
Qed.

Lemma choose2_succ (n : nat) : choose2 (S n) = n + choose2 n.
Proof.
  unfold choose2. destruct n as [|n]; [reflexivity|].
  replace (S (S n) - 1) with (S n) by lia.
  replace (S n - 1) with n by lia.
  replace (S (S n) * S n) with (S n * 2 + S n * n) by lia.
  rewrite Nat.div_add_l by lia. reflexivity.
Qed.

(** C4.  [check_overlaps] counts the unordered pairs of assignments that
    share (day, time, room): its result is the number of position pairs
    [i < j] whose genes have equal triples, each such pair counted once and
    no other pair counted; on an individual whose genes all share one
    triple it reports C(k, 2), k being the number of genes. *)
Theorem check_overlaps_counts_sharing_pairs (individual : list Gene) :
  check_overlaps individual = length (sharing_pairs individual)
  /\ List.NoDup (sharing_pairs individual)
  /\ (forall i j,
        In (i, j) (sharing_pairs individual)
        <-> i < j < length individual /\ shares_slot individual (i, j))
  /\ (forall d t r,
        Forall (fun g => triple g = (d, t, r)) individual ->
        check_overlaps individual = choose2 (length individual)).
Proof.
  split; [|split; [|split]].
  - induction individual as [|slot1 rest IH]; [reflexivity|].
    rewrite check_overlaps_cons, sharing_pairs_cons, IH. reflexivity.
  - unfold sharing_pairs. apply List.NoDup_filter. apply pairs_lt_NoDup.
  - apply sharing_pairs_In.
  - intros d t r Hall.
    induction Hall as [|slot1 rest H1 Hrest IH]; [reflexivity|].
    rewrite check_overlaps_cons, IH. simpl length. rewrite choose2_succ.
    f_equal.
    rewrite (filter_ext_length _ (fun _ => true)).
    + clear. induction rest; simpl; auto.
    + intros x Hx. apply same_slot_triple.
      rewrite List.Forall_forall in Hrest. rewrite H1, (Hrest x Hx). reflexivity.
Qed.

Lemma check_overlaps_three_in_one_slot :
  check_overlaps three_in_one_slot = 3
  /\ check_overlaps two_rooms_one_time = 0
  /\ ~ shares_slot two_rooms_one_time (0, 1).
Proof.
  split; [|split].
  - exact (proj2 (proj2 (proj2 (check_overlaps_counts_sharing_pairs three_in_one_slot)))
                 "Monday" "09:00" "R101" ltac:(repeat constructor)).
  - rewrite (proj1 (check_overlaps_counts_sharing_pairs two_rooms_one_time)).
    vm_compute. reflexivity.
  - intros H.
    assert (Hin : In (0, 1) (sharing_pairs two_rooms_one_time)).
    { apply (proj1 (proj2 (proj2 (check_overlaps_counts_sharing_pairs
                                    two_rooms_one_time)))).
      split; [simpl; lia | exact H]. }
    vm_compute in Hin. exact Hin.
Defined.

(** ** Room capacities *)

Lemma check_room_capacity_spec (ents : list Entity) (cfg : Config) (individual : list Gene) :
  check_room_capacity ents cfg individual
  = length (List.filter
              (fun slot =>
                 match find_entity ents (entity_id slot) with
                 | Some entity =>
                     (get_room_capacity cfg (room slot)
                      <? get (e_capacity_needed entity) 0)%Z
                 | None => false
                 end)
              individual).
Proof.
  induction individual as [|slot rest IH]; simpl; [reflexivity|].
  rewrite IH. destruct (find_entity ents (entity_id slot)) as [entity|]; simpl;
    [destruct (_ <? _)%Z|]; reflexivity.
Qed.

(** C9, with the unconfigured case as the code has it.  The capacity of a
    room is the value of the configured map, 30 when the configured map
    lacks the room, and, when no map is configured, the value of the
    built-in table (R101 30, R102 50, R103 100, R104 40, R105 60) or 30
    for a room outside that table; [check_room_capacity] counts the genes
    whose entity needs more than that capacity. *)
Theorem get_room_capacity_lookup (cfg : Config) (room_name : string) :
  (forall m c, room_capacities cfg = Some m -> m !! room_name = Some c ->
               get_room_capacity cfg room_name = c)
  /\ (forall m, room_capacities cfg = Some m -> m !! room_name = None ->
                get_room_capacity cfg room_name = 30%Z)
  /\ (room_capacities cfg = None ->
      get_room_capacity cfg room_name
      = if String.eqb room_name "R101" then 30%Z
        else if String.eqb room_name "R102" then 50%Z
        else if String.eqb room_name "R103" then 100%Z
        else if String.eqb room_name "R104" then 40%Z
        else if String.eqb room_name "R105" then 60%Z
        else 30%Z)
  /\ (forall ents slot entity,
        find_entity ents (entity_id slot) = Some entity ->
        room slot = room_name ->
        check_room_capacity ents cfg [slot]
        = if (get_room_capacity cfg room_name <? get (e_capacity_needed entity) 0)%Z
          then 1 else 0).
Proof.
  unfold get_room_capacity. repeat split.
  - intros m c -> Hc. simpl. rewrite Hc. reflexivity.
  - intros m -> Hc. simpl. rewrite Hc. reflexivity.
  - intros ->. simpl. unfold default_room_capacities.
    destruct (String.eqb_spec room_name "R101") as [->|N1]; [reflexivity|].
    destruct (String.eqb_spec room_name "R102") as [->|N2]; [reflexivity|].
    destruct (String.eqb_spec room_name "R103") as [->|N3]; [reflexivity|].
    destruct (String.eqb_spec room_name "R104") as [->|N4]; [reflexivity|].
    destruct (String.eqb_spec room_name "R105") as [->|N5]; [reflexivity|].
    rewrite !lookup_insert_ne by congruence.
    rewrite lookup_empty. reflexivity.
  - intros ents slot entity Hfind <-. simpl. rewrite Hfind.
    unfold get_room_capacity. destruct (_ <? _)%Z; reflexivity.
Qed.

Lemma get_room_capacity_lookup_witness :
  get_room_capacity cfg_with_halls "H2" = 45%Z
  /\ get_room_capacity cfg_with_halls "R102" = 30%Z
  /\ get_room_capacity empty_config "R103" = 100%Z
  /\ check_room_capacity [mkEntity "e1" None None (Some 50%Z)] cfg_with_halls
       [mkGene "e1" None "Monday" "09:00" "H2" 1] = 1.
Proof.
  split; [|split; [|split]].
  - apply (proj1 (get_room_capacity_lookup cfg_with_halls "H2") lecture_halls);
      vm_compute; reflexivity.
  - apply (proj1 (proj2 (get_room_capacity_lookup cfg_with_halls "R102")) lecture_halls);
      vm_compute; reflexivity.
  - apply (proj1 (proj2 (proj2 (get_room_capacity_lookup empty_config "R103"))));
      reflexivity.
  - apply (proj2 (proj2 (proj2 (get_room_capacity_lookup cfg_with_halls "H2")))
             _ _ (mkEntity "e1" None None (Some 50%Z))); reflexivity.
Defined.

(** C9 as worded fails: with no [room_capacities] configured, room R102
    has capacity 50, not 30. *)
Lemma unconfigured_capacity_is_not_always_30 :
  ~ (forall cfg room_name,
       room_capacities cfg = None -> get_room_capacity cfg room_name = 30%Z).
Proof.
  intros H. specialize (H empty_config "R102" eq_refl). vm_compute in H. discriminate.
Qed.

(* ===================================================================== *)
(** ** Reasoning about code in [M] and [result] *)
(* ===================================================================== *)

Lemma bind_Return {A B} (m : M A) (k : A -> M B) (r r' : Rng) (b : B) :
  bind m k r = (Return b, r') ->
  exists a r1, m r = (Return a, r1) /\ k a r1 = (Return b, r').
Proof.
  unfold bind. destruct (m r) as [[e|a] r1]; intros H; [discriminate|eauto].
Qed.

Lemma rbind_Return {A B} (m : result A) (k : A -> result B) (b : B) :
  rbind m k = Return b -> exists a, m = Return a /\ k a = Return b.
Proof. destruct m as [e|a]; simpl; intros H; [discriminate|eauto]. Qed.

Lemma lift_Return {A} (x : result A) (r r' : Rng) (a : A) :
  lift x r = (Return a, r') -> x = Return a /\ r' = r.
Proof. unfold lift. intros H. inversion H. auto. Qed.

Lemma ret_Return {A} (x a : A) (r r' : Rng) :
  ret x r = (Return a, r') -> a = x /\ r' = r.
Proof. unfold ret. intros H. inversion H. auto. Qed.

Ltac inv_bind H :=
  let a := fresh "a" in
  let r := fresh "r" in
  let Ha := fresh "Hstep" in
  apply bind_Return in H as (a & r & Ha & H).

Ltac inv_ret H :=
  let E := fresh "E" in
  apply ret_Return in H as [E ?]; subst.

Lemma mapM_Forall2 {A B} (f : A -> M B) (R : A -> B -> Prop) (xs : list A) :
  (forall x r y r', In x xs -> f x r = (Return y, r') -> R x y) ->
  forall r ys r', mapM f xs r = (Return ys, r') -> Forall2 R xs ys.
Proof.
  induction xs as [|x xs IH]; intros Hf r ys r' H; simpl in H.
  - inv_ret H. constructor.
  - inv_bind H. inv_bind H. inv_ret H. constructor.
    + eapply Hf; [left; reflexivity | eassumption].
    + eapply IH; [|eassumption]. intros; eapply Hf; [right|]; eassumption.
Qed.

Lemma rmap_Forall2 {A B} (f : A -> result B) (R : A -> B -> Prop) (xs : list A) :
  (forall x y, In x xs -> f x = Return y -> R x y) ->
  forall ys, rmap f xs = Return ys -> Forall2 R xs ys.
Proof.
  induction xs as [|x xs IH]; intros Hf ys H; simpl in H.
  - inversion H. constructor.
  - apply rbind_Return in H as (y & Hy & H).
    apply rbind_Return in H as (ys' & Hys & H). inversion H; subst.
    constructor; [apply Hf; [left; reflexivity | assumption]|].
    apply IH; [|assumption]. intros; apply Hf; [right|]; assumption.
Qed.

Lemma repeatM_Forall {A} (f : M A) (Q : A -> Prop) (n : nat) :
  (forall r y r', f r = (Return y, r') -> Q y) ->
  forall r ys r', repeatM n f r = (Return ys, r') -> Forall Q ys /\ length ys = n.
Proof.
  intros Hf. induction n as [|n IH]; intros r ys r' H; simpl in H.
  - inv_ret H. split; [constructor | reflexivity].
  - inv_bind H. inv_bind H. inv_ret H.
    destruct (IH _ _ _ Hstep0) as [IH1 IH2]. split.
    + constructor; [eapply Hf; eassumption | assumption].
    + simpl. congruence.
Qed.

Lemma Forall2_Forall_r {A B} (R : A -> B -> Prop) (P : A -> Prop) (Q : B -> Prop)
    (xs : list A) (ys : list B) :
  (forall x y, R x y -> P x -> Q y) ->
  Forall2 R xs ys -> Forall P xs -> Forall Q ys.
Proof.
  intros HR H2. induction H2; intros HP; inversion HP; subst; constructor; eauto.
Qed.

Lemma Forall_In {A} (P : A -> Prop) (l : list A) (x : A) :
  Forall P l -> In x l -> P x.
Proof. intros H. rewrite List.Forall_forall in H. apply H. Qed.

Lemma In_Forall {A} (P : A -> Prop) (l : list A) :
  (forall x, In x l -> P x) -> Forall P l.
Proof. intros H. apply List.Forall_forall. exact H. Qed.

(* ===================================================================== *)
(** ** The random primitives *)
(* ===================================================================== *)

Lemma random_choice_empty {A} (r : Rng) :
  @random_choice A [] r = (Raise IndexError, r).
Proof. reflexivity. Qed.

Lemma random_choice_nonempty {A} (seq : list A) (r : Rng) (dflt : A) :
  seq <> [] ->
  random_choice seq r
  = (Return (nth (Z.to_nat (tape r (cursor r) mod Z.of_nat (length seq))) seq dflt),
     mkRng (tape r) (S (cursor r))).
Proof.
  destruct seq as [|y seq]; [congruence|]. intros _.
  unfold random_choice, bind, randbelow, bind, next_draw, ret.
  f_equal. f_equal. apply nth_indep.
  pose proof (Z.mod_pos_bound (tape r (cursor r)) (Z.of_nat (length (y :: seq)))
                ltac:(simpl length; lia)) as Hb.
  lia.
Qed.

Lemma random_choice_In {A} (seq : list A) (r r' : Rng) (x : A) :
  random_choice seq r = (Return x, r') -> In x seq.
Proof.
  destruct seq as [|y seq]; [discriminate|].
  rewrite (random_choice_nonempty _ _ y) by discriminate.
  remember (y :: seq) as l eqn:El.
  intros H. assert (Hx : x = nth (Z.to_nat (tape r (cursor r) mod Z.of_nat (length l))) l y)
    by congruence.
  rewrite Hx. apply nth_In. subst l.
  pose proof (Z.mod_pos_bound (tape r (cursor r)) (Z.of_nat (length (y :: seq)))
                ltac:(simpl length; lia)) as Hb.
  lia.
Qed.

Lemma random_randint_range (a b : Z) (r r' : Rng) (x : Z) :
  random_randint a b r = (Return x, r') -> (a <= x <= b)%Z.
Proof.
  unfold random_randint. destruct (Z.leb_spec (b - a + 1) 0); [discriminate|].
  unfold bind, randbelow, bind, next_draw, ret. intros H'. inversion H'; subst.
  pose proof (Z.mod_pos_bound (tape r (cursor r)) (b - a + 1) ltac:(lia)). lia.
Qed.

Lemma random_sample2_distinct (n : nat) (r r' : Rng) (i j : nat) :
  random_sample2 n r = (Return (i, j), r') -> i <> j /\ i < n /\ j < n.
Proof.
  unfold random_sample2. destruct (Nat.ltb_spec n 2) as [|Hn]; [discriminate|].
  unfold bind, randbelow, bind, next_draw, ret. simpl. intros H. inversion H; subst.
  clear H.
  set (d1 := tape r (cursor r)). set (d2 := tape r (S (cursor r))).
  pose proof (Z.mod_pos_bound d1 (Z.of_nat n) ltac:(lia)) as H1.
  pose proof (Z.mod_pos_bound d2 (Z.of_nat (n - 1)) ltac:(lia)) as H2.
  destruct (Z.eqb_spec (d2 mod Z.of_nat (n - 1)) (d1 mod Z.of_nat n)); lia.
Qed.

(* ===================================================================== *)
(** ** The operators keep their individuals inside the population *)
(* ===================================================================== *)

Lemma max_by_fitness_In (aspirants : list Individual) (x : Individual) :
  max_by_fitness aspirants = Return x -> In x aspirants.
Proof.
  destruct aspirants as [|a rest]; simpl; [discriminate|].
  intros H. inversion H as [Hx]. clear H Hx.
  assert (G : forall l best, In best (a :: rest) -> (forall y, In y l -> In y (a :: rest)) ->
              In (fold_left (fun best x => if fitness_gt (fitness x) (fitness best)
                                           then x else best) l best) (a :: rest)).
  { induction l as [|y l IH]; intros best Hb Hl; simpl; [assumption|].
    apply IH; [|intros; apply Hl; right; assumption].
    destruct (fitness_gt _ _); [apply Hl; left; reflexivity | assumption]. }
  apply G; [left; reflexivity | intros; right; assumption].
Qed.

Lemma selTournament_In (individuals : list Individual) (k : nat) (tournsize : Z)
    (r r' : Rng) (chosen : list Individual) :
  selTournament individuals k tournsize r = (Return chosen, r') ->
  Forall (fun x => In x individuals) chosen /\ length chosen = k.
Proof.
  unfold selTournament. apply repeatM_Forall.
  intros r0 y r0' H. inv_bind H. apply lift_Return in H as [H _].
  apply max_by_fitness_In in H.
  apply repeatM_Forall with (Q := fun x => In x individuals) in Hstep.
  - exact (Forall_In _ _ _ (proj1 Hstep) H).
  - intros ? ? ?. apply random_choice_In.
Qed.

Lemma insert_best_In (x z : Individual) (sorted : list Individual) :
  In z (insert_best x sorted) -> z = x \/ In z sorted.
Proof.
  induction sorted as [|y rest IH]; simpl.
  - intros [<-|[]]. left; reflexivity.
  - destruct (fitness_gt _ _); simpl.
    + intros [<-|H]; [right; left; reflexivity|].
      destruct (IH H); [left | right; right]; assumption.
    + intros [<-|H]; [left; reflexivity | right; exact H].
Qed.

Lemma firstn_In_incl {A} (n : nat) (l : list A) (x : A) :
  In x (firstn n l) -> In x l.
Proof.
  revert n. induction l as [|y l IH]; intros [|n]; simpl; try tauto.
  intros [<-|H]; [left; reflexivity | right; eapply IH; exact H].
Qed.

Lemma selBest_In (individuals : list Individual) (k : nat) (z : Individual) :
  In z (selBest individuals k) -> In z individuals.
Proof.
  unfold selBest. intros H. apply firstn_In_incl in H.
  induction individuals as [|x l IH]; simpl in H; [assumption|].
  apply insert_best_In in H as [->|H]; [left; reflexivity | right; auto].
Qed.

Lemma cxTwoPoint_inv (ind1 ind2 a b : list Gene) (r r' : Rng) :
  cxTwoPoint ind1 ind2 r = (Return (a, b), r') ->
  exists p1 p2,
    1 <= p1 /\ p1 < p2 /\ p2 <= Nat.min (length ind1) (length ind2)
    /\ a = (firstn p1 ind1 ++ firstn (p2 - p1) (skipn p1 ind2) ++ skipn p2 ind1)%list
    /\ b = (firstn p1 ind2 ++ firstn (p2 - p1) (skipn p1 ind1) ++ skipn p2 ind2)%list.
Proof.
  unfold cxTwoPoint. intros H. inv_bind H. inv_bind H.
  apply random_randint_range in Hstep, Hstep0.
  destruct (Z.leb_spec a0 a1).
  - inv_ret H. inversion E; subst.
    exists (Z.to_nat a0), (Z.to_nat (a1 + 1)). repeat split; lia.
  - inv_ret H. inversion E; subst.
    exists (Z.to_nat a1), (Z.to_nat a0). repeat split; lia.
Qed.

Lemma evaluate_population_genes (self : ScheduleGA) (pop pop' : list Individual) :
  evaluate_population self pop = Return pop' ->
  Forall2 (fun a b => genes b = genes a /\ exists f, fitness b = Some f) pop pop'.
Proof.
  unfold evaluate_population. apply rmap_Forall2.
  intros x y _ H. apply rbind_Return in H as (f & _ & H). inversion H; subst.
  simpl. eauto.
Qed.

Lemma hof_update_one_cases (first : Individual) (h : option Individual) (ind : Individual) :
  hof_update_one first h ind = h
  \/ (h = None /\ hof_update_one first h ind = Some first)
  \/ (exists hofer, h = Some hofer
                    /\ fitness_gt (fitness ind) (fitness hofer) = true
                    /\ hof_update_one first h ind = Some ind).
Proof.
  unfold hof_update_one. destruct h as [hofer|].
  - destruct (fitness_gt _ _) eqn:Hgt; [|left; reflexivity].
    destruct (genes_eqb _ _); [left; reflexivity|].
    right; right. exists hofer. auto.
  - right; left. auto.
Qed.

Lemma hof_update_from (h : option Individual) (pop : list Individual) (best : Individual) :
  hof_update h pop = Some best -> h = Some best \/ In best pop.
Proof.
  unfold hof_update. destruct pop as [|first rest]; [auto|].
  remember (first :: rest) as pop eqn:Ep.
  assert (Hfirst : In first pop) by (subst; left; reflexivity).
  clear Ep. revert h.
  assert (G : forall l h, (forall y, In y l -> In y pop) ->
              fold_left (hof_update_one first) l h = Some best ->
              h = Some best \/ In best pop).
  { induction l as [|x l IH]; intros h Hl H; simpl in H; [auto|].
    apply IH in H; [|intros; apply Hl; right; assumption].
    destruct H as [H|H]; [|auto].
    destruct (hof_update_one_cases first h x) as [E|[[_ E]|(hofer & _ & _ & E)]];
      rewrite E in H.
    - auto.
    - inversion H; subst. auto.
    - inversion H; subst. right. apply Hl. left; reflexivity. }
  intros h. apply G. auto.
Qed.

(* ===================================================================== *)
(** ** Invariants of the evolution loop *)
(* ===================================================================== *)

Section GenomeInvariant.

Variable self : ScheduleGA.
Variable P : list Gene -> Prop.

Hypothesis P_mate : forall g1 g2 a b r r',
  P g1 -> P g2 -> cxTwoPoint g1 g2 r = (Return (a, b), r') -> P a /\ P b.

Hypothesis P_mutate : forall g g' r r',
  P g -> mutate_schedule self g r = (Return g', r') -> P g'.

Lemma crossover_pairs_ok (n : nat) :
  forall offspring r offspring' r',
    length offspring <= n ->
    pop_ok P offspring ->
    crossover_pairs self offspring r = (Return offspring', r') ->
    pop_ok P offspring' /\ length offspring' = length offspring.
Proof.
  induction n as [|n IH]; intros offspring r offspring' r' Hn Hok H.
  - destruct offspring; [|simpl in Hn; lia]. simpl in H. inv_ret H. auto.
  - destruct offspring as [|c1 [|c2 rest]]; simpl in H; try (inv_ret H; auto).
    inv_bind H. inv_bind H. inv_bind H. inv_ret H.
    inversion Hok as [|? ? H1 Hok1]; subst. inversion Hok1 as [|? ? H2 Hok2]; subst.
    apply IH in Hstep1 as [IH1 IH2]; [|simpl in Hn; lia|exact Hok2].
    assert (Hc : P (genes (fst a0)) /\ P (genes (snd a0))).
    { destruct (Qlt_bool a (cfg_crossover_prob self)).
      - inv_bind Hstep0. inv_ret Hstep0. simpl.
        destruct a2 as [ga gb]. simpl.
        exact (P_mate _ _ _ _ _ _ H1 H2 Hstep1).
      - inv_ret Hstep0. auto. }
    split; [|simpl; congruence].
    constructor; [tauto|]. constructor; [tauto | assumption].
Qed.

Lemma mutate_all_ok (offspring offspring' : list Individual) (r r' : Rng) :
  pop_ok P offspring ->
  mutate_all self offspring r = (Return offspring', r') ->
  pop_ok P offspring' /\ length offspring' = length offspring.
Proof.
  intros Hok H. unfold mutate_all in H.
  apply mapM_Forall2 with (R := fun a b => P (genes a) -> P (genes b)) in H.
  - split.
    + eapply Forall2_Forall_r; [| exact H | exact Hok]. auto.
    + symmetry. eapply Forall2_length. exact H.
  - intros x r0 y r0' _ Hx Hp. inv_bind Hx. inv_ret Hx. simpl.
    eapply P_mutate; eassumption.
Qed.

Lemma generation_ok (gen : nat) (st st' : LoopState) (brk : bool) (r r' : Rng) :
  state_ok P st ->
  generation self gen st r = (Return (st', brk), r') ->
  state_ok P st'.
Proof.
  intros [Hpop Hhof] H. unfold generation in H.
  inv_bind H. apply lift_Return in Hstep as [Hev ->].
  inv_bind H. apply lift_Return in Hstep as [_ ->].
  assert (Hpop' : pop_ok P a).
  { eapply Forall2_Forall_r;
      [| exact (evaluate_population_genes _ _ _ Hev) | exact Hpop].
    intros x y [-> _]. auto. }
  assert (Hhof' : forall h, hof_update (hof st) a = Some h -> P (genes h)).
  { intros h Hh. apply hof_update_from in Hh as [Hh|Hh]; [auto|].
    exact (Forall_In _ _ _ Hpop' Hh). }
  destruct (Qle_bool _ _).
  - inv_ret H. inversion E; subst. split; assumption.
  - inv_bind H. inv_bind H. inv_bind H. inv_ret H. inversion E; subst. clear E.
    split; [|assumption]. simpl.
    apply selTournament_In in Hstep as [Hsel _].
    assert (Hoff : pop_ok P a1).
    { apply In_Forall. intros x Hx.
      exact (Forall_In _ _ _ Hpop' (Forall_In _ _ _ Hsel Hx)). }
    eapply crossover_pairs_ok in Hstep0 as [Hcx _]; [|constructor|exact Hoff].
    apply mutate_all_ok in Hstep1 as [Hmut _]; [|exact Hcx].
    apply In_Forall. intros x Hx. apply in_app_or in Hx as [Hx|Hx].
    + apply firstn_In_incl in Hx. exact (Forall_In _ _ _ Hmut Hx).
    + apply selBest_In in Hx. exact (Forall_In _ _ _ Hpop' Hx).
Qed.

Lemma evolve_loop_ok (n : nat) :
  forall gen st st' r r',
    state_ok P st ->
    evolve_loop self n gen st r = (Return st', r') ->
    state_ok P st'.
Proof.
  induction n as [|n IH]; intros gen st st' r r' Hok H; simpl in H.
  - inv_ret H. assumption.
  - inv_bind H. destruct a as [st1 brk]. simpl in H.
    apply generation_ok in Hstep; [|assumption].
    destruct brk; [inv_ret H; assumption | eapply IH; eassumption].
Qed.

End GenomeInvariant.

(* ===================================================================== *)
(** ** What crossover and mutation do to a genome *)
(* ===================================================================== *)

Lemma update_gene_length (l : list Gene) (i : nat) (f : Gene -> Gene) :
  length (update_gene l i f) = length l.
Proof.
  unfold update_gene. destruct (l !! i); [apply length_insert | reflexivity].
Qed.

Lemma map_insert_same {A B} (h : A -> B) (l : list A) (i : nat) (x y : A) :
  l !! i = Some x -> h y = h x -> map h (<[i := y]> l) = map h l.
Proof.
  revert i. induction l as [|z l IH]; intros [|i] Hi Hh; simpl in *;
    try discriminate.
  - inversion Hi; subst. rewrite Hh. reflexivity.
  - f_equal. apply IH; assumption.
Qed.

Lemma update_gene_ids (l : list Gene) (i : nat) (f : Gene -> Gene) :
  (forall g, entity_id (f g) = entity_id g) ->
  map entity_id (update_gene l i f) = map entity_id l.
Proof.
  intros Hf. unfold update_gene. destruct (l !! i) as [g|] eqn:Hi; [|reflexivity].
  eapply map_insert_same; [exact Hi | apply Hf].
Qed.

Lemma swap_genes_length (l : list Gene) (i j : nat) :
  length (swap_genes l i j) = length l.
Proof.
  unfold swap_genes. destruct (l !! i), (l !! j); try reflexivity.
  rewrite !length_insert. reflexivity.
Qed.

Lemma splice_length {A} (l1 l2 : list A) (p1 p2 : nat) :
  p1 <= p2 -> p2 <= length l1 -> length l2 = length l1 ->
  length (firstn p1 l1 ++ firstn (p2 - p1) (skipn p1 l2) ++ skipn p2 l1)%list
  = length l1.
Proof.
  intros H1 H2 H3. rewrite !length_app, !length_take, !length_drop. lia.
Qed.

Lemma splice_self {A} (l : list A) (p1 p2 : nat) :
  p1 <= p2 ->
  (firstn p1 l ++ firstn (p2 - p1) (skipn p1 l) ++ skipn p2 l)%list = l.
Proof.
  intros H. replace p2 with ((p2 - p1) + p1) at 2 by lia.
  rewrite <- List.skipn_skipn, List.firstn_skipn, List.firstn_skipn. reflexivity.
Qed.

Lemma splice_map {A B} (h : A -> B) (l1 l2 : list A) (p1 p2 : nat) :
  p1 <= p2 -> map h l2 = map h l1 ->
  map h (firstn p1 l1 ++ firstn (p2 - p1) (skipn p1 l2) ++ skipn p2 l1)%list
  = map h l1.
Proof.
  intros H1 H2.
  rewrite !List.map_app, <- !List.firstn_map, <- !List.skipn_map, H2.
  apply splice_self. exact H1.
Qed.

Lemma cxTwoPoint_full_length (ents : list Entity) (g1 g2 a b : list Gene) (r r' : Rng) :
  full_length ents g1 -> full_length ents g2 ->
  cxTwoPoint g1 g2 r = (Return (a, b), r') ->
  full_length ents a /\ full_length ents b.
Proof.
  unfold full_length. intros H1 H2 H.
  apply cxTwoPoint_inv in H as (p1 & p2 & _ & Hlt & Hle & -> & ->).
  split; (rewrite splice_length; [assumption | lia | lia | congruence]).
Qed.

Lemma cxTwoPoint_positional (ents : list Entity) (g1 g2 a b : list Gene) (r r' : Rng) :
  positional ents g1 -> positional ents g2 ->
  cxTwoPoint g1 g2 r = (Return (a, b), r') ->
  positional ents a /\ positional ents b.
Proof.
  unfold positional. intros H1 H2 H.
  apply cxTwoPoint_inv in H as (p1 & p2 & _ & Hlt & Hle & -> & ->).
  split; (rewrite splice_map; [assumption | lia | congruence]).
Qed.

Lemma mutate_swap_length (g g' : list Gene) (r r' : Rng) :
  mutate_swap g r = (Return g', r') -> length g' = length g.
Proof.
  unfold mutate_swap. destruct (2 <=? length g).
  - intros H. inv_bind H. inv_ret H. apply swap_genes_length.
  - intros H. inv_ret H. reflexivity.
Qed.

Lemma mutate_shift_keeps (self : ScheduleGA) (g g' : list Gene) (r r' : Rng) :
  mutate_shift self g r = (Return g', r') ->
  length g' = length g /\ map entity_id g' = map entity_id g.
Proof.
  unfold mutate_shift. intros H. inv_bind H. inv_bind H.
  destruct (String.eqb a0 "day"); [|destruct (String.eqb a0 "time")];
    inv_bind H; inv_ret H;
    (split; [apply update_gene_length | apply update_gene_ids; reflexivity]).
Qed.

Lemma mutate_random_keeps (self : ScheduleGA) (g g' : list Gene) (r r' : Rng) :
  mutate_random self g r = (Return g', r') ->
  length g' = length g /\ map entity_id g' = map entity_id g.
Proof.
  unfold mutate_random. intros H. inv_bind H. inv_bind H. inv_bind H. inv_bind H.
  inv_ret H. split.
  - rewrite !update_gene_length. reflexivity.
  - rewrite !update_gene_ids by reflexivity. reflexivity.
Qed.

Lemma mutate_schedule_full_length (self : ScheduleGA) (ents : list Entity)
    (g g' : list Gene) (r r' : Rng) :
  full_length ents g ->
  mutate_schedule self g r = (Return g', r') ->
  full_length ents g'.
Proof.
  unfold full_length, mutate_schedule, apply_strategy. intros Hg H. inv_bind H.
  destruct (Qlt_bool _ _); [|inv_ret H; assumption].
  destruct (String.eqb _ "swap"); [apply mutate_swap_length in H; congruence|].
  destruct (String.eqb _ "shift"); [apply mutate_shift_keeps in H as [H _]; congruence|].
  destruct (String.eqb _ "random"); [apply mutate_random_keeps in H as [H _]; congruence|].
  inv_ret H. assumption.
Qed.

Lemma mutate_schedule_positional (self : ScheduleGA) (ents : list Entity)
    (g g' : list Gene) (r r' : Rng) :
  cfg_mutation_strategy self <> "swap" ->
  positional ents g ->
  mutate_schedule self g r = (Return g', r') ->
  positional ents g'.
Proof.
  unfold positional, mutate_schedule, apply_strategy. intros Hs Hg H. inv_bind H.
  destruct (Qlt_bool _ _); [|inv_ret H; assumption].
  destruct (String.eqb_spec (cfg_mutation_strategy self) "swap"); [contradiction|].
  destruct (String.eqb _ "shift"); [apply mutate_shift_keeps in H as [_ H]; congruence|].
  destruct (String.eqb _ "random"); [apply mutate_random_keeps in H as [_ H]; congruence|].
  inv_ret H. assumption.
Qed.

(** ** What the genome initialiser builds *)

Lemma create_individual_positional (self : ScheduleGA) (ind : Individual) (r r' : Rng) :
  create_individual self r = (Return ind, r') ->
  positional (entities self) (genes ind).
Proof.
  unfold create_individual, positional. intros H. inv_bind H. inv_ret H. simpl.
  apply mapM_Forall2 with (R := fun e g => entity_id g = e_id e) in Hstep.
  - induction Hstep; simpl; congruence.
  - intros x r1 y r1' _ Hx. unfold create_gene in Hx.
    inv_bind Hx. inv_bind Hx. inv_bind Hx. inv_ret Hx. reflexivity.
Qed.

Lemma positional_full_length (ents : list Entity) (gs : list Gene) :
  positional ents gs -> full_length ents gs.
Proof.
  unfold positional, full_length. intros H.
  rewrite <- (length_map entity_id), H, length_map. reflexivity.
Qed.

Lemma toolbox_population_positional (self : ScheduleGA) (n : Z)
    (pop : list Individual) (r r' : Rng) :
  toolbox_population self n r = (Return pop, r') ->
  pop_ok (positional (entities self)) pop /\ length pop = Z.to_nat n.
Proof.
  unfold toolbox_population, pop_ok. apply repeatM_Forall.
  intros ? ? ?. apply create_individual_positional.
Qed.

(** Every genome that the loop ever holds has one gene per entity,
    whatever the mutation strategy. *)
Theorem evolve_loop_full_length (self : ScheduleGA) (k : nat)
    (pop : list Individual) (st : LoopState) (r0 r1 r2 : Rng) :
  toolbox_population self (cfg_population_size self) r0 = (Return pop, r1) ->
  evolve_loop self k 0 (initial_state pop) r1 = (Return st, r2) ->
  state_ok (full_length (entities self)) st.
Proof.
  intros Hpop Hloop.
  eapply (evolve_loop_ok self (full_length (entities self))); [| | | exact Hloop].
  - intros g1 g2 a b r r' H1 H2 H.
    exact (cxTwoPoint_full_length _ _ _ _ _ _ _ H1 H2 H).
  - intros. eapply mutate_schedule_full_length; eassumption.
  - split; [|discriminate]. simpl.
    apply toolbox_population_positional in Hpop as [Hpop _].
    eapply List.Forall_impl; [|exact Hpop]. intros ?. apply positional_full_length.
Qed.

(** With the [shift] and [random] strategies (any strategy but [swap])
    position [i] of every genome keeps the id of entity [i]. *)
Theorem evolve_loop_positional (self : ScheduleGA) (k : nat)
    (pop : list Individual) (st : LoopState) (r0 r1 r2 : Rng) :
  cfg_mutation_strategy self <> "swap" ->
  toolbox_population self (cfg_population_size self) r0 = (Return pop, r1) ->
  evolve_loop self k 0 (initial_state pop) r1 = (Return st, r2) ->
  state_ok (positional (entities self)) st.
Proof.
  intros Hs Hpop Hloop.
  eapply (evolve_loop_ok self (positional (entities self))); [| | | exact Hloop].
  - intros g1 g2 a b r r' H1 H2 H.
    exact (cxTwoPoint_positional _ _ _ _ _ _ _ H1 H2 H).
  - intros. eapply mutate_schedule_positional; eassumption.
  - split; [|discriminate]. simpl.
    apply toolbox_population_positional in Hpop as [Hpop _]. exact Hpop.
Qed.

(** C1.  The genome length is kept (see [evolve_loop_full_length]), but the
    exactly-once property is not: under the default [swap] strategy a swap
    followed by a two-point crossover with an unswapped genome duplicates
    one entity and drops the other.  On two entities [e1], [e2] the run
    below reaches, at generation 2, a population whose first genome holds
    [e2] twice, and [evolve] returns that genome as the schedule. *)
Theorem swap_then_crossover_duplicates_an_entity :
  map e_id (entities one_room_ga) = ["e1"; "e2"]
  /\ toolbox_population one_room_ga (cfg_population_size one_room_ga)
                         (mkRng one_room_tape 0)
     = (Return one_room_population, mkRng one_room_tape 12)
  /\ (exists st r',
        evolve_loop one_room_ga 2 0
          (initial_state one_room_population)
          (mkRng one_room_tape 12) = (Return st, r')
        /\ map (fun ind => map entity_id (genes ind)) (population st)
           = [["e2"; "e2"]; ["e2"; "e1"]])
  /\ (exists res r',
        evolve one_room_ga (mkRng one_room_tape 0) = (Return res, r')
        /\ map entity_id (schedule res) = ["e2"; "e2"]
        /\ length (schedule res) = length (entities one_room_ga)
        /\ ~ In "e1" (map entity_id (schedule res))).
Proof.
  split; [reflexivity|]. split; [reflexivity|]. split.
  - eexists. eexists. split; [vm_compute; reflexivity|]. reflexivity.
  - eexists. eexists. split; [vm_compute; reflexivity|].
    split; [reflexivity|]. split; [reflexivity|].
    simpl. intros [H|[H|[]]]; discriminate.
Qed.

(* ===================================================================== *)
(** ** The hall of fame *)
(* ===================================================================== *)

Lemma Qlt_bool_iff (a b : Q) : Qlt_bool a b = true <-> (a < b)%Q.
Proof.
  unfold Qlt_bool. rewrite negb_true_iff. split.
  - intros H. apply Qnot_le_lt. intros Hle.
    apply Qle_bool_iff in Hle. congruence.
  - intros H. destruct (Qle_bool b a) eqn:E; [|reflexivity].
    apply Qle_bool_iff in E. exfalso. exact (Qlt_not_le _ _ H E).
Qed.

Lemma fitness_gt_trans (a b c : option Q) :
  fitness_gt a b = true -> fitness_gt b c = true -> fitness_gt a c = true.
Proof.
  destruct a as [x|], b as [y|], c as [z|]; simpl; try congruence.
  rewrite !Qlt_bool_iff. intros H1 H2. exact (Qlt_trans _ _ _ H2 H1).
Qed.

Lemma hof_better_refl (h : option Individual) : hof_better h h.
Proof. destruct h as [a|]; simpl; eauto. Qed.

Lemma hof_better_trans (h1 h2 h3 : option Individual) :
  hof_better h1 h2 -> hof_better h2 h3 -> hof_better h1 h3.
Proof.
  destruct h1 as [a|]; simpl; [|trivial].
  intros (b & -> & Hab) (c & -> & Hbc). exists c. split; [reflexivity|].
  destruct Hab as [->|Hab]; [assumption|].
  destruct Hbc as [->|Hbc]; [right; assumption|].
  right. eapply fitness_gt_trans; eassumption.
Qed.

Lemma hof_update_one_better (first : Individual) (h : option Individual) (ind : Individual) :
  hof_better h (hof_update_one first h ind).
Proof.
  destruct (hof_update_one_cases first h ind) as [E|[[-> _]|(hofer & -> & Hgt & E)]].
  - rewrite E. apply hof_better_refl.
  - exact I.
  - rewrite E. simpl. eauto.
Qed.

Lemma hof_update_better (h : option Individual) (pop : list Individual) :
  hof_better h (hof_update h pop).
Proof.
  unfold hof_update. destruct pop as [|first rest]; [apply hof_better_refl|].
  generalize (first :: rest). intros l. revert h.
  induction l as [|x l IH]; intros h; simpl; [apply hof_better_refl|].
  eapply hof_better_trans; [apply hof_update_one_better | apply IH].
Qed.

Lemma generation_hof (self : ScheduleGA) (gen : nat) (st st' : LoopState)
    (brk : bool) (r r' : Rng) :
  generation self gen st r = (Return (st', brk), r') ->
  hof_better (hof st) (hof st') /\ (hof_valid (hof st) -> hof_valid (hof st')).
Proof.
  intros H. unfold generation in H.
  inv_bind H. apply lift_Return in Hstep as [Hev ->].
  inv_bind H. apply lift_Return in Hstep as [_ ->].
  assert (G : hof_better (hof st) (hof_update (hof st) a)
              /\ (hof_valid (hof st) -> hof_valid (hof_update (hof st) a))).
  { split; [apply hof_update_better|].
    intros Hv b Hb. apply hof_update_from in Hb as [Hb|Hb]; [auto|].
    apply evaluate_population_genes in Hev.
    clear - Hev Hb. induction Hev as [|x y ? ? [_ Hy] ? IH]; [destruct Hb|].
    destruct Hb as [<-|Hb]; auto. }
  destruct (Qle_bool _ _).
  - inv_ret H. inversion E; subst. exact G.
  - inv_bind H. inv_bind H. inv_bind H. inv_ret H. inversion E; subst. exact G.
Qed.

Lemma evolve_loop_unfold (self : ScheduleGA) (n gen : nat) (st : LoopState) (r : Rng) :
  evolve_loop self (S n) gen st r
  = match generation self gen st r with
    | (Return (st', true), r') => (Return st', r')
    | (Return (st', false), r') => evolve_loop self n (S gen) st' r'
    | (Raise e, r') => (Raise e, r')
    end.
Proof.
  simpl. unfold bind.
  destruct (generation self gen st r) as [[e|[st' [|]]] r']; reflexivity.
Qed.

Lemma evolve_loop_snoc (self : ScheduleGA) (k : nat) :
  forall gen st r st2 r2,
    evolve_loop self (S k) gen st r = (Return st2, r2) ->
    exists st1 r1,
      evolve_loop self k gen st r = (Return st1, r1)
      /\ ((st2 = st1 /\ r2 = r1)
          \/ exists brk, generation self (gen + k) st1 r1 = (Return (st2, brk), r2)).
Proof.
  induction k as [|k IH]; intros gen st r st2 r2 H.
  - rewrite evolve_loop_unfold in H.
    exists st, r. split; [reflexivity|]. right. rewrite Nat.add_0_r.
    destruct (generation self gen st r) as [[e|[st' [|]]] r'];
      [discriminate | exists true | exists false]; simpl in H; unfold ret in H;
      congruence.
  - rewrite evolve_loop_unfold in H. rewrite evolve_loop_unfold.
    destruct (generation self gen st r) as [[e|[st' [|]]] r']; [discriminate| |].
    + exists st2, r2. split; [exact H | left; auto].
    + apply IH in H as (st1 & r1 & H1 & H2).
      exists st1, r1. split; [exact H1|].
      rewrite <- Nat.add_succ_comm. exact H2.
Qed.

Lemma evolve_loop_hof_valid (self : ScheduleGA) (k : nat) :
  forall gen st r st' r',
    hof_valid (hof st) ->
    evolve_loop self k gen st r = (Return st', r') ->
    hof_valid (hof st').
Proof.
  induction k as [|k IH]; intros gen st r st' r' Hv H; simpl in H.
  - inv_ret H. assumption.
  - inv_bind H. destruct a as [st1 brk]. simpl in H.
    apply generation_hof in Hstep as [_ Hstep]. specialize (Hstep Hv).
    destruct brk; [inv_ret H; assumption | eapply IH; eassumption].
Qed.

(** C3.  Between generation [k] and generation [k + 1] of a run the
    hall of fame keeps its entry or replaces it by a strictly fitter
    individual, so its fitness never decreases. *)
Theorem hall_of_fame_fitness_monotone (self : ScheduleGA) (pop : list Individual)
    (k : nat) (r r1 r2 : Rng) (st1 st2 : LoopState) (a : Individual) :
  evolve_loop self k 0 (initial_state pop) r = (Return st1, r1) ->
  evolve_loop self (S k) 0 (initial_state pop) r = (Return st2, r2) ->
  hof st1 = Some a ->
  exists b fa fb,
    hof st2 = Some b /\ fitness a = Some fa /\ fitness b = Some fb
    /\ (fa <= fb)%Q /\ (b = a \/ (fa < fb)%Q).
Proof.
  intros H1 H2 Ha.
  assert (Hv1 : hof_valid (hof st1)).
  { eapply evolve_loop_hof_valid; [|exact H1]. intros ? H. discriminate. }
  assert (Hv2 : hof_valid (hof st2)).
  { eapply evolve_loop_hof_valid; [|exact H2]. intros ? H. discriminate. }
  destruct (Hv1 a Ha) as [fa Hfa].
  apply evolve_loop_snoc in H2 as (st1' & r1' & H1' & H2).
  rewrite H1 in H1'. inversion H1'; subst st1' r1'. clear H1'.
  destruct H2 as [[-> _]|[brk Hgen]].
  - exists a, fa, fa. repeat split; auto. apply Qle_refl.
  - apply generation_hof in Hgen as [Hb _].
    rewrite Ha in Hb. destruct Hb as (b & Hb & Hab).
    destruct (Hv2 b Hb) as [fb Hfb].
    exists b, fa, fb. repeat split; auto.
    + destruct Hab as [->|Hgt].
      * rewrite Hfa in Hfb. inversion Hfb. apply Qle_refl.
      * rewrite Hfa, Hfb in Hgt. simpl in Hgt. apply Qlt_bool_iff in Hgt.
        apply Qlt_le_weak. exact Hgt.
    + destruct Hab as [->|Hgt]; [left; reflexivity|].
      rewrite Hfa, Hfb in Hgt. simpl in Hgt. apply Qlt_bool_iff in Hgt.
      right. exact Hgt.
Qed.

Lemma hall_of_fame_fitness_monotone_witness :
  exists a b fa fb,
    map entity_id (genes a) = ["e1"; "e2"]
    /\ map entity_id (genes b) = ["e2"; "e2"]
    /\ fitness a = Some fa /\ fitness b = Some fb
    /\ (fa <= fb)%Q /\ (b = a \/ (fa < fb)%Q).
Proof.
  pose proof (hall_of_fame_fitness_monotone one_room_ga one_room_population 2
                (mkRng one_room_tape 12)) as H.
  edestruct H as (b & fa & fb & Hb & Hfa & Hfb & Hle & Hlt).
  - vm_compute. reflexivity.
  - vm_compute. reflexivity.
  - reflexivity.
  - simpl in Hb. injection Hb as <-.
    match type of Hfa with fitness ?x = _ => exists x end.
    match type of Hfb with fitness ?x = _ => exists x end.
    exists fa, fb.
    split; [reflexivity|].
    split; [reflexivity|].
    repeat split; assumption.
Defined.

(* ===================================================================== *)
(** ** When [evolve] returns *)
(* ===================================================================== *)

Lemma bind_Raise {A B} (m : M A) (k : A -> M B) (r r' : Rng) (e : exn) :
  bind m k r = (Raise e, r') ->
  m r = (Raise e, r') \/ exists a r1, m r = (Return a, r1) /\ k a r1 = (Raise e, r').
Proof.
  unfold bind. destruct (m r) as [[e0|a] r1]; intros H; [left | right; eauto].
  inversion H. reflexivity.
Qed.

Lemma mapM_Raise {A B} (f : A -> M B) (Q : exn -> Prop) (xs : list A) :
  (forall x r e r', f x r = (Raise e, r') -> Q e) ->
  forall r e r', mapM f xs r = (Raise e, r') -> Q e.
Proof.
  intros Hf. induction xs as [|x xs IH]; intros r e r' H; simpl in H.
  - discriminate.
  - apply bind_Raise in H as [H|(y & r1 & _ & H)]; [eapply Hf; exact H|].
    apply bind_Raise in H as [H|(ys & r2 & _ & H)]; [eapply IH; exact H|].
    discriminate.
Qed.

Lemma repeatM_Raise {A} (f : M A) (Q : exn -> Prop) (n : nat) :
  (forall r e r', f r = (Raise e, r') -> Q e) ->
  forall r e r', repeatM n f r = (Raise e, r') -> Q e.
Proof.
  intros Hf. induction n as [|n IH]; intros r e r' H; simpl in H.
  - discriminate.
  - apply bind_Raise in H as [H|(y & r1 & _ & H)]; [eapply Hf; exact H|].
    apply bind_Raise in H as [H|(ys & r2 & _ & H)]; [eapply IH; exact H|].
    discriminate.
Qed.

Lemma random_choice_Raise {A} (seq : list A) (r r' : Rng) (e : exn) :
  random_choice seq r = (Raise e, r') -> e = IndexError /\ seq = [] /\ r' = r.
Proof.
  destruct seq as [|x seq].
  - intros H. inversion H. auto.
  - rewrite (random_choice_nonempty _ _ x) by discriminate. discriminate.
Qed.

Lemma create_gene_Raise (self : ScheduleGA) (entity : Entity) (r r' : Rng) (e : exn) :
  create_gene self entity r = (Raise e, r') -> e = IndexError.
Proof.
  unfold create_gene. intros H.
  apply bind_Raise in H as [H|(d & r1 & _ & H)];
    [apply random_choice_Raise in H; tauto|].
  apply bind_Raise in H as [H|(t & r2 & _ & H)];
    [apply random_choice_Raise in H; tauto|].
  apply bind_Raise in H as [H|(x & r3 & _ & H)];
    [apply random_choice_Raise in H; tauto|].
  discriminate.
Qed.

Lemma toolbox_population_Raise (self : ScheduleGA) (n : Z) (r r' : Rng) (e : exn) :
  toolbox_population self n r = (Raise e, r') -> e = IndexError.
Proof.
  unfold toolbox_population. apply (repeatM_Raise _ (fun e => e = IndexError)).
  intros r0 e0 r0' H. unfold create_individual in H.
  apply bind_Raise in H as [H|(x & r1 & _ & H)]; [|discriminate].
  revert H. apply (mapM_Raise _ (fun e => e = IndexError)).
  intros ? ? ? ?. apply create_gene_Raise.
Qed.

Lemma generation_empty_population (self : ScheduleGA) (gen : nat) (st : LoopState)
    (r : Rng) :
  population st = [] -> generation self gen st r = (Raise ValueError, r).
Proof. intros H. unfold generation. rewrite H. reflexivity. Qed.

(** C10.  With [generations <= 0] the loop body never runs, the hall of
    fame stays empty and [evolve] ends in the [IndexError] of [hof[0]]
    (or in the [IndexError] of an empty resource list before that); so
    whenever [evolve] returns a result, [generations >= 1] and the
    population is not empty. *)
Theorem evolve_returns_only_after_a_generation (self : ScheduleGA) (r : Rng) :
  ((cfg_generations self <= 0)%Z -> fst (evolve self r) = Raise IndexError)
  /\ (forall res r', evolve self r = (Return res, r') ->
        (1 <= cfg_generations self)%Z /\ (1 <= cfg_population_size self)%Z).
Proof.
  assert (H0 : (cfg_generations self <= 0)%Z -> fst (evolve self r) = Raise IndexError).
  { intros Hg. unfold evolve, bind.
    destruct (toolbox_population self (cfg_population_size self) r)
      as [[e|pop] r1] eqn:Hpop.
    - apply toolbox_population_Raise in Hpop. subst. reflexivity.
    - replace (Z.to_nat (cfg_generations self)) with 0 by lia. reflexivity. }
  split; [exact H0|].
  intros res r' H.
  assert (Hg : (1 <= cfg_generations self)%Z).
  { destruct (Z.le_gt_cases (cfg_generations self) 0) as [Hle|]; [|lia].
    apply H0 in Hle. rewrite H in Hle. discriminate. }
  split; [exact Hg|].
  destruct (Z.le_gt_cases (cfg_population_size self) 0) as [Hle|]; [|lia].
  exfalso. unfold evolve in H. inv_bind H. inv_bind H.
  unfold toolbox_population in Hstep.
  replace (Z.to_nat (cfg_population_size self)) with 0 in Hstep by lia.
  simpl in Hstep. inv_ret Hstep.
  destruct (Z.to_nat (cfg_generations self)) as [|n] eqn:En; [lia|].
  rewrite evolve_loop_unfold, generation_empty_population in Hstep0 by reflexivity.
  discriminate.
Qed.

Lemma evolve_returns_only_after_a_generation_witness :
  (exists res r', evolve one_room_ga (mkRng one_room_tape 0) = (Return res, r'))
  /\ (1 <= cfg_generations one_room_ga)%Z
  /\ (1 <= cfg_population_size one_room_ga)%Z
  /\ fst (evolve no_generation_ga (mkRng one_room_tape 0)) = Raise IndexError.
Proof.
  assert (H : exists res r', evolve one_room_ga (mkRng one_room_tape 0) = (Return res, r')).
  { eexists. eexists. vm_compute. reflexivity. }
  split; [exact H|].
  destruct H as (res & r' & H).
  pose proof (proj2 (evolve_returns_only_after_a_generation one_room_ga
                       (mkRng one_room_tape 0)) res r' H) as [H1 H2].
  split; [exact H1|]. split; [exact H2|].
  apply (proj1 (evolve_returns_only_after_a_generation no_generation_ga
                  (mkRng one_room_tape 0))).
  vm_compute. discriminate.
Defined.

(* ===================================================================== *)
(** ** The swap mutation *)
(* ===================================================================== *)

(** C2.  The swap strategy does not keep the entity id of a position: it
    exchanges the two gene dictionaries whole.  On the genome
    [e1 at 9, e2 at 10] a firing swap yields [e2 at 10, e1 at 9]: position 0
    held [e1] and now holds [e2], where the claim has [e1] stay and take the
    slot of [e2]. *)
Theorem swap_moves_entity_ids :
  exists r',
    mutate_schedule one_room_ga two_slot_genome (mkRng (tape_of [0; 0; 0]%Z) 0)
    = (Return [mkGene "e2" (Some "Physics") "Mon" "10" "R1" 3;
               mkGene "e1" (Some "Algebra") "Mon" "9" "R1" 1], r')
    /\ cfg_mutation_strategy one_room_ga = "swap"
    /\ option_map entity_id (two_slot_genome !! 0) = Some "e1"
    /\ option_map entity_id
         ([mkGene "e2" (Some "Physics") "Mon" "10" "R1" 3;
           mkGene "e1" (Some "Algebra") "Mon" "9" "R1" 1] !! 0) = Some "e2".
Proof. eexists. repeat split. Qed.

Lemma mutate_schedule_fires (self : ScheduleGA) (g : list Gene) (r r1 : Rng) (u : Q) :
  random_random r = (Return u, r1) ->
  Qlt_bool u (cfg_mutation_prob self) = true ->
  mutate_schedule self g r = apply_strategy self g r1.
Proof.
  intros Hu Hfire. unfold mutate_schedule, bind. rewrite Hu, Hfire. reflexivity.
Qed.

Lemma apply_strategy_swap (self : ScheduleGA) (g : list Gene) :
  cfg_mutation_strategy self = "swap" -> apply_strategy self g = mutate_swap g.
Proof. intros Hs. unfold apply_strategy. rewrite Hs. reflexivity. Qed.

(** X25.  When the swap strategy fires on an individual of at least two
    genes, it picks two distinct positions and exchanges the whole gene
    records found there, entity id included; every other position and the
    length are unchanged. *)
Theorem swap_exchanges_whole_genes (self : ScheduleGA) (individual : list Gene)
    (r r1 : Rng) (u : Q) :
  cfg_mutation_strategy self = "swap" ->
  2 <= length individual ->
  random_random r = (Return u, r1) ->
  Qlt_bool u (cfg_mutation_prob self) = true ->
  exists i j gi gj mutated r',
    mutate_schedule self individual r = (Return mutated, r')
    /\ i <> j
    /\ individual !! i = Some gi /\ individual !! j = Some gj
    /\ mutated !! i = Some gj /\ mutated !! j = Some gi
    /\ (forall p, p <> i -> p <> j -> mutated !! p = individual !! p)
    /\ length mutated = length individual.
Proof.
  intros Hs Hlen Hu Hfire.
  rewrite (mutate_schedule_fires self individual r r1 u Hu Hfire).
  rewrite (apply_strategy_swap self individual Hs).
  unfold mutate_swap. destruct (Nat.leb_spec 2 (length individual)) as [_|]; [|lia].
  unfold bind.
  destruct (random_sample2 (length individual) r1) as [[e|[i j]] r2] eqn:Hsample.
  - exfalso. unfold random_sample2 in Hsample.
    destruct (Nat.ltb_spec (length individual) 2); [lia|].
    unfold bind, randbelow, bind, next_draw, ret in Hsample. discriminate.
  - apply random_sample2_distinct in Hsample as (Hij & Hi & Hj).
    destruct (lookup_lt_is_Some_2 individual i Hi) as [gi Hgi].
    destruct (lookup_lt_is_Some_2 individual j Hj) as [gj Hgj].
    exists i, j, gi, gj. eexists. eexists.
    split; [reflexivity|]. simpl fst. simpl snd.
    unfold swap_genes. rewrite Hgi, Hgj.
    repeat split; try assumption.
    + rewrite list_lookup_insert_ne by auto.
      apply list_lookup_insert_eq. assumption.
    + apply list_lookup_insert_eq. rewrite length_insert. assumption.
    + intros p Hpi Hpj. rewrite !list_lookup_insert_ne by auto. reflexivity.
    + rewrite !length_insert. reflexivity.
Qed.

Lemma swap_exchanges_whole_genes_witness :
  exists i j gi gj mutated r',
    mutate_schedule one_room_ga two_slot_genome (mkRng (tape_of [0; 0; 0]%Z) 0)
    = (Return mutated, r')
    /\ i <> j
    /\ two_slot_genome !! i = Some gi /\ two_slot_genome !! j = Some gj
    /\ mutated !! i = Some gj /\ mutated !! j = Some gi
    /\ (forall p, p <> i -> p <> j -> mutated !! p = two_slot_genome !! p)
    /\ length mutated = length two_slot_genome.
Proof.
  eapply (swap_exchanges_whole_genes one_room_ga two_slot_genome
            (mkRng (tape_of [0; 0; 0]%Z) 0)).
  - reflexivity.
  - simpl. lia.
  - reflexivity.
  - reflexivity.
Defined.

(* ===================================================================== *)
(** ** The genome initialiser *)
(* ===================================================================== *)

Lemma create_genes_spec (self : ScheduleGA) (tp : nat -> Z) (ents : list Entity) :
  self_days self <> [] -> self_time_slots self <> [] -> self_rooms self <> [] ->
  forall c,
    mapM (create_gene self) ents (mkRng tp c)
    = (Return (drawn_genes self tp c ents), mkRng tp (c + 3 * length ents)).
Proof.
  intros Hd Ht Hr. induction ents as [|entity rest IH]; intros c; simpl.
  - unfold ret. rewrite Nat.add_0_r. reflexivity.
  - unfold bind at 1. unfold create_gene. unfold bind at 1.
    rewrite (random_choice_nonempty _ _ "" Hd). unfold bind at 1.
    rewrite (random_choice_nonempty _ _ "" Ht). unfold bind at 1.
    rewrite (random_choice_nonempty _ _ "" Hr). unfold ret at 1.
    simpl tape. simpl cursor. unfold bind at 1.
    replace (S (S (S c))) with (c + 3) by lia. rewrite IH.
    unfold ret, drawn_gene. f_equal.
    + replace (S c) with (c + 1) by lia. replace (S (c + 1)) with (c + 2) by lia.
      reflexivity.
    + f_equal. lia.
Qed.

Lemma drawn_genes_lookup (self : ScheduleGA) (tp : nat -> Z) (ents : list Entity) :
  forall c k entity,
    ents !! k = Some entity ->
    drawn_genes self tp c ents !! k = Some (drawn_gene self tp (c + 3 * k) entity).
Proof.
  induction ents as [|e rest IH]; intros c k entity H; [destruct k; discriminate|].
  destruct k as [|k]; simpl in *.
  - injection H as <-. rewrite Nat.add_0_r. reflexivity.
  - rewrite (IH (c + 3) k entity H). do 2 f_equal. lia.
Qed.

(** C8, with the default the code has.  [create_individual] builds one
    gene per entity in input order; for each gene it reads three separate
    draws, one each for day, time and room, and takes the element at
    position (draw mod length) of the configured list, so that every
    combination of a day, a time and a room is drawn from exactly one
    combination of residues: evenly spread draws give evenly spread,
    mutually independent choices.  The duration is the entity's, and 2
    when the entity has none. *)
Theorem create_individual_spec (self : ScheduleGA) (r : Rng) :
  self_days self <> [] -> self_time_slots self <> [] -> self_rooms self <> [] ->
  let built := drawn_genes self (tape r) (cursor r) (entities self) in
  create_individual self r
  = (Return (mkIndividual built None),
     mkRng (tape r) (cursor r + 3 * length (entities self)))
  /\ map entity_id built = map e_id (entities self)
  /\ map duration built = map (fun e => get (e_duration e) 2%Z) (entities self)
  /\ (forall k entity i j m,
        entities self !! k = Some entity ->
        i < length (self_days self) ->
        j < length (self_time_slots self) ->
        m < length (self_rooms self) ->
        (tape r (cursor r + 3 * k) mod Z.of_nat (length (self_days self)))%Z
        = Z.of_nat i ->
        (tape r (cursor r + 3 * k + 1) mod Z.of_nat (length (self_time_slots self)))%Z
        = Z.of_nat j ->
        (tape r (cursor r + 3 * k + 2) mod Z.of_nat (length (self_rooms self)))%Z
        = Z.of_nat m ->
        built !! k
        = Some (mkGene (e_id entity) (Some (get (e_name entity) (e_id entity)))
                       (nth i (self_days self) "")
                       (nth j (self_time_slots self) "")
                       (nth m (self_rooms self) "")
                       (get (e_duration entity) 2%Z))).
Proof.
  intros Hd Ht Hr built. subst built. split; [|split; [|split]].
  - unfold create_individual, bind. destruct r as [tp c].
    rewrite (create_genes_spec self tp (entities self) Hd Ht Hr c). reflexivity.
  - generalize (cursor r). induction (entities self) as [|e l IH]; intros c; simpl;
      [reflexivity | rewrite IH; reflexivity].
  - generalize (cursor r). induction (entities self) as [|e l IH]; intros c; simpl;
      [reflexivity | rewrite IH; reflexivity].
  - intros k entity i j m Hk Hi Hj Hm Ei Ej Em.
    rewrite (drawn_genes_lookup self (tape r) (entities self) (cursor r) k entity Hk).
    unfold drawn_gene. rewrite Ei, Ej, Em, !Nat2Z.id. reflexivity.
Qed.

Lemma create_individual_spec_witness :
  create_individual one_room_ga (mkRng one_room_tape 6)
  = (Return (mkIndividual
               [mkGene "e1" (Some "e1") "Mon" "10" "R1" 2;
                mkGene "e2" (Some "e2") "Mon" "10" "R1" 2] None),
     mkRng one_room_tape 12).
Proof.
  exact (proj1 (create_individual_spec one_room_ga (mkRng one_room_tape 6)
                  ltac:(discriminate) ltac:(discriminate) ltac:(discriminate))).
Defined.

(** C8 as worded fails on the default: an entity without a duration gets
    a gene of duration 2, not 1. *)
Lemma create_individual_default_duration_is_2 :
  exists ind r',
    create_individual one_room_ga (mkRng one_room_tape 0) = (Return ind, r')
    /\ map e_duration (entities one_room_ga) = [None; None]
    /\ map duration (genes ind) = [2%Z; 2%Z]
    /\ map duration (genes ind) <> [1%Z; 1%Z].
Proof.
  eexists. eexists. split; [vm_compute; reflexivity|].
  repeat split. discriminate.
Qed.

(* ===================================================================== *)
(** ** The round-robin fallback scheduler *)
(* ===================================================================== *)

Lemma cyclic_get_nth (seq : list string) (idx : nat) :
  seq <> [] -> cyclic_get seq idx = Return (nth (idx mod length seq) seq "").
Proof.
  destruct seq as [|x seq]; [congruence|]. intros _. unfold cyclic_get.
  f_equal. apply nth_indep. apply Nat.mod_upper_bound. discriminate.
Qed.

Lemma odometer_position (D T R d t r : nat) :
  t < T -> r < R ->
  let p := (d * T + t) * R + r in
  p / (R * T) = d /\ (p / R) mod T = t /\ p mod R = r.
Proof.
  intros Ht Hr p. subst p.
  assert (H1 : ((d * T + t) * R + r) / R = d * T + t).
  { rewrite Nat.div_add_l by lia. rewrite (Nat.div_small r R) by lia. lia. }
  repeat split.
  - rewrite <- Nat.Div0.div_div, H1.
    rewrite Nat.div_add_l by lia. rewrite (Nat.div_small t T) by lia. lia.
  - rewrite H1. rewrite Nat.add_comm, Nat.Div0.mod_add. apply Nat.mod_small. lia.
  - rewrite Nat.add_comm, Nat.Div0.mod_add. apply Nat.mod_small. lia.
Qed.

Lemma fallback_loop_spec (ds ts rs : list string) (ents : list Entity) :
  ds <> [] -> ts <> [] -> rs <> [] ->
  forall d t r,
    t < length ts -> r < length rs ->
    fallback_loop ds ts rs ents d t r
    = Return (fallback_genes ds ts rs ents ((d * length ts + t) * length rs + r)).
Proof.
  intros Hd Ht Hr. induction ents as [|entity rest IH]; intros d t r Hlt Hlr.
  - reflexivity.
  - simpl fallback_loop. rewrite !cyclic_get_nth by assumption. simpl rbind.
    destruct (odometer_position (length ds) (length ts) (length rs) d t r Hlt Hlr)
      as (P1 & P2 & P3).
    simpl fallback_genes. rewrite P1, P2, P3.
    rewrite (Nat.mod_small t) by assumption. rewrite (Nat.mod_small r) by assumption.
    destruct (Nat.leb_spec (length rs) (r + 1)) as [Hwrap|Hno].
    + destruct (Nat.leb_spec (length ts) (t + 1)) as [Hwrap2|Hno2].
      * rewrite IH by lia. simpl. do 3 f_equal. nia.
      * rewrite IH by lia. simpl. do 3 f_equal. nia.
    + destruct (Nat.leb_spec (length ts) t) as [Hwrap2|Hno2]; [lia|].
      rewrite IH by lia. simpl. do 3 f_equal. lia.
Qed.

Lemma fallback_genes_lookup (ds ts rs : list string) (ents : list Entity) :
  forall p k g,
    fallback_genes ds ts rs ents p !! k = Some g ->
    triple g = slot_triple_at ds ts rs (p + k)
    /\ exists entity, ents !! k = Some entity
                      /\ entity_id g = e_id entity
                      /\ duration g = get (e_duration entity) 1%Z.
Proof.
  induction ents as [|entity rest IH]; intros p k g H; simpl in H.
  - destruct k; discriminate.
  - destruct k as [|k]; simpl in H.
    + injection H as <-. rewrite Nat.add_0_r.
      split; [reflexivity|]. exists entity. auto.
    + apply IH in H. replace (p + S k) with (S p + k) by lia. exact H.
Qed.

Lemma fallback_genes_length (ds ts rs : list string) (ents : list Entity) (p : nat) :
  length (fallback_genes ds ts rs ents p) = length ents.
Proof.
  revert p. induction ents as [|e l IH]; intros p; simpl; [reflexivity|].
  rewrite IH. reflexivity.
Qed.

Lemma fallback_genes_ids (ds ts rs : list string) (ents : list Entity) (p : nat) :
  map entity_id (fallback_genes ds ts rs ents p) = map e_id ents.
Proof.
  revert p. induction ents as [|e l IH]; intros p; simpl; [reflexivity|].
  rewrite IH. reflexivity.
Qed.

Lemma slot_triple_at_injective (ds ts rs : list string) (i j : nat) :
  NoDup ds -> NoDup ts -> NoDup rs ->
  i < length ds * length ts * length rs ->
  j < length ds * length ts * length rs ->
  slot_triple_at ds ts rs i = slot_triple_at ds ts rs j -> i = j.
Proof.
  intros Nd Nt Nr Hi Hj H. unfold slot_triple_at in H.
  set (D := length ds) in *. set (T := length ts) in *. set (R := length rs) in *.
  assert (HR : 0 < R) by (destruct R; lia).
  assert (HT : 0 < T) by (destruct T; [lia | lia]).
  assert (HD : 0 < D) by (destruct D; lia).
  inversion H as [[H1 H2 H3]]. clear H.
  apply NoDup_ListNoDup in Nd, Nt, Nr.
  apply (proj1 (List.NoDup_nth ds "") Nd) in H1;
    [| apply Nat.mod_upper_bound; lia | apply Nat.mod_upper_bound; lia].
  apply (proj1 (List.NoDup_nth ts "") Nt) in H2;
    [| apply Nat.mod_upper_bound; lia | apply Nat.mod_upper_bound; lia].
  apply (proj1 (List.NoDup_nth rs "") Nr) in H3;
    [| apply Nat.mod_upper_bound; lia | apply Nat.mod_upper_bound; lia].
  assert (Bi : i / (R * T) < D).
  { apply Nat.Div0.div_lt_upper_bound. nia. }
  assert (Bj : j / (R * T) < D).
  { apply Nat.Div0.div_lt_upper_bound. nia. }
  rewrite !Nat.mod_small in H1 by assumption.
  rewrite <- !Nat.Div0.div_div in H1.
  pose proof (Nat.div_mod_eq i R) as Ei.
  pose proof (Nat.div_mod_eq j R) as Ej.
  pose proof (Nat.div_mod_eq (i / R) T) as Eqi.
  pose proof (Nat.div_mod_eq (j / R) T) as Eqj.
  assert (i / R = j / R) by congruence.
  congruence.
Qed.

Lemma slot_triple_at_period (ds ts rs : list string) (i : nat) :
  ds <> [] -> ts <> [] -> rs <> [] ->
  slot_triple_at ds ts rs (i + length ds * length ts * length rs)
  = slot_triple_at ds ts rs i.
Proof.
  intros Hd Ht Hr. unfold slot_triple_at.
  set (D := length ds). set (T := length ts). set (R := length rs).
  assert (HR : R <> 0) by (subst R; destruct rs; [congruence | discriminate]).
  assert (HT : T <> 0) by (subst T; destruct ts; [congruence | discriminate]).
  assert (HD : D <> 0) by (subst D; destruct ds; [congruence | discriminate]).
  f_equal; [f_equal|].
  - f_equal. replace (D * T * R) with (D * (R * T)) by lia.
    rewrite Nat.div_add by nia.
    rewrite <- (Nat.Div0.mod_add (i / (R * T)) 1 D). f_equal. lia.
  - f_equal. rewrite Nat.div_add by lia. apply Nat.Div0.mod_add.
  - f_equal. apply Nat.Div0.mod_add.
Qed.

(** C5.  With non-empty resource lists of distinct values the fallback
    scheduler returns one gene per entity in input order; entity [i] gets
    the slot of odometer step [i] with the room changing fastest; the slots
    of any two entities below the capacity D x T x R differ; and entity
    [i + D x T x R] gets the slot of entity [i] again, so the entity at
    index D x T x R repeats the slot of index 0. *)
Theorem fallback_round_robin (ents : list Entity) (cfg : option Config) :
  let ds := fallback_days cfg in
  let ts := fallback_time_slots cfg in
  let rs := fallback_rooms cfg in
  let capacity := length ds * length ts * length rs in
  ds <> [] -> ts <> [] -> rs <> [] ->
  NoDup ds -> NoDup ts -> NoDup rs ->
  exists sched,
    generate_fallback_schedule ents cfg = Return sched
    /\ length sched = length ents
    /\ map entity_id sched = map e_id ents
    /\ (forall i g, sched !! i = Some g -> triple g = slot_triple_at ds ts rs i)
    /\ (forall i j gi gj,
          i < j -> j < Nat.min (length ents) capacity ->
          sched !! i = Some gi -> sched !! j = Some gj ->
          triple gi <> triple gj)
    /\ (forall i gi gi',
          sched !! i = Some gi -> sched !! (i + capacity) = Some gi' ->
          triple gi' = triple gi)
    /\ (forall g0 gc,
          sched !! 0 = Some g0 -> sched !! capacity = Some gc ->
          triple gc = triple g0).
Proof.
  intros ds ts rs capacity Hd Ht Hr Nd Nt Nr.
  assert (HT : 0 < length ts) by (destruct ts; [congruence | simpl; lia]).
  assert (HR : 0 < length rs) by (destruct rs; [congruence | simpl; lia]).
  exists (fallback_genes ds ts rs ents 0).
  assert (Hat : forall i g, fallback_genes ds ts rs ents 0 !! i = Some g ->
                            triple g = slot_triple_at ds ts rs i).
  { intros i g H. apply fallback_genes_lookup in H as [H _]. exact H. }
  assert (Hper : forall i gi gi',
            fallback_genes ds ts rs ents 0 !! i = Some gi ->
            fallback_genes ds ts rs ents 0 !! (i + capacity) = Some gi' ->
            triple gi' = triple gi).
  { intros i gi gi' Hi Hi'. rewrite (Hat _ _ Hi), (Hat _ _ Hi').
    apply slot_triple_at_period; assumption. }
  split; [|split; [|split; [|split; [|split; [|split]]]]].
  - unfold generate_fallback_schedule. fold ds ts rs.
    rewrite (fallback_loop_spec ds ts rs ents Hd Ht Hr 0 0 0 HT HR). reflexivity.
  - apply fallback_genes_length.
  - apply fallback_genes_ids.
  - exact Hat.
  - intros i j gi gj Hij Hj Hi Hgj Heq.
    rewrite (Hat _ _ Hi), (Hat _ _ Hgj) in Heq.
    apply slot_triple_at_injective in Heq; try assumption; fold capacity; lia.
  - exact Hper.
  - intros g0 gc H0 Hc. exact (Hper 0 g0 gc H0 Hc).
Qed.

Lemma fallback_round_robin_witness :
  exists sched,
    generate_fallback_schedule five_entities (Some small_grid) = Return sched
    /\ map triple sched
       = [("Mon", "9", "R1"); ("Mon", "9", "R2"); ("Mon", "10", "R1");
          ("Mon", "10", "R2"); ("Mon", "9", "R1")]
    /\ (forall i j gi gj,
          i < j -> j < 4 -> sched !! i = Some gi -> sched !! j = Some gj ->
          triple gi <> triple gj).
Proof.
  assert (Nd : NoDup (fallback_days (Some small_grid)))
    by (apply NoDup_ListNoDup; repeat constructor; simpl; intuition discriminate).
  assert (Nt : NoDup (fallback_time_slots (Some small_grid)))
    by (apply NoDup_ListNoDup; repeat constructor; simpl; intuition discriminate).
  assert (Nr : NoDup (fallback_rooms (Some small_grid)))
    by (apply NoDup_ListNoDup; repeat constructor; simpl; intuition discriminate).
  destruct (fallback_round_robin five_entities (Some small_grid)
              ltac:(discriminate) ltac:(discriminate) ltac:(discriminate) Nd Nt Nr)
    as (sched & Hrun & _ & _ & _ & Hdistinct & _).
  exists sched. split; [exact Hrun|].
  split; [vm_compute in Hrun; injection Hrun as <-; reflexivity|].
  intros i j gi gj Hij Hj. apply Hdistinct; [exact Hij|].
  vm_compute. vm_compute in Hj. exact Hj.
Defined.

(* ===================================================================== *)
(** ** The advisor adapter *)
(* ===================================================================== *)

Lemma generate_fallback_schedule_returns (ents : list Entity) (cfg : option Config) :
  fallback_days cfg <> [] -> fallback_time_slots cfg <> [] -> fallback_rooms cfg <> [] ->
  generate_fallback_schedule ents cfg
  = Return (fallback_genes (fallback_days cfg) (fallback_time_slots cfg)
                           (fallback_rooms cfg) ents 0).
Proof.
  intros Hd Ht Hr. unfold generate_fallback_schedule.
  rewrite (fallback_loop_spec _ _ _ ents Hd Ht Hr 0 0 0); [reflexivity| |].
  - destruct (fallback_time_slots cfg); [congruence | simpl; lia].
  - destruct (fallback_rooms cfg); [congruence | simpl; lia].
Qed.

Section AdapterProperties.

Variable json_loads : string -> result (list Json).
Variable ents : list Entity.
Variable cfg : option Config.
Variable gs : list Gene.

Hypothesis fallback_ok : generate_fallback_schedule ents cfg = Return gs.

Lemma parse_response_returns (s : string) :
  exists rows, parse_response json_loads s ents cfg = Return rows.
Proof.
  unfold parse_response. rewrite fallback_ok. simpl rbind.
  destruct (json_span s) as [json_str|]; [|simpl; eauto].
  destruct (json_loads json_str) as [e|rows]; [simpl; eauto|].
  simpl rbind. destruct (validate_rows rows) as [e|[|v valid]]; simpl; eauto.
Qed.

Lemma generate_schedule_suggestions_returns (outcome : AdvisorOutcome) :
  exists rows, generate_schedule_suggestions json_loads outcome ents cfg = Return rows.
Proof.
  unfold generate_schedule_suggestions. rewrite fallback_ok. simpl rbind.
  destruct outcome as [|[|fr rest] text]; [simpl; eauto .. |].
  destruct (fr =? 2)%Z; [simpl; eauto|].
  destruct (fr =? 3)%Z; [simpl; eauto|].
  destruct (negb _); [simpl; eauto|].
  destruct text as [| |[|c s]]; [simpl; eauto .. |].
  destruct (parse_response_returns (String c s)) as [rows ->]. simpl. eauto.
Qed.

Lemma parse_response_falls_back (s : string) :
  text_unusable json_loads s ->
  parse_response json_loads s ents cfg = Return (map GeneSlot gs).
Proof.
  intros H. unfold parse_response. rewrite fallback_ok. simpl rbind.
  inversion H; subst;
    repeat match goal with
           | E : json_span _ = _ |- _ => rewrite E; clear E
           | E : json_loads _ = _ |- _ => rewrite E; clear E; simpl rbind
           | E : validate_rows _ = _ |- _ => rewrite E; clear E; simpl rbind
           end; reflexivity.
Qed.

Lemma generate_schedule_suggestions_falls_back (outcome : AdvisorOutcome) :
  advisor_fails json_loads outcome ->
  generate_schedule_suggestions json_loads outcome ents cfg
  = Return (map GeneSlot gs).
Proof.
  intros H. unfold generate_schedule_suggestions. rewrite fallback_ok. simpl rbind.
  destruct outcome as [|[|fr rest] text]; [reflexivity | reflexivity |].
  destruct (Z.eqb_spec fr 2); [reflexivity|].
  destruct (Z.eqb_spec fr 3); [reflexivity|].
  destruct (Z.eqb_spec fr 0) as [->|N0]; [|destruct (Z.eqb_spec fr 1) as [->|N1]];
    simpl negb; cbv iota; try reflexivity.
  all: inversion H; subst; try congruence; try reflexivity.
  all: match goal with
       | U : text_unusable _ ?s |- _ =>
           destruct s as [|c s']; [reflexivity|];
           rewrite (parse_response_falls_back _ U); reflexivity
       end.
Qed.

End AdapterProperties.

(** X26.  With resource lists that are not empty, a failing advisor makes
    [optimize] with method ["gemini"] return the fallback schedule: one
    row per entity, no fitness, an empty history; and whatever the advisor
    does, the call returns and does not raise. *)
Theorem gemini_failure_returns_fallback
    (json_loads : string -> result (list Json)) (self : HybridOptimizer)
    (outcome : AdvisorOutcome) (r : Rng) :
  fallback_days (Some (ho_config self)) <> [] ->
  fallback_time_slots (Some (ho_config self)) <> [] ->
  fallback_rooms (Some (ho_config self)) <> [] ->
  advisor_fails json_loads outcome ->
  exists gs res,
    generate_fallback_schedule (ho_entities self) (Some (ho_config self)) = Return gs
    /\ optimize json_loads self "gemini" outcome r = (Return res, r)
    /\ o_schedule res = map GeneSlot gs
    /\ length (o_schedule res) = length (ho_entities self)
    /\ map entity_id gs = map e_id (ho_entities self)
    /\ o_fitness res = None
    /\ o_history res = []
    /\ o_method res = "gemini"
    /\ (forall any : AdvisorOutcome,
          exists res', optimize json_loads self "gemini" any r = (Return res', r)
                       /\ o_fitness res' = None /\ o_history res' = []).
Proof.
  intros Hd Ht Hr Hfail.
  pose proof (generate_fallback_schedule_returns (ho_entities self)
                (Some (ho_config self)) Hd Ht Hr) as Hfb.
  eexists. eexists. split; [exact Hfb|].
  assert (Hdispatch : forall o, optimize json_loads self "gemini" o
                                 = lift (optimize_with_gemini json_loads self o))
    by reflexivity.
  rewrite Hdispatch. unfold lift, optimize_with_gemini.
  rewrite (generate_schedule_suggestions_falls_back json_loads _ _ _ Hfb outcome Hfail).
  simpl try_except. simpl rbind.
  split; [reflexivity|]. cbn [o_schedule o_fitness o_history o_method].
  split; [reflexivity|].
  split; [rewrite length_map; apply fallback_genes_length|].
  split; [apply fallback_genes_ids|].
  repeat split.
  intros any. rewrite Hdispatch. unfold lift, optimize_with_gemini.
  destruct (generate_schedule_suggestions_returns json_loads _ _ _ Hfb any) as [rows ->].
  simpl. eexists. repeat split.
Qed.

Lemma gemini_failure_returns_fallback_witness :
  exists gs res,
    generate_fallback_schedule five_entities (Some small_grid) = Return gs
    /\ optimize rejecting_decoder small_grid_optimizer "gemini"
         (Response [1%Z] (Text "Sorry, no timetable today.")) (mkRng (tape_of []) 0)
       = (Return res, mkRng (tape_of []) 0)
    /\ o_schedule res = map GeneSlot gs
    /\ length (o_schedule res) = 5
    /\ o_fitness res = None
    /\ o_history res = [].
Proof.
  destruct (gemini_failure_returns_fallback rejecting_decoder small_grid_optimizer
              (Response [1%Z] (Text "Sorry, no timetable today."))
              (mkRng (tape_of []) 0))
    as (gs & res & H1 & H2 & H3 & H4 & _ & H5 & H6 & _).
  - discriminate.
  - discriminate.
  - discriminate.
  - apply fails_text. apply unusable_no_array. vm_compute. reflexivity.
  - exists gs, res. repeat split; assumption.
Defined.

(** C6.  The adapter does raise to its caller.  With days and time slots
    configured but no room, the fallback scheduler takes an index modulo the
    length of the empty room list; the [ZeroDivisionError] passes through
    the handlers of [generate_schedule_suggestions] and of
    [optimize_with_gemini], which only call the fallback scheduler again.
    So with a failing advisor [optimize] with method ["gemini"] returns no
    schedule at all, where the claim has it return one row per entity. *)
Theorem gemini_without_rooms_raises :
  ho_entities no_rooms_optimizer <> []
  /\ generate_fallback_schedule (ho_entities no_rooms_optimizer) (Some no_rooms)
     = Raise ZeroDivisionError
  /\ (forall (json_loads : string -> result (list Json)) (r : Rng),
        optimize json_loads no_rooms_optimizer "gemini" GenerateRaises r
        = (Raise ZeroDivisionError, r))
  /\ (forall r : Rng,
        optimize rejecting_decoder no_rooms_optimizer "gemini"
          (Response [1%Z] (Text "Sorry, no timetable today.")) r
        = (Raise ZeroDivisionError, r)).
Proof.
  split; [discriminate|]. split; [reflexivity|]. split.
  - intros json_loads r. reflexivity.
  - intros r. vm_compute. reflexivity.
Qed.

(* ===================================================================== *)
(** ** Empty resource lists *)
(* ===================================================================== *)

Lemma create_gene_empty_list (self : ScheduleGA) (entity : Entity) (r : Rng) :
  self_days self = [] \/ self_time_slots self = [] \/ self_rooms self = [] ->
  exists r', create_gene self entity r = (Raise IndexError, r')
             /\ tape r' = tape r /\ cursor r <= cursor r' <= cursor r + 2.
Proof.
  intros H. unfold create_gene, bind.
  destruct (self_days self) as [|d ds] eqn:Ed.
  { exists r. simpl. repeat split; lia. }
  rewrite (random_choice_nonempty _ _ "") by discriminate.
  destruct (self_time_slots self) as [|t ts] eqn:Et.
  { eexists. simpl. split; [reflexivity|]. simpl. split; [reflexivity | lia]. }
  rewrite (random_choice_nonempty _ _ "") by discriminate.
  destruct (self_rooms self) as [|x xs] eqn:Er.
  { eexists. simpl. split; [reflexivity|]. simpl. split; [reflexivity | lia]. }
  exfalso. destruct H as [H|[H|H]]; discriminate.
Qed.

Lemma evolve_empty_list (self : ScheduleGA) (r : Rng) :
  self_days self = [] \/ self_time_slots self = [] \/ self_rooms self = [] ->
  entities self <> [] ->
  (1 <= cfg_population_size self)%Z ->
  exists r', evolve self r = (Raise IndexError, r')
             /\ tape r' = tape r /\ cursor r <= cursor r' <= cursor r + 2.
Proof.
  intros H He Hn.
  destruct (entities self) as [|entity rest] eqn:Ee; [congruence|].
  destruct (create_gene_empty_list self entity r H) as (r' & Hg & Ht & Hc).
  exists r'. split; [|split; assumption].
  unfold evolve, toolbox_population.
  destruct (Z.to_nat (cfg_population_size self)) as [|n] eqn:En; [lia|].
  simpl repeatM. unfold create_individual. rewrite Ee. simpl mapM.
  unfold bind. rewrite Hg. reflexivity.
Qed.

Lemma optimize_genetic (json_loads : string -> result (list Json))
    (self : HybridOptimizer) (outcome : AdvisorOutcome) :
  optimize json_loads self "genetic" outcome = optimize_with_ga self.
Proof. reflexivity. Qed.

Lemma optimize_hybrid_method (json_loads : string -> result (list Json))
    (self : HybridOptimizer) (outcome : AdvisorOutcome) :
  optimize json_loads self "hybrid" outcome = optimize_hybrid json_loads self outcome.
Proof. reflexivity. Qed.

(** C7, as the code has it.  There is no validation of the resource
    lists.  With an empty days, time_slots or rooms list, at least one
    entity and a population size of at least 1, [optimize] with method
    ["genetic"] or ["hybrid"] ends in the [IndexError] of [random.choice],
    raised while the first gene of the first individual is drawn: at most
    two draws have been read, no individual exists and no fitness has been
    evaluated. *)
Theorem empty_resource_list_raises_in_first_gene
    (json_loads : string -> result (list Json)) (self : HybridOptimizer)
    (method : string) (outcome : AdvisorOutcome) (r : Rng) :
  days (ho_config self) = Some [] \/ time_slots (ho_config self) = Some []
  \/ rooms (ho_config self) = Some [] ->
  ho_entities self <> [] ->
  (1 <= get (population_size (ho_config self)) 100)%Z ->
  method = "genetic" \/ method = "hybrid" ->
  exists r',
    optimize json_loads self method outcome r = (Raise IndexError, r')
    /\ tape r' = tape r /\ cursor r <= cursor r' <= cursor r + 2.
Proof.
  intros Hempty Hents Hpop Hm.
  destruct (evolve_empty_list
              (ScheduleGA_init (ho_entities self) (ho_constraints self)
                               (Some (ho_config self))) r)
    as (r' & Hev & Ht & Hc).
  - unfold ScheduleGA_init. simpl.
    destruct Hempty as [H|[H|H]]; rewrite H; simpl; auto.
  - exact Hents.
  - unfold cfg_population_size, ScheduleGA_init, item. simpl.
    destruct (population_size (ho_config self)); simpl in *; exact Hpop.
  - exists r'. split; [|split; assumption].
    destruct Hm as [-> | ->].
    + rewrite optimize_genetic. unfold optimize_with_ga, bind. cbv beta zeta.
      rewrite Hev. reflexivity.
    + rewrite optimize_hybrid_method. unfold optimize_hybrid, bind. cbv beta zeta.
      rewrite Hev. reflexivity.
Qed.

Lemma empty_resource_list_raises_in_first_gene_witness :
  exists r',
    optimize rejecting_decoder (mkHybridOptimizer five_entities [] no_days) "genetic"
      GenerateRaises (mkRng one_room_tape 0) = (Raise IndexError, r')
    /\ tape r' = one_room_tape /\ 0 <= cursor r' <= 0 + 2.
Proof.
  apply (empty_resource_list_raises_in_first_gene rejecting_decoder
           (mkHybridOptimizer five_entities [] no_days) "genetic" GenerateRaises
           (mkRng one_room_tape 0)).
  - left. reflexivity.
  - discriminate.
  - simpl. lia.
  - left. reflexivity.
Defined.

(** C7 as worded fails: with an empty [days] list and no entity, [optimize]
    raises nothing, with method ["genetic"] as with method ["gemini"]. *)
Lemma empty_days_without_entities_returns :
  days no_days = Some []
  /\ (exists res r',
        optimize rejecting_decoder (mkHybridOptimizer [] [] no_days) "genetic"
          GenerateRaises (mkRng one_room_tape 0) = (Return res, r'))
  /\ (exists res r',
        optimize rejecting_decoder (mkHybridOptimizer [] [] no_days) "gemini"
          GenerateRaises (mkRng one_room_tape 0) = (Return res, r')).
Proof.
  split; [reflexivity|]. split; eexists; eexists; vm_compute; reflexivity.
Qed.

(* ===================================================================== *)
(** * Further properties of the checkers *)
(* ===================================================================== *)

Lemma same_slot_sym (a b : Gene) : same_slot a b = same_slot b a.
Proof.
  unfold same_slot.
  rewrite (String.eqb_sym (day a)), (String.eqb_sym (time_ a)), (String.eqb_sym (room a)).
  reflexivity.
Qed.

Lemma filter_length_perm {A} (f : A -> bool) (l l' : list A) :
  Permutation l l' -> length (List.filter f l) = length (List.filter f l').
Proof.
  induction 1 as [|x l l' _ IH|x y l|l l' l'' _ IH1 _ IH2]; simpl.
  - reflexivity.
  - destruct (f x); simpl; rewrite IH; reflexivity.
  - destruct (f x), (f y); reflexivity.
  - congruence.
Qed.

Lemma filter_perm {A} (f : A -> bool) (l l' : list A) :
  Permutation l l' -> Permutation (List.filter f l) (List.filter f l').
Proof.
  induction 1 as [|x l l' _ IH|x y l|l l' l'' _ IH1 _ IH2]; simpl.
  - constructor.
  - destruct (f x); [constructor|]; exact IH.
  - destruct (f x), (f y); try reflexivity. constructor.
  - etransitivity; eassumption.
Qed.

Lemma check_overlaps_perm (l l' : list Gene) :
  Permutation l l' -> check_overlaps l = check_overlaps l'.
Proof.
  induction 1 as [|x l l' Hp IH|x y l|l l' l'' _ IH1 _ IH2].
  - reflexivity.
  - rewrite !check_overlaps_cons, IH, (filter_length_perm _ _ _ Hp). reflexivity.
  - rewrite !check_overlaps_cons. simpl. rewrite (same_slot_sym x y).
    destruct (same_slot y x); simpl; lia.
  - congruence.
Qed.

Lemma no_sharer_iff (x : Gene) (rest : list Gene) :
  length (List.filter (same_slot x) rest) = 0 <-> ~ In (triple x) (map triple rest).
Proof.
  induction rest as [|y rest IH]; simpl; [tauto|].
  destruct (same_slot x y) eqn:E.
  - apply same_slot_triple in E. simpl. split; [lia | intros H; exfalso; auto].
  - assert (triple y <> triple x).
    { intros H. symmetry in H. apply same_slot_triple in H. congruence. }
    tauto.
Qed.

Lemma no_overlap_distinct (l : list Gene) :
  check_overlaps l = 0 -> List.NoDup (map triple l).
Proof.
  induction l as [|x rest IH]; simpl map; [constructor|].
  rewrite check_overlaps_cons. intros H.
  constructor; [apply no_sharer_iff; lia | apply IH; lia].
Qed.

Lemma distinct_no_overlap (l : list Gene) :
  List.NoDup (map triple l) -> check_overlaps l = 0.
Proof.
  induction l as [|x rest IH]; simpl map; [reflexivity|].
  rewrite check_overlaps_cons. intros H. inversion H; subst.
  match goal with N : ~ In _ _ |- _ => apply no_sharer_iff in N; rewrite N end.
  rewrite IH by assumption. reflexivity.
Qed.

(** X1.  The overlap count of an individual is zero exactly when no two
    of its genes share a (day, time, room) slot. *)
Theorem check_overlaps_zero_iff (individual : list Gene) :
  check_overlaps individual = 0 <-> List.NoDup (map triple individual).
Proof.
  split; [apply no_overlap_distinct | apply distinct_no_overlap].
Qed.

Lemma map_combine_map {A B C} (f : A -> B) (g : A * B -> C) (l : list A) :
  map g (combine l (map f l)) = map (fun k => g (k, f k)) l.
Proof. induction l as [|x l IH]; simpl; [reflexivity | rewrite IH; reflexivity]. Qed.

Lemma count_days_closed (keys : list string) (individual : list Gene) :
  count_days keys individual
  = if forallb (fun s => str_in (day s) keys) individual
    then Return (map (day_count individual) keys)
    else Raise KeyError.
Proof.
  induction individual as [|slot rest IH]; simpl.
  - f_equal.
  - destruct (str_in (day slot) keys); simpl; [|reflexivity].
    rewrite IH. destruct (forallb _ rest); simpl; [|reflexivity].
    f_equal. rewrite map_combine_map. apply map_ext. intros k.
    unfold day_count. simpl. destruct (String.eqb k (day slot)); reflexivity.
Qed.

Lemma forallb_perm {A} (f : A -> bool) (l l' : list A) :
  Permutation l l' -> forallb f l = forallb f l'.
Proof.
  induction 1 as [|x l l' _ IH|x y l|l l' l'' _ IH1 _ IH2]; simpl.
  - reflexivity.
  - rewrite IH. reflexivity.
  - destruct (f x), (f y); reflexivity.
  - congruence.
Qed.

Lemma check_balance_perm (self : ScheduleGA) (l l' : list Gene) :
  Permutation l l' -> check_balance self l = check_balance self l'.
Proof.
  intros Hp. unfold check_balance. rewrite !count_days_closed.
  rewrite (forallb_perm _ _ _ Hp).
  replace (map (day_count l') (dict_keys (self_days self) []))
    with (map (day_count l) (dict_keys (self_days self) [])); [reflexivity|].
  apply map_ext. intros d. unfold day_count. apply filter_length_perm. exact Hp.
Qed.

Lemma rmap_perm {A B} (f : A -> result B) (e0 : exn) (l l' : list A) :
  (forall x e, f x = Raise e -> e = e0) ->
  Permutation l l' ->
  (rmap f l = Raise e0 /\ rmap f l' = Raise e0)
  \/ exists a b, rmap f l = Return a /\ rmap f l' = Return b /\ Permutation a b.
Proof.
  intros Hf. induction 1 as [|x l l' _ IH|x y l|l l' l'' _ IH1 _ IH2]; simpl.
  - right. exists [], []. auto.
  - destruct (f x) as [e|v] eqn:Ex; simpl.
    + apply Hf in Ex. subst. auto.
    + destruct IH as [[-> ->]|(a & b & -> & -> & Hab)]; simpl; [auto|].
      right. exists (v :: a), (v :: b). auto.
  - destruct (f x) as [e|v] eqn:Ex, (f y) as [e'|w] eqn:Ey; simpl;
      try (apply Hf in Ex; subst); try (apply Hf in Ey; subst); auto.
    destruct (rmap f l) as [e|a] eqn:El; simpl.
    + assert (exists z, f z = Raise e) as [z Hz].
      { clear - El. induction l as [|z l IH]; simpl in El; [discriminate|].
        destruct (f z) as [e1|v1] eqn:Ez; simpl in El.
        - inversion El; subst. eauto.
        - destruct (rmap f l) as [e2|a2]; simpl in El; [|discriminate].
          inversion El; subst. apply IH. reflexivity. }
      apply Hf in Hz. subst. auto.
    + right. exists (w :: v :: a), (v :: w :: a). repeat split. constructor.
  - destruct IH1 as [[H1 H2]|(a & b & H1 & H2 & Hab)],
             IH2 as [[H3 H4]|(c & d & H3 & H4 & Hcd)]; try congruence; auto.
    right. exists a, d. repeat split; try assumption.
    rewrite H2 in H3. inversion H3; subst. etransitivity; eassumption.
Qed.

Lemma insert_key_comm (a b : nat) (l : list nat) :
  insert_key a (insert_key b l) = insert_key b (insert_key a l).
Proof.
  induction l as [|x l IH]; simpl.
  - destruct (Nat.leb_spec a b), (Nat.leb_spec b a); try reflexivity; try lia.
    replace a with b by lia. reflexivity.
  - destruct (Nat.leb_spec b x), (Nat.leb_spec a x); simpl.
    + destruct (Nat.leb_spec a b), (Nat.leb_spec b a); simpl;
        repeat match goal with
               | |- context [?u <=? ?v] => destruct (Nat.leb_spec u v); try lia
               end; try reflexivity.
      replace a with b by lia. reflexivity.
    + repeat match goal with
             | |- context [?u <=? ?v] => destruct (Nat.leb_spec u v); try lia
             end; reflexivity.
    + repeat match goal with
             | |- context [?u <=? ?v] => destruct (Nat.leb_spec u v); try lia
             end; reflexivity.
    + repeat match goal with
             | |- context [?u <=? ?v] => destruct (Nat.leb_spec u v); try lia
             end. rewrite IH. reflexivity.
Qed.

Lemma sort_keys_perm (a b : list nat) :
  Permutation a b -> fold_right insert_key [] a = fold_right insert_key [] b.
Proof.
  induction 1 as [|x l l' _ IH|x y l|l l' l'' _ IH1 _ IH2]; simpl.
  - reflexivity.
  - rewrite IH. reflexivity.
  - apply insert_key_comm.
  - congruence.
Qed.

Lemma index_of_Raise (seq : list string) (t : string) (e : exn) :
  index_of seq t = Raise e -> e = ValueError.
Proof.
  induction seq as [|x seq IH]; simpl; [intros H; inversion H; reflexivity|].
  destruct (String.eqb x t); [discriminate|].
  destruct (index_of seq t); simpl; [|discriminate].
  intros H. inversion H; subst. apply IH. reflexivity.
Qed.

Lemma sorted_time_indices_perm (self : ScheduleGA) (l l' : list Gene) :
  Permutation l l' -> sorted_time_indices self l = sorted_time_indices self l'.
Proof.
  intros Hp. unfold sorted_time_indices.
  destruct (rmap_perm (fun s => index_of (self_time_slots self) (time_ s)) ValueError l l')
    as [[-> ->]|(a & b & -> & -> & Hab)]; [| exact Hp | reflexivity |].
  - intros x e. apply index_of_Raise.
  - simpl. rewrite (sort_keys_perm _ _ Hab). reflexivity.
Qed.

Lemma rmap_ext {A B} (f g : A -> result B) (l : list A) :
  (forall x, f x = g x) -> rmap f l = rmap g l.
Proof.
  intros H. induction l as [|x l IH]; simpl; [reflexivity|]. rewrite H, IH. reflexivity.
Qed.

Lemma check_consecutive_preference_perm (self : ScheduleGA) (c : Constraint)
    (l l' : list Gene) :
  Permutation l l' ->
  check_consecutive_preference self l c = check_consecutive_preference self l' c.
Proof.
  intros Hp. unfold check_consecutive_preference, on_day. cbv zeta. f_equal.
  apply rmap_ext. intros d.
  rewrite (sorted_time_indices_perm self _ _
             (filter_perm _ _ _ (filter_perm (is_target (c_entity_id c)) _ _ Hp))).
  reflexivity.
Qed.

Lemma check_gaps_perm (self : ScheduleGA) (l l' : list Gene) :
  Permutation l l' -> check_gaps self l = check_gaps self l'.
Proof.
  intros Hp. unfold check_gaps, on_day. f_equal. apply rmap_ext. intros d.
  rewrite (sorted_time_indices_perm self _ _ (filter_perm _ _ _ Hp)). reflexivity.
Qed.

Lemma check_room_capacity_perm (ents : list Entity) (cfg : Config) (l l' : list Gene) :
  Permutation l l' -> check_room_capacity ents cfg l = check_room_capacity ents cfg l'.
Proof.
  intros Hp. rewrite !check_room_capacity_spec. apply filter_length_perm. exact Hp.
Qed.

Lemma apply_hard_perm (self : ScheduleGA) (l l' : list Gene) (score : Q) (c : Constraint) :
  Permutation l l' -> apply_hard self l score c = apply_hard self l' score c.
Proof.
  intros Hp. unfold apply_hard, check_availability.
  rewrite (check_overlaps_perm _ _ Hp), (check_room_capacity_perm _ _ _ _ Hp).
  rewrite (filter_length_perm _ _ _ Hp). reflexivity.
Qed.

Lemma apply_soft_perm (self : ScheduleGA) (l l' : list Gene) (score : Q) (c : Constraint) :
  Permutation l l' -> apply_soft self l score c = apply_soft self l' score c.
Proof.
  intros Hp. unfold apply_soft, check_preferred_times.
  rewrite (check_balance_perm _ _ _ Hp), (check_consecutive_preference_perm _ _ _ _ Hp).
  rewrite (check_gaps_perm _ _ _ Hp), (filter_length_perm _ _ _ Hp). reflexivity.
Qed.

Lemma fold_hard_perm (self : ScheduleGA) (individual individual' : list Gene) :
  Permutation individual individual' ->
  forall cs score,
    fold_left (apply_hard self individual) cs score
    = fold_left (apply_hard self individual') cs score.
Proof.
  intros Hp. induction cs as [|c cs IH]; intros score; simpl; [reflexivity|].
  rewrite (apply_hard_perm _ _ _ _ _ Hp). apply IH.
Qed.

Lemma rfold_soft_perm (self : ScheduleGA) (individual individual' : list Gene) :
  Permutation individual individual' ->
  forall cs score,
    rfold (apply_soft self individual) score cs
    = rfold (apply_soft self individual') score cs.
Proof.
  intros Hp. induction cs as [|c cs IH]; intros score; simpl; [reflexivity|].
  rewrite (apply_soft_perm _ _ _ _ _ Hp).
  destruct (apply_soft self individual' score c); simpl; [reflexivity | apply IH].
Qed.

(** X2.  The fitness of an individual depends only on which genes it
    holds, not on their order: permuting the genes changes neither the
    score nor the exception. *)
Theorem evaluate_fitness_permutation (self : ScheduleGA) (individual individual' : list Gene) :
  Permutation individual individual' ->
  evaluate_fitness self individual = evaluate_fitness self individual'.
Proof.
  intros Hp. unfold evaluate_fitness.
  rewrite (fold_hard_perm self _ _ Hp), (rfold_soft_perm self _ _ Hp).
  reflexivity.
Qed.

Lemma evaluate_fitness_permutation_witness :
  evaluate_fitness one_room_ga two_slot_genome
  = evaluate_fitness one_room_ga (rev two_slot_genome).
Proof.
  apply evaluate_fitness_permutation. apply Permutation_rev.
Defined.

Lemma insert_perm_cons {A} (l : list A) (j : nat) (g x : A) :
  l !! j = Some g -> Permutation (g :: <[j := x]> l) (x :: l).
Proof.
  revert j. induction l as [|y l IH]; intros [|j] H; simpl in *; try discriminate.
  - injection H as ->. constructor.
  - etransitivity; [apply perm_swap|].
    etransitivity; [apply perm_skip, (IH j H)|]. apply perm_swap.
Qed.

Lemma swap_genes_perm (l : list Gene) (i j : nat) :
  Permutation (swap_genes l i j) l.
Proof.
  unfold swap_genes.
  destruct (l !! i) as [gi|] eqn:Hi; [|reflexivity].
  destruct (l !! j) as [gj|] eqn:Hj; [|reflexivity].
  revert i j Hi Hj. induction l as [|x l IH]; intros [|i] [|j] Hi Hj;
    simpl in *; try discriminate.
  - injection Hi as ->. injection Hj as ->. reflexivity.
  - injection Hi as ->. apply insert_perm_cons. exact Hj.
  - injection Hj as ->. apply insert_perm_cons. exact Hi.
  - constructor. apply IH; assumption.
Qed.

(** X3.  Under the [swap] strategy a mutation never changes the fitness of
    the individual it mutates: the swapped genome is a rearrangement of the
    same genes. *)
Theorem swap_mutation_keeps_fitness (self : ScheduleGA) (g g' : list Gene) (r r' : Rng) :
  cfg_mutation_strategy self = "swap" ->
  mutate_schedule self g r = (Return g', r') ->
  Permutation g' g /\ evaluate_fitness self g' = evaluate_fitness self g.
Proof.
  intros Hs H.
  assert (Hp : Permutation g' g).
  { unfold mutate_schedule in H. inv_bind H.
    destruct (Qlt_bool _ _); [|inv_ret H; reflexivity].
    rewrite (apply_strategy_swap self g Hs) in H. unfold mutate_swap in H.
    destruct (2 <=? length g); [|inv_ret H; reflexivity].
    inv_bind H. inv_ret H. apply swap_genes_perm. }
  split; [exact Hp|]. unfold evaluate_fitness.
  rewrite (fold_hard_perm self _ _ Hp), (rfold_soft_perm self _ _ Hp).
  reflexivity.
Qed.

Lemma swap_mutation_keeps_fitness_witness :
  exists g' r',
    mutate_schedule one_room_ga two_slot_genome (mkRng (tape_of [0; 0; 0]%Z) 0)
    = (Return g', r')
    /\ g' <> two_slot_genome
    /\ Permutation g' two_slot_genome
    /\ evaluate_fitness one_room_ga g' = evaluate_fitness one_room_ga two_slot_genome.
Proof.
  assert (H : mutate_schedule one_room_ga two_slot_genome (mkRng (tape_of [0; 0; 0]%Z) 0)
              = (Return (rev two_slot_genome), mkRng (tape_of [0; 0; 0]%Z) 3))
    by (vm_compute; reflexivity).
  exists (rev two_slot_genome), (mkRng (tape_of [0; 0; 0]%Z) 3).
  split; [exact H|]. split; [discriminate|].
  exact (swap_mutation_keeps_fitness one_room_ga two_slot_genome _ _ _ eq_refl H).
Defined.

(* ===================================================================== *)
(** * Further properties of the fitness evaluator *)
(* ===================================================================== *)

Lemma Qmax_l (a b : Q) : (b <= Qmax a b)%Q.
Proof.
  unfold Qmax. destruct (Qlt_bool a b) eqn:E; [apply Qle_refl|].
  destruct (Qlt_le_dec a b) as [H|H]; [|exact H].
  apply Qlt_bool_iff in H. congruence.
Qed.

Lemma Qmax_r (a b : Q) : (a <= Qmax a b)%Q.
Proof.
  unfold Qmax. destruct (Qlt_bool a b) eqn:E; [|apply Qle_refl].
  apply Qlt_bool_iff in E. apply Qlt_le_weak. exact E.
Qed.

Lemma Qmax_lub (a b c : Q) : (a <= c)%Q -> (b <= c)%Q -> (Qmax a b <= c)%Q.
Proof. intros Ha Hb. unfold Qmax. destruct (Qlt_bool a b); assumption. Qed.


Lemma apply_soft_ignores (self : ScheduleGA) (individual : list Gene) (score : Q)
    (c : Constraint) :
  is_soft_type c = false -> apply_soft self individual score c = Return score.
Proof.
  unfold is_soft_type, apply_soft. intros H.
  apply orb_false_elim in H as [H H4]. apply orb_false_elim in H as [H H3].
  apply orb_false_elim in H as [H1 H2]. rewrite H1, H2, H3, H4. reflexivity.
Qed.

Lemma rfold_soft_ignores (self : ScheduleGA) (individual : list Gene) (cs : list Constraint) :
  forallb (fun c => negb (is_soft_type c)) cs = true ->
  forall score, rfold (apply_soft self individual) score cs = Return score.
Proof.
  induction cs as [|c cs IH]; simpl; intros H score; [reflexivity|].
  apply andb_true_iff in H as [Hc Hcs]. apply negb_true_iff in Hc.
  rewrite (apply_soft_ignores _ _ _ _ Hc). simpl. apply IH. exact Hcs.
Qed.

Lemma Qnat_nonneg (n : nat) : (0 <= Qnat n)%Q.
Proof. unfold Qnat, Qle. simpl. lia. Qed.

Lemma apply_hard_le (self : ScheduleGA) (individual : list Gene) (score : Q)
    (c : Constraint) :
  (0 <= item (weight_no_overlap (config self)) (100 # 1))%Q ->
  (0 <= item (weight_room_capacity (config self)) (80 # 1))%Q ->
  (0 <= item (weight_availability (config self)) (90 # 1))%Q ->
  (apply_hard self individual score c <= score)%Q.
Proof.
  intros H1 H2 H3. unfold apply_hard.
  assert (G : forall n w, (0 <= w)%Q -> (score - Qnat n * w <= score)%Q).
  { intros n w Hw.
    assert (0 <= Qnat n * w)%Q by (apply Qmult_le_0_compat; [apply Qnat_nonneg | exact Hw]).
    apply Qle_trans with (y := (score + 0)%Q);
      [|rewrite Qplus_0_r; apply Qle_refl].
    unfold Qminus. apply Qplus_le_r.
    change 0%Q with (- 0)%Q. apply Qopp_le_compat. assumption. }
  destruct (String.eqb _ "no_overlap"); [apply G; assumption|].
  destruct (String.eqb _ "room_capacity"); [apply G; assumption|].
  destruct (String.eqb _ "availability"); [apply G; assumption|].
  apply Qle_refl.
Qed.

(** X4.  When no constraint is of a preference type and the three hard
    weights are not negative, evaluation cannot fail and the fitness lies
    between 0 and the baseline 1000. *)
Theorem hard_constraints_only_penalise (self : ScheduleGA) (individual : list Gene) :
  forallb (fun c => negb (is_soft_type c)) (constraints self) = true ->
  (0 <= item (weight_no_overlap (config self)) (100 # 1))%Q ->
  (0 <= item (weight_room_capacity (config self)) (80 # 1))%Q ->
  (0 <= item (weight_availability (config self)) (90 # 1))%Q ->
  exists f, evaluate_fitness self individual = Return f
            /\ (0 <= f)%Q /\ (f <= 1000 # 1)%Q.
Proof.
  intros Hsoft H1 H2 H3. unfold evaluate_fitness.
  rewrite (rfold_soft_ignores self individual _ Hsoft). simpl rbind.
  eexists. split; [reflexivity|]. split; [apply Qmax_l|].
  assert (Hh : forall cs score, (score <= 1000 # 1)%Q ->
             (fold_left (apply_hard self individual) cs score <= 1000 # 1)%Q).
  { induction cs as [|c cs IH]; intros score Hs; simpl; [exact Hs|].
    apply IH. eapply Qle_trans; [apply apply_hard_le; assumption | exact Hs]. }
  specialize (Hh (constraints self) (1000 # 1) (Qle_refl _)).
  set (score := fold_left (apply_hard self individual) (constraints self) (1000 # 1)) in *.
  apply Qmax_lub; [|discriminate].
  destruct (String.eqb _ _); [|exact Hh].
  destruct (Qlt_bool score 0) eqn:Eneg; [|exact Hh].
  apply Qle_shift_div_r.
  - apply Qlt_le_trans with (y := (1 + 0)%Q); [reflexivity|].
    apply Qplus_le_r. apply Qabs_nonneg.
  - apply Qle_trans with (y := ((1000 # 1) * (1 + 0))%Q); [discriminate|].
    apply Qmult_le_l; [reflexivity|].
    apply Qplus_le_r. apply Qabs_nonneg.
Qed.

Lemma hard_constraints_only_penalise_witness :
  exists f, evaluate_fitness hard_only_ga two_slot_genome = Return f
            /\ (0 <= f)%Q /\ (f <= 1000 # 1)%Q.
Proof.
  apply (hard_constraints_only_penalise hard_only_ga two_slot_genome).
  - reflexivity.
  - vm_compute. discriminate.
  - vm_compute. discriminate.
  - vm_compute. discriminate.
Defined.

Lemma str_in_In (x : string) (l : list string) : str_in x l = true <-> In x l.
Proof.
  unfold str_in. rewrite existsb_exists. split.
  - intros (y & Hy & E). apply String.eqb_eq in E. subst. exact Hy.
  - intros H. exists x. split; [exact H | apply String.eqb_refl].
Qed.

Lemma index_of_In (seq : list string) (t : string) :
  In t seq -> exists i, index_of seq t = Return i /\ i < length seq.
Proof.
  induction seq as [|x seq IH]; simpl; [tauto|].
  intros H. destruct (String.eqb_spec x t) as [->|Hne].
  - exists 0. split; [reflexivity | lia].
  - destruct H as [H|H]; [contradiction|].
    destruct (IH H) as (i & -> & Hi). exists (S i). split; [reflexivity | lia].
Qed.

Lemma rmap_returns {A B} (f : A -> result B) (l : list A) :
  (forall x, In x l -> exists y, f x = Return y) -> exists ys, rmap f l = Return ys.
Proof.
  induction l as [|x l IH]; intros H; simpl; [eauto|].
  destruct (H x (or_introl eq_refl)) as [y ->].
  destruct IH as [ys ->]; [intros; apply H; right; assumption|].
  simpl. eauto.
Qed.

Lemma sorted_time_indices_returns (self : ScheduleGA) (slots : list Gene) :
  Forall (fun g => In (time_ g) (self_time_slots self)) slots ->
  exists idxs, sorted_time_indices self slots = Return idxs.
Proof.
  intros H. unfold sorted_time_indices.
  destruct (rmap_returns (fun s => index_of (self_time_slots self) (time_ s)) slots)
    as [ks ->].
  - intros x Hx. destruct (index_of_In _ _ (Forall_In _ _ _ H Hx)) as (i & Hi & _). eauto.
  - simpl. eauto.
Qed.

Lemma Forall_filter_incl {A} (P : A -> Prop) (f : A -> bool) (l : list A) :
  Forall P l -> Forall P (List.filter f l).
Proof.
  induction 1 as [|x l Hx _ IH]; simpl; [constructor|].
  destruct (f x); [constructor|]; assumption.
Qed.

Lemma dict_keys_nonempty (ds seen : list string) (d : string) :
  In d ds -> ~ In d seen -> dict_keys ds seen <> [].
Proof.
  revert seen. induction ds as [|x ds IH]; intros seen Hd Hs; simpl; [destruct Hd|].
  destruct (str_in x seen) eqn:E; [|discriminate].
  apply str_in_In in E. destruct Hd as [->|Hd]; [contradiction|].
  apply IH; assumption.
Qed.

Lemma dict_keys_In (ds seen : list string) (d : string) :
  In d (dict_keys ds seen) <-> In d ds /\ ~ In d seen.
Proof.
  revert seen. induction ds as [|x ds IH]; intros seen; simpl; [tauto|].
  destruct (str_in x seen) eqn:E.
  - apply str_in_In in E. rewrite IH. split.
    + intros [H1 H2]. auto.
    + intros [[->|H1] H2]; [contradiction | auto].
  - assert (Hx : ~ In x seen) by (intros H; apply str_in_In in H; congruence).
    simpl. rewrite IH. simpl. split.
    + intros [->|[H1 H2]]; [auto|]. split; [auto | tauto].
    + intros [[->|H1] H2]; [auto|].
      destruct (String.eqb_spec x d) as [->|Hne]; [auto|]. right. split; [auto|].
      intros [H|H]; [congruence | contradiction].
Qed.

Lemma check_balance_returns (self : ScheduleGA) (individual : list Gene) :
  self_days self <> [] ->
  Forall (fun g => In (day g) (self_days self)) individual ->
  check_balance self individual
  = Return (100 / (1 + np_var (map (day_count individual)
                                   (dict_keys (self_days self) []))))%Q
  /\ dict_keys (self_days self) [] <> [].
Proof.
  intros Hd Hall.
  assert (Hk : dict_keys (self_days self) [] <> []).
  { destruct (self_days self) as [|d ds]; [congruence|].
    apply (dict_keys_nonempty _ _ d); [left; reflexivity | intros []]. }
  split; [|exact Hk].
  unfold check_balance. rewrite count_days_closed.
  replace (forallb _ individual) with true.
  - simpl rbind. destruct (dict_keys (self_days self) []); [congruence | reflexivity].
  - symmetry. apply forallb_forall. intros g Hg. apply str_in_In.
    apply dict_keys_In. split; [exact (Forall_In _ _ _ Hall Hg) | intros []].
Qed.

Lemma evaluate_in_grid_returns (self : ScheduleGA) (individual : list Gene) :
  self_days self <> [] ->
  in_grid self individual ->
  exists f, evaluate_fitness self individual = Return f.
Proof.
  intros Hd Hgrid.
  assert (Hday : Forall (fun g => In (day g) (self_days self)) individual).
  { eapply List.Forall_impl; [|exact Hgrid]. intros g Hg. apply Hg. }
  assert (Htime : Forall (fun g => In (time_ g) (self_time_slots self)) individual).
  { eapply List.Forall_impl; [|exact Hgrid]. intros g Hg. apply Hg. }
  assert (Hsoft : forall c score, exists score',
             apply_soft self individual score c = Return score').
  { intros c score. unfold apply_soft.
    destruct (String.eqb _ "preferred_time"); [eauto|].
    destruct (String.eqb _ "balanced_distribution").
    { rewrite (proj1 (check_balance_returns self individual Hd Hday)). simpl. eauto. }
    destruct (String.eqb _ "consecutive_slots").
    { unfold check_consecutive_preference.
      destruct (rmap_returns
                  (fun d => let+ idxs := sorted_time_indices self
                                           (on_day d (List.filter
                                                        (is_target (c_entity_id c))
                                                        individual))
                            in Return (count_adjacent idxs)) (self_days self))
        as [per_day ->]; [|simpl; eauto].
      intros d _.
      destruct (sorted_time_indices_returns self
                  (on_day d (List.filter (is_target (c_entity_id c)) individual)))
        as [idxs ->]; [|simpl; eauto].
      unfold on_day. do 2 apply Forall_filter_incl. exact Htime. }
    destruct (String.eqb _ "minimize_gaps"); [|eauto].
    unfold check_gaps.
    destruct (rmap_returns
                (fun d => let+ idxs := sorted_time_indices self (on_day d individual)
                          in Return (sum_gaps idxs)) (self_days self))
      as [per_day ->]; [|simpl; eauto].
    intros d _.
    destruct (sorted_time_indices_returns self (on_day d individual))
      as [idxs ->]; [|simpl; eauto].
    unfold on_day. apply Forall_filter_incl. exact Htime. }
  assert (Hfold : forall cs score, exists score',
             rfold (apply_soft self individual) score cs = Return score').
  { induction cs as [|c cs IH]; intros score; simpl; [eauto|].
    destruct (Hsoft c score) as [s' ->]. simpl. apply IH. }
  unfold evaluate_fitness.
  destruct (Hfold (constraints self)
              (fold_left (apply_hard self individual) (constraints self) (1000 # 1)))
    as [score' ->].
  simpl. eexists. reflexivity.
Qed.

(** X5.  On a genome whose days and times all come from the configured
    lists, and with at least one configured day, [evaluate_fitness] returns
    a score: no checker can fail. *)
Theorem evaluate_fitness_total_in_grid (self : ScheduleGA) (individual : list Gene) :
  self_days self <> [] ->
  in_grid self individual ->
  exists f, evaluate_fitness self individual = Return f /\ (0 <= f)%Q.
Proof.
  intros Hd Hgrid.
  destruct (evaluate_in_grid_returns self individual Hd Hgrid) as [f Hf].
  exists f. split; [exact Hf|].
  unfold evaluate_fitness in Hf.
  apply rbind_Return in Hf as (score & _ & Hf).
  inversion Hf. apply Qmax_l.
Qed.

Lemma evaluate_fitness_total_in_grid_witness :
  exists f, evaluate_fitness all_constraints_ga two_slot_genome = Return f /\ (0 <= f)%Q.
Proof.
  apply (evaluate_fitness_total_in_grid all_constraints_ga two_slot_genome).
  - discriminate.
  - unfold in_grid, gene_in_grid. repeat apply List.Forall_cons; try apply List.Forall_nil;
      simpl; intuition reflexivity.
Defined.

(* ===================================================================== *)
(** * The balance score *)
(* ===================================================================== *)

Lemma Qsquare_nonneg (x : Q) : (0 <= x * x)%Q.
Proof. unfold Qle, Qmult. simpl. nia. Qed.

Lemma Qsquare_zero (x : Q) : (x * x == 0)%Q -> (x == 0)%Q.
Proof. intros H. apply Qmult_integral in H. tauto. Qed.

Lemma Qsum_nonneg (l : list Q) : Forall (fun x => 0 <= x)%Q l -> (0 <= Qsum l)%Q.
Proof.
  induction 1 as [|x l Hx _ IH]; simpl; [apply Qle_refl|].
  change 0%Q with (0 + 0)%Q. apply Qplus_le_compat; assumption.
Qed.

Lemma Qsum_zero (l : list Q) :
  Forall (fun x => 0 <= x)%Q l -> (Qsum l == 0)%Q -> Forall (fun x => x == 0)%Q l.
Proof.
  induction 1 as [|x l Hx Hl IH]; simpl; intros H; [constructor|].
  pose proof (Qsum_nonneg l Hl) as Hs.
  assert (Hx0 : (x == 0)%Q).
  { apply Qle_antisym; [|exact Hx].
    apply Qle_trans with (y := (x + Qsum l)%Q); [|rewrite H; apply Qle_refl].
    apply Qle_trans with (y := (x + 0)%Q); [rewrite Qplus_0_r; apply Qle_refl|].
    apply Qplus_le_r. exact Hs. }
  constructor; [exact Hx0|]. apply IH.
  rewrite Hx0, Qplus_0_l in H. exact H.
Qed.

Lemma Qsum_all_zero (l : list Q) : Forall (fun x => x == 0)%Q l -> (Qsum l == 0)%Q.
Proof.
  induction 1 as [|x l Hx _ IH]; simpl; [reflexivity|]. rewrite Hx, IH. reflexivity.
Qed.

Lemma Qnat_succ (n : nat) : (Qnat (S n) == Qnat n + 1)%Q.
Proof. unfold Qnat. rewrite Nat2Z.inj_succ. unfold Qeq, Qplus. simpl. lia. Qed.

Lemma Qsum_const (l : list Q) (c : Q) :
  Forall (fun x => x == c)%Q l -> (Qsum l == Qnat (length l) * c)%Q.
Proof.
  induction 1 as [|x l Hx _ IH]; simpl Qsum; simpl length.
  - unfold Qnat. simpl. ring.
  - rewrite Hx, IH, Qnat_succ. ring.
Qed.

Lemma Qnat_pos (n : nat) : 0 < n -> (0 < Qnat n)%Q.
Proof. intros H. unfold Qnat, Qlt. simpl. lia. Qed.

Lemma Qnat_inj (a b : nat) : (Qnat a == Qnat b)%Q -> a = b.
Proof. unfold Qnat, Qeq. simpl. lia. Qed.

Lemma np_var_nonneg (values : list nat) : values <> [] -> (0 <= np_var values)%Q.
Proof.
  intros Hne. unfold np_var.
  apply Qle_shift_div_l.
  - apply Qnat_pos. destruct values; [congruence | simpl; lia].
  - rewrite Qmult_0_l. apply Qsum_nonneg.
    apply List.Forall_forall. intros q Hq. apply in_map_iff in Hq as (x & <- & _).
    apply Qsquare_nonneg.
Qed.

Lemma np_var_zero_iff (values : list nat) :
  values <> [] -> ((np_var values == 0)%Q <-> all_equal values).
Proof.
  intros Hne.
  assert (Hn : (0 < Qnat (length values))%Q)
    by (apply Qnat_pos; destruct values; [congruence | simpl; lia]).
  assert (Hn0 : ~ (Qnat (length values) == 0)%Q)
    by (intros E; rewrite E in Hn; discriminate).
  unfold np_var. fold (Qnat (length values)).
  set (xs := map (fun v => inject_Z (Z.of_nat v)) values).
  set (mean := (Qsum xs / Qnat (length values))%Q).
  set (devs := map (fun x => (x - mean) * (x - mean))%Q xs).
  assert (Hnonneg : Forall (fun x => 0 <= x)%Q devs).
  { apply List.Forall_forall. intros q Hq. apply in_map_iff in Hq as (x & <- & _).
    apply Qsquare_nonneg. }
  split.
  - intros Hv.
    assert (Hs : (Qsum devs == 0)%Q).
    { assert (E : (Qsum devs == (Qsum devs / Qnat (length values))
                                 * Qnat (length values))%Q) by (field; exact Hn0).
      rewrite E, Hv. ring. }
    pose proof (Qsum_zero devs Hnonneg Hs) as Hz.
    assert (Hmean : forall v, In v values -> (Qnat v == mean)%Q).
    { intros v Hv'.
      assert (Hd : In ((Qnat v - mean) * (Qnat v - mean))%Q devs).
      { unfold devs, xs. rewrite map_map. apply in_map_iff. exists v. auto. }
      pose proof (Forall_In _ _ _ Hz Hd) as Hq. simpl in Hq.
      apply Qsquare_zero in Hq.
      assert (E : (Qnat v == (Qnat v - mean) + mean)%Q) by ring.
      rewrite E, Hq. ring. }
    intros x y Hx Hy. apply Qnat_inj. rewrite (Hmean x Hx), (Hmean y Hy). reflexivity.
  - intros Heq.
    assert (exists c, forall v, In v values -> v = c) as [c Hc].
    { destruct values as [|c rest]; [congruence|]. exists c.
      intros v Hv. apply Heq; [exact Hv | left; reflexivity]. }
    assert (Hxs : Forall (fun x => x == Qnat c)%Q xs).
    { apply List.Forall_forall. intros q Hq. apply in_map_iff in Hq as (v & <- & Hv).
      rewrite (Hc v Hv). reflexivity. }
    assert (Hmean : (mean == Qnat c)%Q).
    { unfold mean. rewrite (Qsum_const xs (Qnat c) Hxs).
      unfold xs. rewrite length_map. field. exact Hn0. }
    assert (Hdev : Forall (fun x => x == 0)%Q devs).
    { apply List.Forall_forall. intros q Hq. apply in_map_iff in Hq as (x & <- & Hx).
      rewrite (Forall_In _ _ _ Hxs Hx), Hmean. ring. }
    rewrite (Qsum_all_zero devs Hdev). field. exact Hn0.
Qed.

Lemma check_balance_Return (self : ScheduleGA) (individual : list Gene) (b : Q) :
  check_balance self individual = Return b ->
  dict_keys (self_days self) [] <> []
  /\ b = (100 / (1 + np_var (map (day_count individual)
                                 (dict_keys (self_days self) []))))%Q.
Proof.
  unfold check_balance. rewrite count_days_closed.
  destruct (forallb _ individual); simpl; [|discriminate].
  destruct (dict_keys (self_days self) []) as [|k ks]; simpl; [discriminate|].
  intros H. inversion H. split; [discriminate | reflexivity].
Qed.

(** X6.  When at least one day is configured, a balance score that
    [check_balance] returns lies in (0, 100], and it is 100 exactly when
    every configured day holds the same number of genes. *)
Theorem check_balance_range (self : ScheduleGA) (individual : list Gene) (b : Q) :
  self_days self <> [] ->
  check_balance self individual = Return b ->
  (0 < b)%Q /\ (b <= 100 # 1)%Q
  /\ ((b == 100 # 1)%Q
      <-> forall d d', In d (self_days self) -> In d' (self_days self) ->
                       day_count individual d = day_count individual d').
Proof.
  intros _ H. apply check_balance_Return in H as [Hk ->].
  set (counts := map (day_count individual) (dict_keys (self_days self) [])).
  assert (Hc : counts <> []).
  { unfold counts. destruct (dict_keys (self_days self) []); [congruence | discriminate]. }
  pose proof (np_var_nonneg counts Hc) as Hv.
  assert (Hpos : (0 < 1 + np_var counts)%Q).
  { apply Qlt_le_trans with (y := (1 + 0)%Q); [reflexivity|]. apply Qplus_le_r. exact Hv. }
  assert (Hne : ~ (1 + np_var counts == 0)%Q).
  { intros E. rewrite E in Hpos. discriminate. }
  split; [|split].
  - apply Qlt_shift_div_l; [exact Hpos|]. rewrite Qmult_0_l. reflexivity.
  - apply Qle_shift_div_r; [exact Hpos|].
    apply Qle_trans with (y := ((100 # 1) * (1 + 0))%Q); [discriminate|].
    apply Qmult_le_l; [reflexivity|]. apply Qplus_le_r. exact Hv.
  - assert (Hiff : (100 / (1 + np_var counts) == 100 # 1)%Q <-> (np_var counts == 0)%Q).
    { split; intros E.
      - assert (E1 : ((100 # 1) == (100 / (1 + np_var counts)) * (1 + np_var counts))%Q)
          by (field; exact Hne).
        rewrite E in E1.
        assert (E2 : (np_var counts == ((100 # 1) * (1 + np_var counts) - (100 # 1)) / (100 # 1))%Q)
          by (field).
        rewrite E2, <- E1. reflexivity.
      - rewrite E. reflexivity. }
    rewrite Hiff, (np_var_zero_iff counts Hc). unfold all_equal, counts. split.
    + intros Heq d d' Hd Hd'. apply Heq; apply in_map, dict_keys_In; auto.
    + intros Heq x y Hx Hy.
      apply in_map_iff in Hx as (d & <- & Hd). apply in_map_iff in Hy as (d' & <- & Hd').
      apply dict_keys_In in Hd as [Hd _]. apply dict_keys_In in Hd' as [Hd' _].
      apply Heq; assumption.
Qed.

Lemma check_balance_range_witness :
  exists b, check_balance all_constraints_ga two_slot_genome = Return b
            /\ (0 < b)%Q /\ (b <= 100 # 1)%Q.
Proof.
  eexists. split; [vm_compute; reflexivity|].
  destruct (check_balance_range all_constraints_ga two_slot_genome _
              ltac:(discriminate) ltac:(vm_compute; reflexivity)) as (H1 & H2 & _).
  split; assumption.
Defined.

(* ===================================================================== *)
(** * Further properties of mutation *)
(* ===================================================================== *)

Lemma random_randint_returns (a b : Z) (r : Rng) :
  (a <= b)%Z ->
  exists x, random_randint a b r = (Return x, mkRng (tape r) (S (cursor r)))
            /\ (a <= x <= b)%Z.
Proof.
  intros H. unfold random_randint. destruct (Z.leb_spec (b - a + 1) 0); [lia|].
  unfold bind, randbelow, bind, next_draw, ret. eexists. split; [reflexivity|].
  pose proof (Z.mod_pos_bound (tape r (cursor r)) (b - a + 1) ltac:(lia)). lia.
Qed.

Lemma random_randint_empty (a b : Z) (r : Rng) :
  (b < a)%Z -> random_randint a b r = (Raise ValueError, r).
Proof.
  intros H. unfold random_randint. destruct (Z.leb_spec (b - a + 1) 0); [reflexivity | lia].
Qed.

Lemma random_choice_returns {A} (seq : list A) (r : Rng) :
  seq <> [] ->
  exists x, random_choice seq r = (Return x, mkRng (tape r) (S (cursor r))) /\ In x seq.
Proof.
  intros H. destruct seq as [|y seq]; [congruence|].
  rewrite (random_choice_nonempty _ r y) by discriminate.
  eexists. split; [reflexivity|]. apply nth_In.
  pose proof (Z.mod_pos_bound (tape r (cursor r)) (Z.of_nat (length (y :: seq)))
                ltac:(simpl length; lia)) as Hb.
  lia.
Qed.

Lemma update_gene_insert (l : list Gene) (i : nat) (f : Gene -> Gene) (g : Gene) :
  l !! i = Some g -> update_gene l i f = <[i := f g]> l.
Proof. intros H. unfold update_gene. rewrite H. reflexivity. Qed.

(** X7.  The [shift] strategy rewrites one gene in one of its three slot
    fields with a value of the matching configured list and leaves every
    other field and gene as it was; it returns whenever the genome and the
    three lists are not empty, and on an empty genome it raises
    [ValueError]. *)
Theorem mutate_shift_changes_one_field (self : ScheduleGA) (g : list Gene) (r : Rng) :
  (forall g' r',
     mutate_shift self g r = (Return g', r') ->
     exists idx old new,
       g !! idx = Some old /\ g' = <[idx := new]> g
       /\ (only_day_changed (self_days self) old new
           \/ only_time_changed (self_time_slots self) old new
           \/ only_room_changed (self_rooms self) old new))
  /\ (g <> [] -> self_days self <> [] -> self_time_slots self <> [] ->
      self_rooms self <> [] ->
      exists g' r', mutate_shift self g r = (Return g', r'))
  /\ (g = [] -> mutate_shift self g r = (Raise ValueError, r)).
Proof.
  split; [|split].
  - intros g' r' H. unfold mutate_shift in H. inv_bind H. inv_bind H.
    apply random_randint_range in Hstep.
    destruct (lookup_lt_is_Some_2 g (Z.to_nat a)) as [old Hold]; [lia|].
    exists (Z.to_nat a), old.
    destruct (String.eqb a0 "day"); [|destruct (String.eqb a0 "time")];
      inv_bind H; inv_ret H; rewrite (update_gene_insert _ _ _ _ Hold);
      apply random_choice_In in Hstep1;
      eexists; (split; [exact Hold|]); (split; [reflexivity|]).
    + left. split; [reflexivity | exact Hstep1].
    + right; left. split; [reflexivity | exact Hstep1].
    + right; right. split; [reflexivity | exact Hstep1].
  - intros Hg Hd Ht Hr. unfold mutate_shift, bind.
    destruct (random_randint_returns 0 (Z.of_nat (length g) - 1) r) as (idx & -> & _).
    { destruct g; [congruence | simpl length; lia]. }
    destruct (random_choice_returns ["day"; "time"; "room"]
                (mkRng (tape r) (S (cursor r)))) as (mt & -> & _); [discriminate|].
    destruct (String.eqb mt "day"); [|destruct (String.eqb mt "time")].
    + destruct (random_choice_returns (self_days self)
                  (mkRng (tape r) (S (S (cursor r)))) Hd) as (v & Hv & _).
      simpl tape in *. simpl cursor in *. rewrite Hv. unfold ret. eauto.
    + destruct (random_choice_returns (self_time_slots self)
                  (mkRng (tape r) (S (S (cursor r)))) Ht) as (v & Hv & _).
      simpl tape in *. simpl cursor in *. rewrite Hv. unfold ret. eauto.
    + destruct (random_choice_returns (self_rooms self)
                  (mkRng (tape r) (S (S (cursor r)))) Hr) as (v & Hv & _).
      simpl tape in *. simpl cursor in *. rewrite Hv. unfold ret. eauto.
  - intros ->. unfold mutate_shift, bind. simpl length.
    rewrite random_randint_empty by lia. reflexivity.
Qed.

Lemma mutate_shift_changes_one_field_witness :
  exists g' r' idx old new,
    mutate_shift shift_ga two_slot_genome (mkRng (tape_of [1; 0; 1]%Z) 0) = (Return g', r')
    /\ two_slot_genome !! idx = Some old /\ g' = <[idx := new]> two_slot_genome
    /\ (only_day_changed (self_days shift_ga) old new
        \/ only_time_changed (self_time_slots shift_ga) old new
        \/ only_room_changed (self_rooms shift_ga) old new).
Proof.
  assert (H : mutate_shift shift_ga two_slot_genome (mkRng (tape_of [1; 0; 1]%Z) 0)
              = (Return [mkGene "e1" (Some "Algebra") "Mon" "9" "R1" 1;
                         mkGene "e2" (Some "Physics") "Tue" "10" "R1" 3],
                 mkRng (tape_of [1; 0; 1]%Z) 3)) by (vm_compute; reflexivity).
  destruct (proj1 (mutate_shift_changes_one_field shift_ga two_slot_genome
                     (mkRng (tape_of [1; 0; 1]%Z) 0)) _ _ H)
    as (idx & old & new & H1 & H2 & H3).
  eexists. eexists. exists idx, old, new. split; [exact H|]. auto.
Defined.

Lemma update_gene_after_insert (l : list Gene) (i : nat) (f : Gene -> Gene) (x : Gene) :
  i < length l -> update_gene (<[i := x]> l) i f = <[i := f x]> l.
Proof.
  intros H. unfold update_gene. rewrite list_lookup_insert_eq by exact H.
  apply list_insert_insert_eq.
Qed.

(** X8.  The [random] strategy replaces the day, the time and the room of
    one gene by values of the configured lists and keeps that gene's entity,
    name and duration and every other gene; it returns whenever the genome
    and the three lists are not empty, and on an empty genome it raises
    [ValueError]. *)
Theorem mutate_random_reassigns_one_gene (self : ScheduleGA) (g : list Gene) (r : Rng) :
  (forall g' r',
     mutate_random self g r = (Return g', r') ->
     exists idx old d t rm,
       g !! idx = Some old
       /\ g' = <[idx := mkGene (entity_id old) (entity_name old) d t rm (duration old)]> g
       /\ In d (self_days self) /\ In t (self_time_slots self) /\ In rm (self_rooms self))
  /\ (g <> [] -> self_days self <> [] -> self_time_slots self <> [] ->
      self_rooms self <> [] ->
      exists g' r', mutate_random self g r = (Return g', r'))
  /\ (g = [] -> mutate_random self g r = (Raise ValueError, r)).
Proof.
  split; [|split].
  - intros g' r' H. unfold mutate_random in H.
    inv_bind H. inv_bind H. inv_bind H. inv_bind H. inv_ret H.
    apply random_randint_range in Hstep.
    assert (Hlt : Z.to_nat a < length g) by lia.
    destruct (lookup_lt_is_Some_2 g (Z.to_nat a) Hlt) as [old Hold].
    exists (Z.to_nat a), old, a0, a1, a2.
    apply random_choice_In in Hstep0, Hstep1, Hstep2.
    split; [exact Hold|]. split; [|auto].
    rewrite (update_gene_insert _ _ _ _ Hold).
    rewrite update_gene_after_insert by exact Hlt.
    rewrite update_gene_after_insert by exact Hlt. reflexivity.
  - intros Hg Hd Ht Hr. unfold mutate_random, bind.
    destruct (random_randint_returns 0 (Z.of_nat (length g) - 1) r) as (idx & -> & _).
    { destruct g; [congruence | simpl length; lia]. }
    destruct (random_choice_returns (self_days self)
                (mkRng (tape r) (S (cursor r))) Hd) as (d & -> & _).
    destruct (random_choice_returns (self_time_slots self)
                (mkRng (tape r) (S (S (cursor r)))) Ht) as (t & Hv & _).
    simpl tape in *. simpl cursor in *. rewrite Hv.
    destruct (random_choice_returns (self_rooms self)
                (mkRng (tape r) (S (S (S (cursor r))))) Hr) as (rm & Hv' & _).
    simpl tape in *. simpl cursor in *. rewrite Hv'. unfold ret. eauto.
  - intros ->. unfold mutate_random, bind. simpl length.
    rewrite random_randint_empty by lia. reflexivity.
Qed.

Lemma mutate_random_reassigns_one_gene_witness :
  exists g' r' idx old d t rm,
    mutate_random random_ga two_slot_genome (mkRng (tape_of [0; 1; 1; 1]%Z) 0)
    = (Return g', r')
    /\ two_slot_genome !! idx = Some old
    /\ g' = <[idx := mkGene (entity_id old) (entity_name old) d t rm (duration old)]>
              two_slot_genome
    /\ In d (self_days random_ga) /\ In t (self_time_slots random_ga)
    /\ In rm (self_rooms random_ga).
Proof.
  assert (H : mutate_random random_ga two_slot_genome (mkRng (tape_of [0; 1; 1; 1]%Z) 0)
              = (Return [mkGene "e1" (Some "Algebra") "Tue" "10" "R2" 1;
                         mkGene "e2" (Some "Physics") "Mon" "10" "R1" 3],
                 mkRng (tape_of [0; 1; 1; 1]%Z) 4)) by (vm_compute; reflexivity).
  destruct (proj1 (mutate_random_reassigns_one_gene random_ga two_slot_genome
                     (mkRng (tape_of [0; 1; 1; 1]%Z) 0)) _ _ H)
    as (idx & old & d & t & rm & H1 & H2 & H3).
  eexists. eexists. exists idx, old, d, t, rm. split; [exact H|]. auto.
Defined.

(** X9.  Whatever the strategy, a mutation that returns keeps the length
    of the genome and the entity ids it holds, each as often as before. *)
Theorem mutate_schedule_keeps_entities (self : ScheduleGA) (g g' : list Gene) (r r' : Rng) :
  mutate_schedule self g r = (Return g', r') ->
  length g' = length g /\ Permutation (map entity_id g') (map entity_id g).
Proof.
  intros H. unfold mutate_schedule in H. inv_bind H.
  destruct (Qlt_bool _ _); [|inv_ret H; auto].
  unfold apply_strategy in H.
  destruct (String.eqb _ "swap").
  { unfold mutate_swap in H. destruct (2 <=? length g); [|inv_ret H; auto].
    inv_bind H. inv_ret H. split; [apply swap_genes_length|].
    apply Permutation_map. apply swap_genes_perm. }
  destruct (String.eqb _ "shift").
  { apply mutate_shift_keeps in H as [H1 H2]. rewrite H2. auto. }
  destruct (String.eqb _ "random").
  { apply mutate_random_keeps in H as [H1 H2]. rewrite H2. auto. }
  inv_ret H. auto.
Qed.

Lemma mutate_schedule_keeps_entities_witness :
  exists g' r',
    mutate_schedule one_room_ga two_slot_genome (mkRng (tape_of [0; 0; 0]%Z) 0)
    = (Return g', r')
    /\ length g' = length two_slot_genome
    /\ Permutation (map entity_id g') (map entity_id two_slot_genome).
Proof.
  assert (H : mutate_schedule one_room_ga two_slot_genome (mkRng (tape_of [0; 0; 0]%Z) 0)
              = (Return (rev two_slot_genome), mkRng (tape_of [0; 0; 0]%Z) 3))
    by (vm_compute; reflexivity).
  eexists. eexists. split; [exact H|].
  exact (mutate_schedule_keeps_entities one_room_ga _ _ _ _ H).
Defined.

(* ===================================================================== *)
(** * Further properties of the evolution loop *)
(* ===================================================================== *)

Lemma generation_inv (self : ScheduleGA) (gen : nat) (st st' : LoopState)
    (brk : bool) (r r' : Rng) :
  generation self gen st r = (Return (st', brk), r') ->
  exists pop record,
    evaluate_population self (population st) = Return pop
    /\ stats_compile gen pop = Return record
    /\ hof st' = hof_update (hof st) pop
    /\ history st' = (history st ++ [record])%list
    /\ brk = Qle_bool (1000 # 1) (max_fitness record)
    /\ (brk = true -> population st' = pop /\ r' = r)
    /\ (brk = false ->
        exists off1 off2 off3 r1 r2,
          selTournament pop (length pop) (cfg_tournament_size self) r = (Return off1, r1)
          /\ crossover_pairs self off1 r1 = (Return off2, r2)
          /\ mutate_all self off2 r2 = (Return off3, r')
          /\ population st'
             = (firstn (length off3 - elite_count self pop) off3
                ++ selBest pop (elite_count self pop))%list).
Proof.
  intros H. unfold generation in H.
  inv_bind H. apply lift_Return in Hstep as [Hev ->].
  inv_bind H. apply lift_Return in Hstep as [Hst ->].
  exists a, a0. split; [exact Hev|]. split; [exact Hst|].
  destruct (Qle_bool _ _) eqn:Eb.
  - inv_ret H. inversion E; subst. simpl.
    split; [reflexivity|]. split; [reflexivity|]. split; [reflexivity|].
    split; [auto | discriminate].
  - inv_bind H. inv_bind H. inv_bind H. inv_ret H. inversion E; subst. simpl.
    split; [reflexivity|]. split; [reflexivity|]. split; [reflexivity|].
    split; [discriminate|]. intros _.
    do 5 eexists. repeat split; try eassumption; reflexivity.
Qed.

Lemma evaluate_population_length (self : ScheduleGA) (pop pop' : list Individual) :
  evaluate_population self pop = Return pop' -> length pop' = length pop.
Proof.
  intros H. apply evaluate_population_genes in H. symmetry.
  eapply Forall2_length. exact H.
Qed.

Lemma insert_best_length (x : Individual) (l : list Individual) :
  length (insert_best x l) = S (length l).
Proof.
  induction l as [|y l IH]; simpl; [reflexivity|].
  destruct (fitness_gt _ _); simpl; [rewrite IH|]; reflexivity.
Qed.

Lemma selBest_length (l : list Individual) (k : nat) :
  length (selBest l k) = Nat.min k (length l).
Proof.
  unfold selBest. rewrite length_take. f_equal.
  induction l as [|x l IH]; simpl; [reflexivity|]. rewrite insert_best_length, IH.
  reflexivity.
Qed.

Lemma generation_population_length (self : ScheduleGA) (gen : nat)
    (st st' : LoopState) (brk : bool) (r r' : Rng) :
  generation self gen st r = (Return (st', brk), r') ->
  length (population st') = length (population st).
Proof.
  intros H. apply generation_inv in H
    as (pop & record & Hev & _ & _ & _ & _ & Htrue & Hfalse).
  apply evaluate_population_length in Hev.
  destruct brk.
  - destruct (Htrue eq_refl) as [-> _]. exact Hev.
  - destruct (Hfalse eq_refl) as (off1 & off2 & off3 & r1 & r2 & Hsel & Hcx & Hmut & ->).
    apply selTournament_In in Hsel as [_ Hl1].
    apply (crossover_pairs_ok self (fun _ => True) ltac:(intros; auto) (length off1))
      in Hcx as [_ Hl2]; [|lia|apply In_Forall; auto].
    apply (mutate_all_ok self (fun _ => True) ltac:(intros; auto)) in Hmut as [_ Hl3];
      [|apply In_Forall; auto].
    rewrite length_app, length_take, selBest_length. lia.
Qed.

Lemma evolve_loop_population_length (self : ScheduleGA) (k : nat) :
  forall gen st0 st r r',
    evolve_loop self k gen st0 r = (Return st, r') ->
    length (population st) = length (population st0).
Proof.
  induction k as [|k IH]; intros gen st0 st r r' H; simpl in H.
  - inv_ret H. reflexivity.
  - inv_bind H. destruct a as [st1 brk]. simpl in H.
    apply generation_population_length in Hstep.
    destruct brk; [inv_ret H; exact Hstep|].
    rewrite <- Hstep. eapply IH. exact H.
Qed.

(** X10.  The population keeps its size through every generation: after
    any number of generations it still has the [population_size] individuals
    it was created with. *)
Theorem population_size_is_kept (self : ScheduleGA) (k : nat)
    (pop : list Individual) (st : LoopState) (r0 r1 r2 : Rng) :
  toolbox_population self (cfg_population_size self) r0 = (Return pop, r1) ->
  evolve_loop self k 0 (initial_state pop) r1 = (Return st, r2) ->
  length (population st) = Z.to_nat (cfg_population_size self).
Proof.
  intros Hpop Hloop.
  apply toolbox_population_positional in Hpop as [_ Hlen].
  apply evolve_loop_population_length in Hloop. simpl in Hloop. congruence.
Qed.

Lemma population_size_is_kept_witness :
  exists st r2,
    evolve_loop one_room_ga 2 0 (initial_state one_room_population)
      (mkRng one_room_tape 12) = (Return st, r2)
    /\ length (population st) = 2.
Proof.
  destruct (evolve_loop one_room_ga 2 0 (initial_state one_room_population)
              (mkRng one_room_tape 12)) as [[e|st] r2] eqn:H;
    [vm_compute in H; discriminate|].
  exists st, r2. split; [reflexivity|].
  exact (population_size_is_kept one_room_ga 2 one_room_population st
           (mkRng one_room_tape 0) (mkRng one_room_tape 12) r2 eq_refl H).
Defined.

Lemma stats_compile_generation (gen : nat) (pop : list Individual) (record : HistoryEntry) :
  stats_compile gen pop = Return record -> h_generation record = gen.
Proof.
  unfold stats_compile. destruct (fitness_values pop); [discriminate|].
  intros H. inversion H. reflexivity.
Qed.

Lemma Qle_bool_false (a b : Q) : Qle_bool a b = false -> (b < a)%Q.
Proof.
  intros H. apply Qnot_le_lt. intros Hle. apply Qle_bool_iff in Hle. congruence.
Qed.

Lemma evolve_loop_history (self : ScheduleGA) (n : nat) :
  forall gen st st' r r',
    evolve_loop self n gen st r = (Return st', r') ->
    exists hs,
      history st' = (history st ++ hs)%list
      /\ map h_generation hs = seq gen (length hs)
      /\ length hs <= n
      /\ (1 <= n -> 1 <= length hs)
      /\ (forall i h, hs !! i = Some h -> S i < length hs ->
                      (max_fitness h < 1000 # 1)%Q)
      /\ (length hs < n ->
          exists h, hs !! (length hs - 1) = Some h /\ (1000 # 1 <= max_fitness h)%Q).
Proof.
  induction n as [|n IH]; intros gen st st' r r' H.
  - simpl in H. inv_ret H. exists []. rewrite app_nil_r.
    repeat split; simpl; try lia; intros; discriminate.
  - rewrite evolve_loop_unfold in H.
    destruct (generation self gen st r) as [[e|[st1 brk]] r1] eqn:Hgen; [discriminate|].
    pose proof (generation_inv _ _ _ _ _ _ _ Hgen)
      as (pop & record & _ & Hst & _ & Hh & Hb & _ & _).
    apply stats_compile_generation in Hst.
    destruct brk.
    + inversion H; subst st' r'. exists [record].
      split; [exact Hh|]. split; [simpl; rewrite Hst; reflexivity|].
      split; [simpl; lia|]. split; [simpl; lia|].
      split; [intros i h _ Hi; simpl in Hi; lia|].
      intros _. exists record. split; [reflexivity|].
      apply Qle_bool_iff. symmetry. exact Hb.
    + apply IH in H as (hs & Hhs & Hgen' & Hlen & _ & Hlow & Hstop).
      exists (record :: hs).
      split; [rewrite Hhs, Hh, <- app_assoc; reflexivity|].
      split; [simpl; rewrite Hst, Hgen'; reflexivity|].
      split; [simpl; lia|]. split; [simpl; lia|].
      split.
      * intros [|i] h Hi Hlt; simpl in *.
        -- injection Hi as <-. apply Qle_bool_false. symmetry. exact Hb.
        -- apply (Hlow i h Hi). lia.
      * intros Hlt. simpl in Hlt.
        destruct Hstop as (h & Hh' & Hmax); [lia|].
        exists h. split; [|exact Hmax].
        destruct hs as [|h0 hs']; [discriminate|].
        simpl in *. rewrite Nat.sub_0_r in *. exact Hh'.
Qed.

(** X11.  When at least one day is configured, the history that [evolve]
    returns has one entry per generation that ran, numbered 0, 1, 2, ...
    without a gap; there is at least one entry and at most [generations];
    every entry but the last has a maximum below 1000; and when fewer than
    [generations] entries exist the last one has a maximum of at least 1000
    (the early stop). *)
Theorem evolve_history_shape (self : ScheduleGA) (r r' : Rng) (res : GAResult) :
  self_days self <> [] ->
  evolve self r = (Return res, r') ->
  let hs := result_history res in
  map h_generation hs = seq 0 (length hs)
  /\ 1 <= length hs <= Z.to_nat (cfg_generations self)
  /\ (forall i h, hs !! i = Some h -> S i < length hs -> (max_fitness h < 1000 # 1)%Q)
  /\ (length hs < Z.to_nat (cfg_generations self) ->
      exists h, hs !! (length hs - 1) = Some h /\ (1000 # 1 <= max_fitness h)%Q).
Proof.
  intros _ H hs. unfold evolve in H. inv_bind H. inv_bind H.
  apply lift_Return in H as [Hfin ->].
  assert (Hn : 1 <= Z.to_nat (cfg_generations self)).
  { destruct (Z.to_nat (cfg_generations self)); [|lia].
    simpl in Hstep0. inv_ret Hstep0. discriminate. }
  apply evolve_loop_history in Hstep0 as (hs' & Hhs & Hgen & Hlen & Hone & Hlow & Hstop).
  simpl in Hhs.
  assert (E : hs = hs').
  { unfold hs. unfold finish in Hfin. destruct (hof a0); [|discriminate].
    destruct (fitness i); [|discriminate]. inversion Hfin. simpl. exact Hhs. }
  rewrite E. repeat split; auto.
Qed.

Lemma evolve_history_shape_witness :
  exists res r',
    evolve one_room_ga (mkRng one_room_tape 0) = (Return res, r')
    /\ map h_generation (result_history res) = [0; 1; 2]
    /\ 1 <= length (result_history res) <= Z.to_nat (cfg_generations one_room_ga).
Proof.
  destruct (evolve one_room_ga (mkRng one_room_tape 0)) as [[e|res] r'] eqn:H;
    [vm_compute in H; discriminate|].
  exists res, r'. split; [reflexivity|].
  destruct (evolve_history_shape one_room_ga _ _ _ ltac:(discriminate) H)
    as (H1 & H2 & _).
  split; [|exact H2].
  vm_compute in H. injection H as <- _. reflexivity.
Defined.

(** ** Elitism *)

Lemma evaluate_population_evaluated (self : ScheduleGA) (pop pop' : list Individual) :
  evaluate_population self pop = Return pop' ->
  Forall2 (fun a b => genes b = genes a /\ evaluated self b) pop pop'.
Proof.
  unfold evaluate_population. apply rmap_Forall2.
  intros x y _ H. apply rbind_Return in H as (f & Hf & H). inversion H; subst.
  split; [reflexivity|]. exists f. simpl. auto.
Qed.

Lemma Forall2_In_l {A B} (R : A -> B -> Prop) (l : list A) (l' : list B) (x : A) :
  Forall2 R l l' -> In x l -> exists y, In y l' /\ R x y.
Proof.
  induction 1 as [|a b l l' Hab _ IH]; intros Hx; [destruct Hx|].
  destruct Hx as [<-|Hx]; [exists b; split; [left; reflexivity | exact Hab]|].
  destruct (IH Hx) as (y & Hy & HR). exists y. split; [right; exact Hy | exact HR].
Qed.

Lemma Forall2_In_r {A B} (R : A -> B -> Prop) (l : list A) (l' : list B) (y : B) :
  Forall2 R l l' -> In y l' -> exists x, In x l /\ R x y.
Proof.
  induction 1 as [|a b l l' Hab _ IH]; intros Hy; [destruct Hy|].
  destruct Hy as [<-|Hy]; [exists a; split; [left; reflexivity | exact Hab]|].
  destruct (IH Hy) as (x & Hx & HR). exists x. split; [right; exact Hx | exact HR].
Qed.

Lemma fitness_values_In (pop : list Individual) (f : Q) :
  In f (fitness_values pop) <-> exists ind, In ind pop /\ fitness ind = Some f.
Proof.
  unfold fitness_values. induction pop as [|x pop IH]; simpl.
  - split; [intros [] | intros (ind & [] & _)].
  - destruct (fitness x) as [fx|] eqn:Ex; simpl; rewrite IH; split.
    + intros [<-|(ind & Hi & Hf)]; [exists x; auto | exists ind; auto].
    + intros (ind & [<-|Hi] & Hf); [left; congruence | right; exists ind; auto].
    + intros (ind & Hi & Hf). exists ind; auto.
    + intros (ind & [<-|Hi] & Hf); [congruence | exists ind; auto].
Qed.

Lemma Qmax_fold_ge (vs : list Q) (v x : Q) :
  In x (v :: vs) -> (x <= fold_left Qmax vs v)%Q.
Proof.
  revert v x. induction vs as [|w vs IH]; intros v x Hx; simpl.
  - destruct Hx as [<-|[]]. apply Qle_refl.
  - destruct Hx as [<-|[<-|Hx]].
    + apply Qle_trans with (y := Qmax v w); [apply Qmax_r | apply IH; left; reflexivity].
    + apply Qle_trans with (y := Qmax v w); [apply Qmax_l | apply IH; left; reflexivity].
    + apply IH. right. exact Hx.
Qed.

Lemma Qmax_fold_In (vs : list Q) (v : Q) : In (fold_left Qmax vs v) (v :: vs).
Proof.
  revert v. induction vs as [|w vs IH]; intros v; simpl; [left; reflexivity|].
  destruct (IH (Qmax v w)) as [H|H]; [|right; right; exact H].
  rewrite <- H. unfold Qmax. destruct (Qlt_bool v w); [right; left | left]; reflexivity.
Qed.

Lemma stats_compile_max (gen : nat) (pop : list Individual) (record : HistoryEntry) :
  stats_compile gen pop = Return record ->
  (forall ind f, In ind pop -> fitness ind = Some f -> (f <= max_fitness record)%Q)
  /\ (exists ind, In ind pop /\ fitness ind = Some (max_fitness record)).
Proof.
  unfold stats_compile. destruct (fitness_values pop) as [|v vs] eqn:E; [discriminate|].
  intros H. inversion H; subst. simpl. split.
  - intros ind f Hi Hf. apply Qmax_fold_ge. rewrite <- E. apply fitness_values_In. eauto.
  - apply fitness_values_In. rewrite E. apply Qmax_fold_In.
Qed.

Lemma fitness_gt_irrefl (a : option Q) : fitness_gt a a = false.
Proof.
  destruct a as [x|]; simpl; [|reflexivity].
  destruct (Qlt_bool x x) eqn:E; [|reflexivity].
  apply Qlt_bool_iff in E. exfalso. exact (Qlt_irrefl _ E).
Qed.

Lemma fitness_gt_asym (a b : option Q) : fitness_gt a b = true -> fitness_gt b a = false.
Proof.
  intros H. destruct (fitness_gt b a) eqn:E; [|reflexivity].
  pose proof (fitness_gt_trans _ _ _ H E) as Hc. rewrite fitness_gt_irrefl in Hc.
  discriminate.
Qed.

Lemma fitness_not_gt_trans (a b c : option Q) :
  fitness_gt a b = false -> fitness_gt b c = false -> fitness_gt a c = false.
Proof.
  destruct a as [x|], b as [y|], c as [z|]; simpl; try congruence.
  intros H1 H2. destruct (Qlt_bool z x) eqn:E; [|reflexivity].
  apply Qlt_bool_iff in E.
  destruct (Qlt_le_dec y x) as [Hyx|Hxy].
  - apply Qlt_bool_iff in Hyx. congruence.
  - assert (Hzy : (z < y)%Q) by (eapply Qlt_le_trans; eassumption).
    apply Qlt_bool_iff in Hzy. congruence.
Qed.

Lemma fitness_not_gt_le (x y : Q) : fitness_gt (Some x) (Some y) = false -> (x <= y)%Q.
Proof.
  simpl. intros H. destruct (Qlt_le_dec y x) as [Hlt|Hle]; [|exact Hle].
  apply Qlt_bool_iff in Hlt. congruence.
Qed.

Lemma sorted_head_dominates (l : list Individual) :
  l <> [] ->
  exists e rest,
    fold_right insert_best [] l = e :: rest
    /\ In e l
    /\ forall x, In x l -> fitness_gt (fitness x) (fitness e) = false.
Proof.
  induction l as [|x l IH]; [congruence|]. intros _.
  destruct l as [|y l'].
  - exists x, []. simpl. split; [reflexivity|]. split; [auto|].
    intros z [<-|[]]. apply fitness_gt_irrefl.
  - destruct IH as (e & rest & Hs & He & Hdom); [discriminate|].
    remember (y :: l') as l eqn:El. simpl. rewrite Hs. simpl.
    destruct (fitness_gt (fitness e) (fitness x)) eqn:Eg.
    + exists e. eexists. split; [reflexivity|]. split; [right; exact He|].
      intros z [<-|Hz]; [apply fitness_gt_asym; exact Eg | apply Hdom; exact Hz].
    + exists x. eexists. split; [reflexivity|]. split; [left; reflexivity|].
      intros z [<-|Hz]; [apply fitness_gt_irrefl|].
      eapply fitness_not_gt_trans; [apply Hdom; exact Hz | exact Eg].
Qed.

Lemma elite_count_pos (self : ScheduleGA) (pop : list Individual) :
  1 <= elite_count self pop.
Proof. unfold elite_count. lia. Qed.

Lemma generation_carries_in (self : ScheduleGA) (gen : nat) (st st' : LoopState)
    (brk : bool) (r r' : Rng) (m : Q) :
  carries self (population st) m ->
  generation self gen st r = (Return (st', brk), r') ->
  exists record, history st' = (history st ++ [record])%list
                 /\ (m <= max_fitness record)%Q.
Proof.
  intros (e & f & He & Hf & Hev & Hm) H.
  apply generation_inv in H as (pop & record & Hpop & Hst & _ & Hh & _).
  exists record. split; [exact Hh|].
  apply evaluate_population_evaluated in Hpop.
  destruct (Forall2_In_l _ _ _ e Hpop He) as (e' & He' & Hg & f' & Hf' & Hev').
  rewrite Hg, Hev in Hev'. injection Hev' as <-.
  eapply Qle_trans; [exact Hm|].
  apply (proj1 (stats_compile_max _ _ _ Hst) e' f He' Hf').
Qed.

Lemma generation_carries_out (self : ScheduleGA) (gen : nat) (st st' : LoopState)
    (r r' : Rng) :
  generation self gen st r = (Return (st', false), r') ->
  exists record, history st' = (history st ++ [record])%list
                 /\ carries self (population st') (max_fitness record).
Proof.
  intros H.
  apply generation_inv in H as (pop & record & Hpop & Hst & _ & Hh & _ & _ & Hfalse).
  destruct (Hfalse eq_refl) as (off1 & off2 & off3 & r1 & r2 & _ & _ & _ & Hnew).
  exists record. split; [exact Hh|].
  apply evaluate_population_evaluated in Hpop.
  destruct (stats_compile_max _ _ _ Hst) as [_ (top & Htop & Hftop)].
  assert (Hne : pop <> []) by (destruct pop; [destruct Htop | discriminate]).
  destruct (sorted_head_dominates pop Hne) as (e & rest & Hs & He & Hdom).
  destruct (Forall2_In_r _ _ _ e Hpop He) as (e0 & _ & _ & f & Hf & Hev).
  exists e, f. split; [|split; [exact Hf|split; [exact Hev|]]].
  - rewrite Hnew. apply in_or_app. right. unfold selBest. rewrite Hs.
    pose proof (elite_count_pos self pop) as Hk.
    destruct (elite_count self pop); [lia|]. left. reflexivity.
  - specialize (Hdom top Htop). rewrite Hftop, Hf in Hdom.
    apply fitness_not_gt_le. exact Hdom.
Qed.

Lemma evolve_loop_max_monotone (self : ScheduleGA) (n : nat) :
  forall gen st st' r r',
    evolve_loop self n gen st r = (Return st', r') ->
    forall bound : option Q,
      (forall m, bound = Some m -> carries self (population st) m) ->
      exists hs,
        history st' = (history st ++ hs)%list
        /\ (forall m h, bound = Some m -> In h hs -> (m <= max_fitness h)%Q)
        /\ (forall i h1 h2, hs !! i = Some h1 -> hs !! S i = Some h2 ->
                            (max_fitness h1 <= max_fitness h2)%Q).
Proof.
  induction n as [|n IH]; intros gen st st' r r' H bound Hb.
  - simpl in H. inv_ret H. exists []. rewrite app_nil_r.
    split; [reflexivity|]. split; [intros ? ? _ []|]. intros i h1 h2 Hi. discriminate.
  - rewrite evolve_loop_unfold in H.
    destruct (generation self gen st r) as [[e|[st1 brk]] r1] eqn:Hgen; [discriminate|].
    assert (Hin : exists record, history st1 = (history st ++ [record])%list
                  /\ forall m, bound = Some m -> (m <= max_fitness record)%Q).
    { destruct bound as [m|].
      - destruct (generation_carries_in _ _ _ _ _ _ _ m (Hb m eq_refl) Hgen)
          as (record & Hh & Hm).
        exists record. split; [exact Hh|]. intros m' E. inversion E; subst. exact Hm.
      - apply generation_inv in Hgen as (pop & record & _ & _ & _ & Hh & _).
        exists record. split; [exact Hh|]. discriminate. }
    destruct Hin as (record & Hh & Hm).
    destruct brk.
    + inversion H; subst st' r'. exists [record]. split; [exact Hh|]. split.
      * intros m h E [<-|[]]. apply Hm. exact E.
      * intros [|i] h1 h2 H1 H2; discriminate.
    + destruct (generation_carries_out _ _ _ _ _ _ Hgen) as (record' & Hh' & Hc).
      assert (record' = record).
      { rewrite Hh in Hh'. apply app_inv_head in Hh'. congruence. }
      subst record'.
      destruct (IH _ _ _ _ _ H (Some (max_fitness record)))
        as (hs & Hhs & Hge & Hmono).
      { intros m E. inversion E; subst. exact Hc. }
      exists (record :: hs).
      split; [rewrite Hhs, Hh, <- app_assoc; reflexivity|]. split.
      * intros m h E [<-|Hin]; [apply Hm; exact E|].
        eapply Qle_trans; [apply Hm; exact E | apply (Hge _ h eq_refl Hin)].
      * intros [|i] h1 h2 H1 H2; simpl in *.
        -- injection H1 as <-. apply (Hge _ h2 eq_refl).
           destruct hs; [discriminate|]. simpl in H2. injection H2 as <-. left. reflexivity.
        -- eapply Hmono; eassumption.
Qed.

(** X12.  Elitism: the maximum fitness recorded in the history never
    decreases from one generation to the next, because the best individual
    of a generation is carried unchanged into the next population. *)
Theorem history_max_never_decreases (self : ScheduleGA) (r r' : Rng) (res : GAResult) :
  evolve self r = (Return res, r') ->
  forall i h1 h2,
    result_history res !! i = Some h1 ->
    result_history res !! S i = Some h2 ->
    (max_fitness h1 <= max_fitness h2)%Q.
Proof.
  intros H. unfold evolve in H. inv_bind H. inv_bind H.
  apply lift_Return in H as [Hfin ->].
  destruct (evolve_loop_max_monotone _ _ _ _ _ _ _ Hstep0 None) as (hs & Hhs & _ & Hmono);
    [discriminate|].
  simpl in Hhs.
  assert (E : result_history res = hs).
  { unfold finish in Hfin. destruct (hof a0); [|discriminate].
    destruct (fitness i); [|discriminate]. inversion Hfin. simpl. exact Hhs. }
  rewrite E. exact Hmono.
Qed.

Lemma history_max_never_decreases_witness :
  exists res r' h1 h2,
    evolve one_room_ga (mkRng one_room_tape 0) = (Return res, r')
    /\ result_history res !! 1 = Some h1
    /\ result_history res !! 2 = Some h2
    /\ (max_fitness h1 <= max_fitness h2)%Q.
Proof.
  destruct (evolve one_room_ga (mkRng one_room_tape 0)) as [[e|res] r'] eqn:H;
    [vm_compute in H; discriminate|].
  pose proof (history_max_never_decreases one_room_ga _ _ _ H 1) as Hm.
  vm_compute in H. injection H as <- _.
  do 4 eexists. split; [reflexivity|]. split; [reflexivity|]. split; [reflexivity|].
  apply Hm; reflexivity.
Defined.

(** ** The hall of fame and the history *)

Lemma gene_eqb_eq (a b : Gene) : gene_eqb a b = true -> a = b.
Proof.
  unfold gene_eqb. rewrite !andb_true_iff.
  intros [[[[[H1 H2] H3] H4] H5] H6].
  apply String.eqb_eq in H1, H3, H4, H5. apply Z.eqb_eq in H6.
  destruct a as [i1 n1 d1 t1 r1 u1], b as [i2 n2 d2 t2 r2 u2]; simpl in *.
  assert (n1 = n2).
  { destruct n1, n2; simpl in H2; try discriminate; [|reflexivity].
    apply String.eqb_eq in H2. congruence. }
  congruence.
Qed.

Lemma genes_eqb_eq (a b : list Gene) : genes_eqb a b = true -> a = b.
Proof.
  revert b. induction a as [|x a IH]; intros [|y b]; simpl; try discriminate;
    [reflexivity|].
  rewrite andb_true_iff. intros [H1 H2].
  apply gene_eqb_eq in H1. apply IH in H2. congruence.
Qed.

Lemma hof_fold_dominates (self : ScheduleGA) (first : Individual) (l : list Individual) :
  forall h,
    evaluated self h -> Forall (evaluated self) l ->
    exists hF,
      fold_left (hof_update_one first) l (Some h) = Some hF
      /\ evaluated self hF
      /\ fitness_gt (fitness h) (fitness hF) = false
      /\ (forall x, In x l -> fitness_gt (fitness x) (fitness hF) = false)
      /\ (hF = h \/ In hF l).
Proof.
  induction l as [|x l IH]; intros h Hh Hl.
  - exists h. simpl. split; [reflexivity|]. split; [exact Hh|].
    split; [apply fitness_gt_irrefl|]. split; [intros ? []|]. left. reflexivity.
  - inversion Hl as [|? ? Hx Hl']; subst. cbn [fold_left].
    assert (Hstep : exists h1, hof_update_one first (Some h) x = Some h1
                    /\ evaluated self h1
                    /\ fitness_gt (fitness h) (fitness h1) = false
                    /\ fitness_gt (fitness x) (fitness h1) = false
                    /\ (h1 = h \/ h1 = x)).
    { unfold hof_update_one.
      destruct (fitness_gt (fitness x) (fitness h)) eqn:Eg.
      - destruct (genes_eqb (genes x) (genes h)) eqn:Es.
        + exfalso. apply genes_eqb_eq in Es.
          destruct Hx as (fx & Hfx & Hex), Hh as (fh & Hfh & Heh).
          rewrite Es, Heh in Hex. injection Hex as <-.
          rewrite Hfx, Hfh, fitness_gt_irrefl in Eg. discriminate.
        + exists x. split; [reflexivity|]. split; [exact Hx|].
          split; [apply fitness_gt_asym; exact Eg|].
          split; [apply fitness_gt_irrefl | right; reflexivity].
      - exists h. split; [reflexivity|]. split; [exact Hh|].
        split; [apply fitness_gt_irrefl|]. split; [exact Eg | left; reflexivity]. }
    destruct Hstep as (h1 & -> & Hh1 & Hle1 & Hx1 & Hor1).
    destruct (IH h1 Hh1 Hl') as (hF & HF & HeF & HleF & HallF & HorF).
    exists hF. split; [exact HF|]. split; [exact HeF|].
    split; [eapply fitness_not_gt_trans; eassumption|].
    split.
    + intros z [<-|Hz]; [eapply fitness_not_gt_trans; eassumption | apply HallF; exact Hz].
    + destruct HorF as [->|HinF]; [|right; right; exact HinF].
      destruct Hor1 as [->| ->]; [left; reflexivity | right; left; reflexivity].
Qed.

Lemma hof_update_dominates (self : ScheduleGA) (h : option Individual)
    (pop : list Individual) :
  pop <> [] ->
  (forall b, h = Some b -> evaluated self b) ->
  Forall (evaluated self) pop ->
  exists hF,
    hof_update h pop = Some hF
    /\ evaluated self hF
    /\ (forall b, h = Some b -> fitness_gt (fitness b) (fitness hF) = false)
    /\ (forall x, In x pop -> fitness_gt (fitness x) (fitness hF) = false)
    /\ (h = Some hF \/ In hF pop).
Proof.
  intros Hne Hh Hpop. unfold hof_update.
  destruct pop as [|first rest]; [congruence|].
  destruct h as [b|].
  - destruct (hof_fold_dominates self first (first :: rest) b (Hh b eq_refl) Hpop)
      as (hF & HF & HeF & Hle & Hall & Hor).
    exists hF. split; [exact HF|]. split; [exact HeF|].
    split; [intros b' E; inversion E; subst; exact Hle|].
    split; [exact Hall|]. destruct Hor as [->|Hin]; auto.
  - inversion Hpop as [|? ? Hfirst Hrest]; subst. cbn [fold_left].
    change (hof_update_one first None first) with (Some first).
    destruct (hof_fold_dominates self first rest first Hfirst Hrest)
      as (hF & HF & HeF & Hle & Hall & Hor).
    exists hF. split; [exact HF|]. split; [exact HeF|].
    split; [discriminate|]. split.
    + intros x [<-|Hx]; [exact Hle | apply Hall; exact Hx].
    + right. destruct Hor as [->|Hin]; [left; reflexivity | right; exact Hin].
Qed.

Lemma generation_hof_tracks (self : ScheduleGA) (gen : nat) (st st' : LoopState)
    (brk : bool) (r r' : Rng) :
  hof_tracks_history self st ->
  generation self gen st r = (Return (st', brk), r') ->
  hof_tracks_history self st'.
Proof.
  intros HJ H.
  apply generation_inv in H as (pop & record & Hpop & Hst & Hhof & Hh & _).
  apply evaluate_population_evaluated in Hpop.
  assert (Hev : Forall (evaluated self) pop).
  { apply In_Forall. intros y Hy.
    destruct (Forall2_In_r _ _ _ y Hpop Hy) as (x & _ & _ & Hy'). exact Hy'. }
  destruct (stats_compile_max _ _ _ Hst) as [Hmax (top & Htop & Hftop)].
  assert (Hne : pop <> []) by (destruct pop; [destruct Htop | discriminate]).
  assert (Hold : forall b, hof st = Some b -> evaluated self b).
  { intros b Hb. destruct HJ as [[_ Hn]|(best & f & Hb' & Hf & He & _)]; [congruence|].
    rewrite Hb in Hb'. injection Hb' as <-. exists f. auto. }
  destruct (hof_update_dominates self (hof st) pop Hne Hold Hev)
    as (hF & HF & (fF & HfF & HeF) & Hle & Hall & Hor).
  right. exists hF, fF. rewrite Hhof, Hh.
  split; [exact HF|]. split; [exact HfF|]. split; [exact HeF|].
  assert (Hrec : (max_fitness record <= fF)%Q).
  { specialize (Hall top Htop). rewrite Hftop, HfF in Hall.
    apply fitness_not_gt_le. exact Hall. }
  split.
  - intros h Hin. apply in_app_or in Hin as [Hin|[<-|[]]]; [|exact Hrec].
    destruct HJ as [[Hnil _]|(best & f & Hb & Hf & _ & Hbound & _)];
      [rewrite Hnil in Hin; destruct Hin|].
    eapply Qle_trans; [apply Hbound; exact Hin|].
    specialize (Hle best Hb). rewrite Hf, HfF in Hle.
    apply fitness_not_gt_le. exact Hle.
  - destruct Hor as [Hsame|Hin].
    + destruct HJ as [[_ Hn]|(best & f & Hb & Hf & _ & _ & (h & Hh' & Heq))]; [congruence|].
      rewrite Hb in Hsame. injection Hsame as ->.
      rewrite Hf in HfF. injection HfF as <-.
      exists h. split; [apply in_or_app; left; exact Hh' | exact Heq].
    + exists record. split; [apply in_or_app; right; left; reflexivity|].
      apply Qle_antisym; [exact Hrec | apply (Hmax hF fF Hin HfF)].
Qed.

Lemma evolve_loop_hof_tracks (self : ScheduleGA) (n : nat) :
  forall gen st st' r r',
    hof_tracks_history self st ->
    evolve_loop self n gen st r = (Return st', r') ->
    hof_tracks_history self st'.
Proof.
  induction n as [|n IH]; intros gen st st' r r' HJ H; simpl in H.
  - inv_ret H. exact HJ.
  - inv_bind H. destruct a as [st1 brk]. simpl in H.
    apply (generation_hof_tracks _ _ _ _ _ _ _ HJ) in Hstep.
    destruct brk; [inv_ret H; exact Hstep | eapply IH; eassumption].
Qed.

(** X13.  The fitness that [evolve] returns is the evaluator's score of
    the schedule it returns; no maximum recorded in the history exceeds it
    and one of them equals it: it is the best fitness of the whole run. *)
Theorem evolve_returns_best_of_run (self : ScheduleGA) (r r' : Rng) (res : GAResult) :
  evolve self r = (Return res, r') ->
  evaluate_fitness self (schedule res) = Return (best_fitness res)
  /\ (forall h, In h (result_history res) -> (max_fitness h <= best_fitness res)%Q)
  /\ (exists h, In h (result_history res) /\ (max_fitness h == best_fitness res)%Q).
Proof.
  intros H. unfold evolve in H. inv_bind H. inv_bind H.
  apply lift_Return in H as [Hfin ->].
  apply evolve_loop_hof_tracks in Hstep0; [|left; split; reflexivity].
  unfold finish in Hfin.
  destruct Hstep0 as [[_ Hn]|(best & f & Hb & Hf & He & Hbound & Heq)];
    [rewrite Hn in Hfin; discriminate|].
  rewrite Hb, Hf in Hfin. inversion Hfin; subst. simpl. auto.
Qed.

Lemma evolve_returns_best_of_run_witness :
  exists res r',
    evolve one_room_ga (mkRng one_room_tape 0) = (Return res, r')
    /\ evaluate_fitness one_room_ga (schedule res) = Return (best_fitness res)
    /\ (forall h, In h (result_history res) -> (max_fitness h <= best_fitness res)%Q).
Proof.
  destruct (evolve one_room_ga (mkRng one_room_tape 0)) as [[e|res] r'] eqn:H;
    [vm_compute in H; discriminate|].
  exists res, r'. split; [reflexivity|].
  destruct (evolve_returns_best_of_run one_room_ga _ _ _ H) as (H1 & H2 & _).
  split; assumption.
Defined.

(** ** What the returned schedule is made of *)

Lemma skipn_In_incl {A} (n : nat) (l : list A) (x : A) : In x (skipn n l) -> In x l.
Proof.
  revert n. induction l as [|y l IH]; intros [|n]; simpl; try tauto.
  intros H. right. eapply IH. exact H.
Qed.

Lemma cxTwoPoint_genes_ok (self : ScheduleGA) (g1 g2 a b : list Gene) (r r' : Rng) :
  genes_ok self g1 -> genes_ok self g2 ->
  cxTwoPoint g1 g2 r = (Return (a, b), r') ->
  genes_ok self a /\ genes_ok self b.
Proof.
  unfold genes_ok. intros H1 H2 H.
  apply cxTwoPoint_inv in H as (p1 & p2 & _ & _ & _ & -> & ->).
  split; apply In_Forall; intros x Hx;
    repeat (apply in_app_or in Hx as [Hx|Hx]);
    repeat (apply firstn_In_incl in Hx || apply skipn_In_incl in Hx);
    first [exact (Forall_In _ _ _ H1 Hx) | exact (Forall_In _ _ _ H2 Hx)].
Qed.

Lemma update_gene_Forall (P : Gene -> Prop) (l : list Gene) (i : nat) (f : Gene -> Gene) :
  (forall g, P g -> P (f g)) -> Forall P l -> Forall P (update_gene l i f).
Proof.
  intros Hf Hl. unfold update_gene. destruct (l !! i) as [g|] eqn:Hi; [|exact Hl].
  apply Forall_insert; [exact Hl|]. apply Hf.
  apply (Forall_In _ _ _ Hl). apply list_elem_of_In. eapply list_elem_of_lookup_2. exact Hi.
Qed.

Lemma mutate_schedule_genes_ok (self : ScheduleGA) (g g' : list Gene) (r r' : Rng) :
  genes_ok self g -> mutate_schedule self g r = (Return g', r') -> genes_ok self g'.
Proof.
  unfold genes_ok. intros Hg H. unfold mutate_schedule in H. inv_bind H.
  destruct (Qlt_bool _ _); [|inv_ret H; exact Hg].
  unfold apply_strategy in H.
  destruct (String.eqb _ "swap").
  { unfold mutate_swap in H. destruct (2 <=? length g); [|inv_ret H; exact Hg].
    inv_bind H. inv_ret H. apply In_Forall. intros x Hx.
    apply (Forall_In _ _ _ Hg).
    eapply Permutation_in; [apply swap_genes_perm | exact Hx]. }
  destruct (String.eqb _ "shift").
  { unfold mutate_shift in H. inv_bind H. inv_bind H.
    destruct (String.eqb a1 "day"); [|destruct (String.eqb a1 "time")];
      inv_bind H; inv_ret H; apply random_choice_In in Hstep2;
      apply update_gene_Forall; try exact Hg;
      intros x [(Hd & Ht & Hr) Hid]; repeat split; simpl; assumption. }
  destruct (String.eqb _ "random"); [|inv_ret H; exact Hg].
  unfold mutate_random in H. inv_bind H. inv_bind H. inv_bind H. inv_bind H. inv_ret H.
  apply random_choice_In in Hstep1, Hstep2, Hstep3.
  repeat apply update_gene_Forall; try exact Hg;
    intros x [(Hd & Ht & Hr) Hid]; repeat split; simpl; assumption.
Qed.

Lemma create_individual_genes_ok (self : ScheduleGA) (ind : Individual) (r r' : Rng) :
  create_individual self r = (Return ind, r') -> genes_ok self (genes ind).
Proof.
  unfold create_individual, genes_ok. intros H. inv_bind H. inv_ret H. simpl.
  apply mapM_Forall2 with (R := fun e g => gene_ok self g) in Hstep.
  - induction Hstep; constructor; assumption.
  - intros x r1 y r1' Hin Hx. unfold create_gene in Hx.
    inv_bind Hx. inv_bind Hx. inv_bind Hx. inv_ret Hx.
    apply random_choice_In in Hstep0, Hstep1, Hstep2.
    repeat split; simpl; try assumption. apply in_map. exact Hin.
Qed.

Lemma evolve_loop_genes_ok (self : ScheduleGA) (k : nat)
    (pop : list Individual) (st : LoopState) (r0 r1 r2 : Rng) :
  toolbox_population self (cfg_population_size self) r0 = (Return pop, r1) ->
  evolve_loop self k 0 (initial_state pop) r1 = (Return st, r2) ->
  state_ok (genes_ok self) st.
Proof.
  intros Hpop Hloop.
  eapply (evolve_loop_ok self (genes_ok self)); [| | | exact Hloop].
  - intros g1 g2 a b r r' H1 H2 H.
    exact (cxTwoPoint_genes_ok _ _ _ _ _ _ _ H1 H2 H).
  - intros g g' r r' Hg H. exact (mutate_schedule_genes_ok _ _ _ _ _ Hg H).
  - split; [|discriminate]. simpl. unfold toolbox_population in Hpop.
    apply repeatM_Forall with (Q := fun ind => genes_ok self (genes ind)) in Hpop;
      [apply Hpop|].
    intros ? ? ?. apply create_individual_genes_ok.
Qed.

(** X14.  The schedule that [evolve] returns has as many genes as there
    are entities; every gene carries the id of an input entity and a day, a
    time and a room of the configured lists; and with any strategy but
    [swap] gene [i] belongs to entity [i]. *)
Theorem evolve_schedule_well_formed (self : ScheduleGA) (r r' : Rng) (res : GAResult) :
  evolve self r = (Return res, r') ->
  length (schedule res) = length (entities self)
  /\ in_grid self (schedule res)
  /\ Forall (fun g => In (entity_id g) (map e_id (entities self))) (schedule res)
  /\ (cfg_mutation_strategy self <> "swap" ->
      map entity_id (schedule res) = map e_id (entities self)).
Proof.
  intros H. unfold evolve in H. inv_bind H. inv_bind H.
  apply lift_Return in H as [Hfin ->].
  unfold finish in Hfin. destruct (hof a0) as [best|] eqn:Hb; [|discriminate].
  destruct (fitness best); [|discriminate]. inversion Hfin; subst. simpl.
  pose proof (evolve_loop_full_length _ _ _ _ _ _ _ Hstep Hstep0) as [_ H1].
  pose proof (evolve_loop_genes_ok _ _ _ _ _ _ _ Hstep Hstep0) as [_ H3].
  split; [exact (H1 best Hb)|].
  specialize (H3 best Hb). unfold genes_ok in H3.
  split; [eapply List.Forall_impl; [|exact H3]; intros g Hg; apply Hg|].
  split; [eapply List.Forall_impl; [|exact H3]; intros g Hg; apply Hg|].
  intros Hs.
  pose proof (evolve_loop_positional _ _ _ _ _ _ _ Hs Hstep Hstep0) as [_ H2].
  exact (H2 best Hb).
Qed.

Lemma evolve_schedule_well_formed_witness :
  exists res r',
    evolve one_room_ga (mkRng one_room_tape 0) = (Return res, r')
    /\ length (schedule res) = 2
    /\ in_grid one_room_ga (schedule res).
Proof.
  destruct (evolve one_room_ga (mkRng one_room_tape 0)) as [[e|res] r'] eqn:H;
    [vm_compute in H; discriminate|].
  exists res, r'. split; [reflexivity|].
  destruct (evolve_schedule_well_formed one_room_ga _ _ _ H) as (H1 & H2 & _).
  split; assumption.
Defined.

(** ** The fallback scheduler seen by the overlap checker, and its errors *)

Lemma fallback_genes_triples (ds ts rs : list string) (ents : list Entity) (p : nat) :
  map triple (fallback_genes ds ts rs ents p)
  = map (slot_triple_at ds ts rs) (seq p (length ents)).
Proof.
  revert p. induction ents as [|e l IH]; intros p; simpl; [reflexivity|].
  rewrite IH. f_equal.
Qed.

Lemma NoDup_map_seq {A} (f : nat -> A) (n : nat) :
  (forall i j, i < n -> j < n -> f i = f j -> i = j) ->
  List.NoDup (map f (seq 0 n)).
Proof.
  intros Hinj. induction n as [|n IH]; [constructor|].
  rewrite seq_S, map_app. simpl.
  apply List.NoDup_app.
  repeat split.
  - apply IH. intros i j Hi Hj. apply Hinj; lia.
  - constructor; [intros []|constructor].
  - intros x Hx [Hy|[]]. subst x. apply in_map_iff in Hx as (i & Hi & Hin).
    apply in_seq in Hin. apply Hinj in Hi; lia.
Qed.

(** X15.  With non-empty resource lists of distinct values, the schedule of
    the fallback scheduler passes [check_overlaps] without a conflict
    exactly when there are at most D x T x R entities. *)
Theorem fallback_conflict_free_iff_fits (ents : list Entity) (cfg : option Config) :
  let ds := fallback_days cfg in
  let ts := fallback_time_slots cfg in
  let rs := fallback_rooms cfg in
  ds <> [] -> ts <> [] -> rs <> [] ->
  NoDup ds -> NoDup ts -> NoDup rs ->
  exists sched,
    generate_fallback_schedule ents cfg = Return sched
    /\ (check_overlaps sched = 0
        <-> length ents <= length ds * length ts * length rs).
Proof.
  intros ds ts rs Hd Ht Hr Nd Nt Nr.
  exists (fallback_genes ds ts rs ents 0).
  split; [apply generate_fallback_schedule_returns; assumption|].
  set (cap := length ds * length ts * length rs).
  assert (Hcap : 0 < cap).
  { subst cap. destruct ds; [congruence|]. destruct ts; [congruence|].
    destruct rs; [congruence|]. simpl. lia. }
  split.
  - intros H. apply no_overlap_distinct in H.
    rewrite fallback_genes_triples in H.
    destruct (Nat.le_gt_cases (length ents) cap) as [Hle|Hgt]; [exact Hle|].
    exfalso.
    assert (E : 0 = cap).
    { apply (proj1 (List.NoDup_nth _ (slot_triple_at ds ts rs 0)) H);
        rewrite ?length_map, ?length_seq; try lia.
      rewrite !(map_nth (slot_triple_at ds ts rs)), !seq_nth by lia.
      simpl. symmetry. apply (slot_triple_at_period ds ts rs 0); assumption. }
    lia.
  - intros Hle. apply distinct_no_overlap. rewrite fallback_genes_triples.
    apply NoDup_map_seq. intros i j Hi Hj.
    apply slot_triple_at_injective; try assumption; fold cap; lia.
Qed.

Lemma fallback_conflict_free_iff_fits_witness :
  (exists sched,
      generate_fallback_schedule five_entities (Some small_grid) = Return sched
      /\ check_overlaps sched <> 0)
  /\ (exists sched,
      generate_fallback_schedule (firstn 4 five_entities) (Some small_grid) = Return sched
      /\ check_overlaps sched = 0).
Proof.
  assert (Nd : NoDup (fallback_days (Some small_grid)))
    by (apply NoDup_ListNoDup; repeat constructor; simpl; intuition discriminate).
  assert (Nt : NoDup (fallback_time_slots (Some small_grid)))
    by (apply NoDup_ListNoDup; repeat constructor; simpl; intuition discriminate).
  assert (Nr : NoDup (fallback_rooms (Some small_grid)))
    by (apply NoDup_ListNoDup; repeat constructor; simpl; intuition discriminate).
  split.
  - destruct (fallback_conflict_free_iff_fits five_entities (Some small_grid)
                ltac:(discriminate) ltac:(discriminate) ltac:(discriminate) Nd Nt Nr)
      as (sched & Hrun & Hiff).
    exists sched. split; [exact Hrun|]. intros H. apply Hiff in H.
    vm_compute in H. lia.
  - destruct (fallback_conflict_free_iff_fits (firstn 4 five_entities) (Some small_grid)
                ltac:(discriminate) ltac:(discriminate) ltac:(discriminate) Nd Nt Nr)
      as (sched & Hrun & Hiff).
    exists sched. split; [exact Hrun|]. apply Hiff. vm_compute. lia.
Defined.

Lemma fallback_loop_empty_list (ds ts rs : list string) (entity : Entity)
    (rest : list Entity) (d t r : nat) :
  ds = [] \/ ts = [] \/ rs = [] ->
  fallback_loop ds ts rs (entity :: rest) d t r = Raise ZeroDivisionError.
Proof.
  intros H. simpl.
  destruct ds as [|d0 ds]; [reflexivity|].
  destruct ts as [|t0 ts]; [reflexivity|].
  destruct rs as [|r0 rs]; [reflexivity|].
  destruct H as [H|[H|H]]; discriminate.
Qed.

(** X16.  When the days, time slots or rooms list is empty, the fallback
    scheduler raises [ZeroDivisionError] as soon as there is an entity
    (with no entity it returns the empty schedule), and [optimize] with
    method ["gemini"] lets that error out whenever the advisor fails. *)
Theorem fallback_empty_list_raises
    (json_loads : string -> result (list Json)) (self : HybridOptimizer)
    (outcome : AdvisorOutcome) (r : Rng) :
  let cfg := Some (ho_config self) in
  fallback_days cfg = [] \/ fallback_time_slots cfg = [] \/ fallback_rooms cfg = [] ->
  generate_fallback_schedule [] cfg = Return []
  /\ (ho_entities self <> [] ->
      generate_fallback_schedule (ho_entities self) cfg = Raise ZeroDivisionError
      /\ (advisor_fails json_loads outcome ->
          optimize json_loads self "gemini" outcome r = (Raise ZeroDivisionError, r))).
Proof.
  intros cfg Hempty. split; [reflexivity|]. intros Hents.
  assert (Hfb : generate_fallback_schedule (ho_entities self) cfg
                = Raise ZeroDivisionError).
  { unfold generate_fallback_schedule.
    destruct (ho_entities self) as [|entity rest]; [congruence|].
    apply fallback_loop_empty_list. exact Hempty. }
  split; [exact Hfb|]. intros Hfail.
  assert (Hdispatch : optimize json_loads self "gemini" outcome
                      = lift (optimize_with_gemini json_loads self outcome))
    by reflexivity.
  rewrite Hdispatch. unfold lift, optimize_with_gemini.
  fold cfg.
  assert (Hsug : generate_schedule_suggestions json_loads outcome (ho_entities self) cfg
                 = Raise ZeroDivisionError).
  { unfold generate_schedule_suggestions. rewrite Hfb. simpl rbind.
    destruct Hfail as [|text|fr rest text N0 N1|frs|frs|frs|frs s U]; try reflexivity.
    - destruct (Z.eqb_spec fr 2); [reflexivity|].
      destruct (Z.eqb_spec fr 3); [reflexivity|].
      destruct (Z.eqb_spec fr 0); [congruence|].
      destruct (Z.eqb_spec fr 1); [congruence|]. reflexivity.
    - destruct frs as [|fr rest]; [reflexivity|].
      destruct (fr =? 2)%Z; [reflexivity|]. destruct (fr =? 3)%Z; [reflexivity|].
      destruct (negb ((fr =? 0)%Z || (fr =? 1)%Z)); reflexivity.
    - destruct frs as [|fr rest]; [reflexivity|].
      destruct (fr =? 2)%Z; [reflexivity|]. destruct (fr =? 3)%Z; [reflexivity|].
      destruct (negb ((fr =? 0)%Z || (fr =? 1)%Z)); reflexivity.
    - destruct frs as [|fr rest]; [reflexivity|].
      destruct (fr =? 2)%Z; [reflexivity|]. destruct (fr =? 3)%Z; [reflexivity|].
      destruct (negb ((fr =? 0)%Z || (fr =? 1)%Z)); reflexivity.
    - destruct frs as [|fr rest]; [reflexivity|].
      destruct (fr =? 2)%Z; [reflexivity|]. destruct (fr =? 3)%Z; [reflexivity|].
      destruct (negb ((fr =? 0)%Z || (fr =? 1)%Z)); [reflexivity|].
      destruct s as [|c s']; [reflexivity|].
      unfold parse_response. rewrite Hfb. simpl rbind.
      destruct (json_span (String c s')) as [json_str|] eqn:Es; [|reflexivity].
      destruct (json_loads json_str) as [e|rows] eqn:El; [reflexivity|]. simpl rbind.
      destruct (validate_rows rows) as [e|valid] eqn:Ev; [reflexivity|]. simpl rbind.
      destruct valid as [|row valid]; [reflexivity|].
      exfalso. inversion U; subst; congruence. }
  rewrite Hsug. simpl try_except. rewrite Hfb. reflexivity.
Qed.

Lemma fallback_empty_list_raises_witness :
  generate_fallback_schedule five_entities (Some no_days) = Raise ZeroDivisionError
  /\ optimize rejecting_decoder (mkHybridOptimizer five_entities [] no_days) "gemini"
       (Response [1%Z] (Text "[]")) (mkRng (tape_of []) 0)
     = (Raise ZeroDivisionError, mkRng (tape_of []) 0).
Proof.
  destruct (fallback_empty_list_raises rejecting_decoder
              (mkHybridOptimizer five_entities [] no_days)
              (Response [1%Z] (Text "[]")) (mkRng (tape_of []) 0)) as [_ H].
  - left. reflexivity.
  - destruct H as [H1 H2]; [discriminate|]. split; [exact H1|]. apply H2.
    apply fails_text. eapply unusable_decode; [vm_compute; reflexivity | reflexivity].
Defined.

(** ** What the adapter does with the rows of an answer *)

Lemma validate_rows_closed (rows : list Json) :
  validate_rows rows
  = if forallb is_container rows
    then Return (List.filter names_entity_id rows)
    else Raise TypeError.
Proof.
  induction rows as [|slot rest IH]; [reflexivity|].
  simpl validate_rows. rewrite IH. unfold names_entity_id.
  destruct slot; simpl; try reflexivity;
    destruct (forallb is_container rest); simpl; try reflexivity;
    match goal with |- context [if ?b then _ else _] => destruct b; reflexivity end.
Qed.

(** X17.  When the advisor answers normally with a text whose [[...]] span
    decodes to rows that are all objects, arrays or strings, [optimize]
    with method ["gemini"] returns the rows that name ["entity_id"], in
    their order and as decoded, whatever the entities and the configuration
    are; when one row is a number, a boolean or null, every row is dropped
    and the result is that of the fallback scheduler. *)
Theorem advisor_rows_are_not_checked
    (json_loads : string -> result (list Json)) (self : HybridOptimizer)
    (fr : Z) (rest : list Z) (text json_str : string) (rows : list Json) (r : Rng) :
  (fr = 0 \/ fr = 1)%Z ->
  text <> EmptyString ->
  json_span text = Some json_str ->
  json_loads json_str = Return rows ->
  let answer :=
    optimize json_loads self "gemini" (Response (fr :: rest) (Text text)) r in
  (forallb is_container rows = true ->
   existsb names_entity_id rows = true ->
   answer = (Return (mkOptimizationResult
                       (map AdvisorSlot (List.filter names_entity_id rows))
                       "gemini" None [] None None), r))
  /\ (forallb is_container rows = false ->
      answer = (let+ gs := generate_fallback_schedule (ho_entities self)
                                                      (Some (ho_config self)) in
                Return (mkOptimizationResult (map GeneSlot gs) "gemini"
                                             None [] None None), r)).
Proof.
  intros Hfr Htext Hspan Hloads answer.
  assert (Hdispatch : answer
                      = lift (optimize_with_gemini json_loads self
                                (Response (fr :: rest) (Text text))) r)
    by reflexivity.
  rewrite Hdispatch. clear Hdispatch answer.
  unfold lift, optimize_with_gemini, generate_schedule_suggestions.
  assert (E2 : (fr =? 2)%Z = false) by (destruct Hfr; subst; reflexivity).
  assert (E3 : (fr =? 3)%Z = false) by (destruct Hfr; subst; reflexivity).
  assert (E01 : negb ((fr =? 0)%Z || (fr =? 1)%Z) = false)
    by (destruct Hfr; subst; reflexivity).
  rewrite E2, E3, E01.
  destruct text as [|c s]; [congruence|].
  unfold parse_response. rewrite Hspan, Hloads. cbn [rbind].
  rewrite validate_rows_closed.
  split.
  - intros Hall Hsome. rewrite Hall. simpl rbind.
    destruct (List.filter names_entity_id rows) as [|row valid] eqn:Ef.
    + exfalso. apply existsb_exists in Hsome as (x & Hin & Hx).
      assert (In x (List.filter names_entity_id rows))
        by (apply List.filter_In; split; assumption).
      rewrite Ef in H. destruct H.
    + reflexivity.
  - intros Hbad. rewrite Hbad. simpl rbind.
    destruct (generate_fallback_schedule (ho_entities self) (Some (ho_config self)));
      reflexivity.
Qed.

Lemma advisor_rows_are_not_checked_witness :
  optimize mixed_rows_decoder small_grid_optimizer "gemini"
    (Response [1%Z] (Text "Here you are: [ ... ]")) (mkRng (tape_of []) 0)
  = (Return (mkOptimizationResult
               [AdvisorSlot (JObject [("entity_id", JString "nobody");
                                      ("day", JString "Mon")]);
                AdvisorSlot (JString "entity_id: a")]
               "gemini" None [] None None), mkRng (tape_of []) 0)
  /\ exists gs,
      generate_fallback_schedule five_entities (Some small_grid) = Return gs
      /\ optimize number_row_decoder small_grid_optimizer "gemini"
           (Response [1%Z] (Text "[ ... ]")) (mkRng (tape_of []) 0)
         = (Return (mkOptimizationResult (map GeneSlot gs) "gemini" None [] None None),
            mkRng (tape_of []) 0).
Proof.
  split.
  - apply (proj1 (advisor_rows_are_not_checked mixed_rows_decoder small_grid_optimizer
                    1 [] "Here you are: [ ... ]" "[ ... ]" _ (mkRng (tape_of []) 0)
                    ltac:(right; reflexivity) ltac:(discriminate)
                    ltac:(vm_compute; reflexivity) ltac:(reflexivity)));
      vm_compute; reflexivity.
  - eexists. split; [vm_compute; reflexivity|].
    apply (proj2 (advisor_rows_are_not_checked number_row_decoder small_grid_optimizer
                    1 [] "[ ... ]" "[ ... ]" _ (mkRng (tape_of []) 0)
                    ltac:(right; reflexivity) ltac:(discriminate)
                    ltac:(vm_compute; reflexivity) ltac:(reflexivity))).
    vm_compute. reflexivity.
Defined.

(** ** The three methods of [optimize] *)

(** X18.  The hybrid method runs the genetic algorithm exactly as the
    genetic method does: from the same random state it consumes the same
    draws and returns the same schedule, fitness, history and configuration,
    or raises the same exception, whatever the advisor answers; only the
    method label and the [gemini_seed] flag differ. *)
Theorem hybrid_runs_the_genetic_algorithm
    (json_loads : string -> result (list Json)) (self : HybridOptimizer)
    (outcome : AdvisorOutcome) (r : Rng) :
  (forall res r',
      optimize json_loads self "genetic" outcome r = (Return res, r') ->
      exists seed,
        optimize json_loads self "hybrid" outcome r
        = (Return (mkOptimizationResult (o_schedule res) "hybrid" (o_fitness res)
                     (o_history res) (o_config_used res) (Some seed)), r')
        /\ o_method res = "genetic" /\ o_gemini_seed res = None)
  /\ (forall e r',
      optimize json_loads self "genetic" outcome r = (Raise e, r') ->
      optimize json_loads self "hybrid" outcome r = (Raise e, r')).
Proof.
  rewrite optimize_genetic, optimize_hybrid_method.
  unfold optimize_with_ga, optimize_hybrid, bind, ret. cbv zeta.
  destruct (evolve _ r) as [[e|ga_res] r1]; split; intros ? ? H;
    inversion H; subst; try reflexivity.
  eexists. cbn [o_schedule o_fitness o_history o_config_used o_method o_gemini_seed].
  repeat split.
Qed.

Lemma hybrid_runs_the_genetic_algorithm_witness :
  exists res r' seed,
    optimize rejecting_decoder one_room_optimizer "genetic" GenerateRaises
      (mkRng one_room_tape 0) = (Return res, r')
    /\ optimize rejecting_decoder one_room_optimizer "hybrid" GenerateRaises
         (mkRng one_room_tape 0)
       = (Return (mkOptimizationResult (o_schedule res) "hybrid" (o_fitness res)
                    (o_history res) (o_config_used res) (Some seed)), r').
Proof.
  destruct (optimize rejecting_decoder one_room_optimizer "genetic" GenerateRaises
              (mkRng one_room_tape 0)) as [[e|res] r'] eqn:H;
    [vm_compute in H; discriminate|].
  destruct (proj1 (hybrid_runs_the_genetic_algorithm rejecting_decoder
                     one_room_optimizer GenerateRaises (mkRng one_room_tape 0))
              res r' H) as (seed & Hh & _).
  exists res, r', seed. split; [reflexivity | exact Hh].
Defined.

(** X19.  [optimize] knows three methods: any other name raises
    [ValueError] before a random number is drawn, and a result that is
    returned carries the name of the method that was asked for. *)
Theorem optimize_method_dispatch
    (json_loads : string -> result (list Json)) (self : HybridOptimizer)
    (method : string) (outcome : AdvisorOutcome) (r : Rng) :
  (method <> "gemini" -> method <> "genetic" -> method <> "hybrid" ->
   optimize json_loads self method outcome r = (Raise ValueError, r))
  /\ (forall res r',
      optimize json_loads self method outcome r = (Return res, r') ->
      o_method res = method
      /\ (method = "gemini" \/ method = "genetic" \/ method = "hybrid")).
Proof.
  unfold optimize.
  destruct (String.eqb_spec method "gemini") as [->|N1].
  { split; [congruence|]. intros res r' H. split; [|auto].
    unfold lift, optimize_with_gemini in H.
    destruct (try_except _ _); simpl in H; inversion H; reflexivity. }
  destruct (String.eqb_spec method "genetic") as [->|N2].
  { split; [congruence|]. intros res r' H. split; [|auto].
    unfold optimize_with_ga, bind, ret in H. cbv zeta in H.
    destruct (evolve _ r) as [[e|ga_res] r1]; inversion H; reflexivity. }
  destruct (String.eqb_spec method "hybrid") as [->|N3].
  { split; [congruence|]. intros res r' H. split; [|auto].
    unfold optimize_hybrid, bind, ret in H. cbv zeta in H.
    destruct (evolve _ r) as [[e|ga_res] r1]; inversion H; reflexivity. }
  split; [reflexivity|]. intros res r' H. discriminate.
Qed.

Lemma optimize_method_dispatch_witness :
  optimize rejecting_decoder one_room_optimizer "Hybrid" GenerateRaises
    (mkRng one_room_tape 0) = (Raise ValueError, mkRng one_room_tape 0).
Proof.
  apply (proj1 (optimize_method_dispatch rejecting_decoder one_room_optimizer
                  "Hybrid" GenerateRaises (mkRng one_room_tape 0))); discriminate.
Defined.

(** ** Crossover on genomes of fewer than two genes *)











(** ** The text handed to the decoder *)

Lemma find_char_get (c : ascii) (s : string) (i : nat) :
  find_char c s = Some i -> String.get i s = Some c.
Proof.
  revert i. induction s as [|x s IH]; intros i H; simpl in H; [discriminate|].
  destruct (Ascii.eqb_spec x c) as [->|N].
  - inversion H. reflexivity.
  - destruct (find_char c s) as [k|]; [|discriminate].
    inversion H. simpl. apply IH. reflexivity.
Qed.

Lemma rfind_char_get (c : ascii) (s : string) (i : nat) :
  rfind_char c s = Some i -> String.get i s = Some c.
Proof.
  revert i. induction s as [|x s IH]; intros i H; simpl in H; [discriminate|].
  destruct (rfind_char c s) as [k|].
  - inversion H. simpl. apply IH. reflexivity.
  - destruct (Ascii.eqb_spec x c) as [->|N]; [|discriminate].
    inversion H. reflexivity.
Qed.

(** X21.  The text that [parse_response] hands to [json.loads] starts with
    ['['] and ends with [']']: what decodes is an array. *)
Theorem json_span_is_bracketed (response_text json_str : string) :
  json_span response_text = Some json_str ->
  exists last,
    String.get 0 json_str = Some "["%char
    /\ String.get (S last) json_str = Some "]"%char
    /\ String.get (S (S last)) json_str = None.
Proof.
  unfold json_span.
  set (text := replace "```" "" (replace "```json" "" _)).
  destruct (find_char "["%char text) as [start|] eqn:Ef; [|discriminate].
  destruct (rfind_char "]"%char text) as [i|] eqn:Er.
  2:{ destruct (Nat.ltb_spec start 0); [lia | discriminate]. }
  destruct (Nat.ltb_spec start (i + 1)) as [Hlt|]; [|discriminate].
  intros H. inversion H; subst json_str. clear H.
  apply find_char_get in Ef. apply rfind_char_get in Er.
  assert (Hne : start <> i).
  { intros ->. rewrite Ef in Er. discriminate. }
  exists (i - start - 1).
  split; [|split].
  - rewrite String.substring_correct1 by lia. exact Ef.
  - rewrite String.substring_correct1 by lia.
    replace (S (i - start - 1) + start) with i by lia. exact Er.
  - apply String.substring_correct2. lia.
Qed.

Lemma json_span_is_bracketed_witness :
  exists last,
    String.get 0 "[{}, 7]" = Some "["%char
    /\ String.get (S last) "[{}, 7]" = Some "]"%char
    /\ String.get (S (S last)) "[{}, 7]" = None.
Proof.
  apply (json_span_is_bracketed "```json
Sure: [{}, 7] and more
```").
  vm_compute. reflexivity.
Defined.

(** ** The two fitness methods *)



(** ** When [evolve] returns *)











Section SaneConfiguration.

Variable self : ScheduleGA.

Hypothesis days_given : self_days self <> [].
Hypothesis time_slots_given : self_time_slots self <> [].
Hypothesis rooms_given : self_rooms self <> [].
Hypothesis two_entities_given : 2 <= length (entities self).
Hypothesis tournament_given : (1 <= cfg_tournament_size self)%Z.











End SaneConfiguration.



(** ** The configuration that a run reports *)

Lemma evolve_config_used (self : ScheduleGA) (r r' : Rng) (res : GAResult) :
  evolve self r = (Return res, r') -> config_used res = config self.
Proof.
  intros H. unfold evolve in H. inv_bind H. inv_bind H.
  apply lift_Return in H as [Hfin _]. unfold finish in Hfin.
  destruct (hof a0) as [best|]; [|discriminate].
  destruct (fitness best); [|discriminate].
  inversion Hfin. reflexivity.
Qed.

(** X24.  The [config_used] of a result is the caller's configuration with
    the defaults of [__init__] filled in, and it is a fixed point of the
    constructor: an optimiser built from it is the one that ran, so the
    same random state gives the same result again. *)
Theorem config_used_reproduces_run (ents : list Entity) (cons : list Constraint)
    (cfg : option Config) (r r' : Rng) (res : GAResult) :
  evolve (ScheduleGA_init ents cons cfg) r = (Return res, r') ->
  config_used res = with_defaults (get cfg empty_config)
  /\ ScheduleGA_init ents cons (Some (config_used res)) = ScheduleGA_init ents cons cfg
  /\ evolve (ScheduleGA_init ents cons (Some (config_used res))) r = (Return res, r').
Proof.
  intros H. pose proof (evolve_config_used _ _ _ _ H) as E.
  assert (E' : config_used res = with_defaults (get cfg empty_config)) by exact E.
  assert (Hinit : ScheduleGA_init ents cons (Some (config_used res))
                  = ScheduleGA_init ents cons cfg).
  { rewrite E'. reflexivity. }
  split; [exact E'|]. split; [exact Hinit|]. rewrite Hinit. exact H.
Qed.

Lemma config_used_reproduces_run_witness :
  exists res r',
    evolve one_room_ga (mkRng one_room_tape 0) = (Return res, r')
    /\ population_size (config_used res) = Some 2%Z
    /\ generations (config_used res) = Some 500%Z
    /\ days (config_used res) = Some ["Mon"]
    /\ evolve (ScheduleGA_init two_entities [mkConstraint "no_overlap" None [] []]
                               (Some (config_used res)))
              (mkRng one_room_tape 0) = (Return res, r').
Proof.
  destruct (evolve one_room_ga (mkRng one_room_tape 0)) as [[e|res] r'] eqn:H;
    [vm_compute in H; discriminate|].
  destruct (config_used_reproduces_run two_entities
              [mkConstraint "no_overlap" None [] []] (Some one_room_config) _ _ _ H)
    as (E & _ & Hagain).
  exists res, r'. split; [reflexivity|].
  split; [rewrite E; reflexivity|]. split; [rewrite E; reflexivity|].
  split; [rewrite E; reflexivity | exact Hagain].
Defined.
